(** * Blackjack over a fixed-layout binary protocol

    A shallow embedding of [protocol.py] (the packet codec), of the card
    model and of the per-connection session of [server.py], and of the
    display helpers and the session of [client.py], followed by the
    properties of the codec, of the deck, of the round engine and of the
    client run against the server.

    Conventions.
    - Python [int] is [Z]; [bytes] is [list byte]; a [str] is the list of
      its code points.
    - A raised exception is the [Raise] branch of [result]; the exception
      classes that the modelled code can raise are the constructors of
      [exn].
    - [print] calls are logging only and are left out. *)

From Stdlib Require Import ZArith Lia String DecimalString DecimalZ.
From Stdlib Require Import Strings.Byte.
From stdpp Require Import base list.

Local Open Scope Z_scope.

(** ** Bytes *)

Abbreviation bytes := (list byte).

#[global] Instance byte_eq_dec : EqDecision byte := Byte.byte_eq_dec.

Definition b2z (b : byte) : Z := Z.of_N (Byte.to_N b).

Definition z2b (z : Z) : byte :=
  match Byte.of_N (Z.to_N z) with
  | Some b => b
  | None => x00
  end.

(** Big-endian ("network order", the [!] of [struct]) integers. *)
Fixpoint be_encode (n : nat) (z : Z) : bytes :=
  match n with
  | O => []
  | S k => z2b ((z / 256 ^ Z.of_nat k) mod 256) :: be_encode k z
  end.

Definition be_decode (bs : bytes) : Z :=
  fold_left (fun acc b => acc * 256 + b2z b) bs 0.

(** ** Exceptions *)

Inductive exn : Type :=
  | ValueError (msg : string)
  | ConnectionError (msg : string)
  | IndexError (msg : string)
  | StructError.

(** The outcome of a call.  [OutOfFuel] is not a Python outcome: it is
    what a loop of the model answers when its iteration budget is used
    up, and the theorems show that the budgets given are never used up. *)
Inductive result (A : Type) : Type :=
  | Ok (a : A)
  | Raise (e : exn)
  | OutOfFuel.
Arguments Ok {A} a.
Arguments Raise {A} e.
Arguments OutOfFuel {A}.

(** ** The world a session runs in

    A connected stream socket is the segments still to be delivered to
    [recv] (in order; the peer closes after the last one; an empty
    segment is an end of stream too), the buffers handed to [sendall] so
    far (oldest first) and whether [close] was called.  The module-level
    random generator is the list of the raw numbers it will produce.

    A peer that keeps silent without closing is not in this world, and
    with it [client_sock.settimeout(60)] of [handle_client] is left out:
    there [recv] raises [TimeoutError] in the server after 60 seconds and
    waits without end in the client, which sets no time-out.  No
    statement below says what happens then. *)

Record socket : Type := {
  sk_in : list bytes;
  sk_out : list bytes;
  sk_closed : bool
}.

Record world : Type := {
  w_sock : socket;
  w_rng : list nat
}.

Definition M (A : Type) : Type := world -> result A * world.

Definition ret {A} (a : A) : M A := fun w => (Ok a, w).

Definition bind {A B} (m : M A) (k : A -> M B) : M B :=
  fun w =>
    match m w with
    | (Ok a, w') => k a w'
    | (Raise e, w') => (Raise e, w')
    | (OutOfFuel, w') => (OutOfFuel, w')
    end.

Definition lift {A} (r : result A) : M A := fun w => (r, w).

Definition raise {A} (e : exn) : M A := lift (Raise e).

(** [try: body finally: cleanup]. *)
Definition try_finally {A} (body : M A) (cleanup : M unit) : M A :=
  fun w =>
    match body w with
    | (r, w') =>
        match cleanup w' with
        | (Ok _, w'') => (r, w'')
        | (Raise e, w'') => (Raise e, w'')
        | (OutOfFuel, w'') => (OutOfFuel, w'')
        end
    end.

#[global] Instance M_ret : MRet M := @ret.
#[global] Instance M_bind : MBind M := fun A B k m => bind m k.

(** [sock.recv(k)]: at most [k] bytes of the next segment; [b""] once the
    stream has ended. *)
Definition sock_recv (k : nat) : M bytes :=
  fun w =>
    let s := w_sock w in
    match sk_in s with
    | [] | [] :: _ => (Ok [], w)
    | seg :: rest =>
        (Ok (take k seg),
         {| w_sock := {| sk_in := match drop k seg with
                                  | [] => rest
                                  | seg' => seg' :: rest
                                  end;
                         sk_out := sk_out s;
                         sk_closed := sk_closed s |};
            w_rng := w_rng w |})
    end.

(** [sock.sendall(data)]; the failure of a send is not modelled. *)
Definition sock_sendall (data : bytes) : M unit :=
  fun w =>
    let s := w_sock w in
    (Ok tt,
     {| w_sock := {| sk_in := sk_in s;
                     sk_out := sk_out s ++ [data];
                     sk_closed := sk_closed s |};
        w_rng := w_rng w |}).

Definition sock_close : M unit :=
  fun w =>
    let s := w_sock w in
    (Ok tt,
     {| w_sock := {| sk_in := sk_in s;
                     sk_out := sk_out s;
                     sk_closed := true |};
        w_rng := w_rng w |}).

(** [random._randbelow(n)]: the next raw number, reduced to [0 .. n-1]. *)
Definition randbelow (n : nat) : M nat :=
  fun w =>
    match w_rng w with
    | [] => (Ok O, w)
    | r :: rs => (Ok (r mod n)%nat, {| w_sock := w_sock w; w_rng := rs |})
    end.

(** [random.shuffle(x)]:
    [for i in reversed(range(1, len(x))): j = randbelow(i + 1);
     x[i], x[j] = x[j], x[i]]. *)
Definition swap_items {A} (x : list A) (i j : nat) : result (list A) :=
  match x !! j, x !! i with
  | Some xj, Some xi => Ok (<[j:=xi]> (<[i:=xj]> x))
  | _, _ => Raise (IndexError "list index out of range")
  end.

Fixpoint shuffle_from {A} (i : nat) (x : list A) : M (list A) :=
  match i with
  | O => ret x
  | S i' =>
      j ← randbelow (i + 1);
      x' ← lift (swap_items x i j);
      shuffle_from i' x'
  end.

Definition shuffle {A} (x : list A) : M (list A) :=
  shuffle_from (length x - 1) x.

(** ** The [struct] module, for the formats the protocol uses

    Only the codes [I] (4 bytes), [B] (1 byte), [H] (2 bytes) and [<n>s]
    occur, always behind [!]: big-endian, no alignment padding. *)

Inductive fmt_code : Type :=
  | FmtI
  | FmtB
  | FmtH
  | FmtS (n : nat).

Inductive pyval : Type :=
  | VInt (z : Z)
  | VBytes (bs : bytes).

Definition fmt_size (c : fmt_code) : nat :=
  match c with
  | FmtI => 4
  | FmtB => 1
  | FmtH => 2
  | FmtS n => n
  end.

Definition calcsize (fmt : list fmt_code) : nat :=
  foldr (fun c acc => (fmt_size c + acc)%nat) O fmt.

(** [struct.pack] of one field; [None] is [struct.error] (an integer out
    of the range of its code, or a value of the wrong kind).  A [bytes]
    value for [<n>s] is cut or zero-padded to [n] bytes. *)
Definition pack_field (c : fmt_code) (v : pyval) : option bytes :=
  match c, v with
  | FmtS n, VBytes bs => Some (take n bs ++ replicate (n - length bs) x00)
  | FmtS _, VInt _ => None
  | _, VInt z =>
      if decide (0 <= z < 256 ^ Z.of_nat (fmt_size c))
      then Some (be_encode (fmt_size c) z)
      else None
  | _, VBytes _ => None
  end.

Fixpoint struct_pack (fmt : list fmt_code) (vs : list pyval) : option bytes :=
  match fmt, vs with
  | [], [] => Some []
  | c :: fmt', v :: vs' =>
      match pack_field c v, struct_pack fmt' vs' with
      | Some b, Some bs => Some (b ++ bs)
      | _, _ => None
      end
  | _, _ => None
  end.

Definition unpack_field (c : fmt_code) (bs : bytes) : pyval :=
  match c with
  | FmtS _ => VBytes bs
  | _ => VInt (be_decode bs)
  end.

Fixpoint unpack_fields (fmt : list fmt_code) (data : bytes) : list pyval :=
  match fmt with
  | [] => []
  | c :: fmt' =>
      unpack_field c (take (fmt_size c) data)
        :: unpack_fields fmt' (drop (fmt_size c) data)
  end.

(** [struct.unpack] demands a buffer of exactly [calcsize fmt] bytes. *)
Definition struct_unpack (fmt : list fmt_code) (data : bytes)
  : option (list pyval) :=
  if decide (length data = calcsize fmt)
  then Some (unpack_fields fmt data)
  else None.

(** ** Python strings and the UTF-8 codec *)

Abbreviation pystr := (list Z).

(** A string literal of the source, as code points. *)
Definition lit (s : string) : pystr :=
  map (fun a => Z.of_N (Ascii.N_of_ascii a)) (list_ascii_of_string s).

(** A literal [b"..."] of the source. *)
Definition blit (s : string) : bytes := list_byte_of_string s.

Definition is_surrogate (c : Z) : bool := (0xD800 <=? c) && (c <=? 0xDFFF).

Definition utf8_encode_cp (c : Z) : bytes :=
  if c <? 0x80 then [z2b c]
  else if c <? 0x800 then
    [z2b (0xC0 + c / 64); z2b (0x80 + c mod 64)]
  else if c <? 0x10000 then
    [z2b (0xE0 + c / 4096); z2b (0x80 + (c / 64) mod 64);
     z2b (0x80 + c mod 64)]
  else
    [z2b (0xF0 + c / 262144); z2b (0x80 + (c / 4096) mod 64);
     z2b (0x80 + (c / 64) mod 64); z2b (0x80 + c mod 64)].

(** [s.encode("utf-8", errors="ignore")]: the only code points the codec
    cannot encode are the surrogates, and the handler drops them. *)
Fixpoint str_encode_ignore (s : pystr) : bytes :=
  match s with
  | [] => []
  | c :: s' =>
      (if is_surrogate c then [] else utf8_encode_cp c)
        ++ str_encode_ignore s'
  end.

Definition is_cont (b : Z) : bool := (0x80 <=? b) && (b <? 0xC0).

(** [bs.decode("utf-8", errors="ignore")], after CPython's decoder: an
    invalid start byte is dropped alone; a sequence broken at its k-th
    continuation byte loses its first k bytes and decoding resumes at the
    offending byte; a sequence cut by the end of the data is dropped
    whole.  Over-long forms, surrogates and code points above U+10FFFF
    are rejected at the second byte. *)
Fixpoint bytes_decode_ignore (bs : bytes) : pystr :=
  match bs with
  | [] => []
  | b1 :: r1 =>
    let ch := b2z b1 in
    if ch <? 0x80 then ch :: bytes_decode_ignore r1
    else if ch <? 0xC2 then bytes_decode_ignore r1
    else if ch <? 0xE0 then
      match r1 with
      | [] => []
      | b2 :: r2 =>
        let ch2 := b2z b2 in
        if negb (is_cont ch2) then bytes_decode_ignore r1
        else (ch * 64 + ch2 - 0x3080) :: bytes_decode_ignore r2
      end
    else if ch <? 0xF0 then
      match r1 with
      | [] => []
      | b2 :: r2 =>
        let ch2 := b2z b2 in
        if negb (is_cont ch2)
           || (if ch2 <? 0xA0 then ch =? 0xE0 else ch =? 0xED)
        then bytes_decode_ignore r1
        else
          match r2 with
          | [] => []
          | b3 :: r3 =>
            let ch3 := b2z b3 in
            if negb (is_cont ch3) then bytes_decode_ignore r2
            else (ch * 4096 + ch2 * 64 + ch3 - 0xE2080)
                   :: bytes_decode_ignore r3
          end
      end
    else if ch <? 0xF5 then
      match r1 with
      | [] => []
      | b2 :: r2 =>
        let ch2 := b2z b2 in
        if negb (is_cont ch2)
           || (if ch2 <? 0x90 then ch =? 0xF0 else ch =? 0xF4)
        then bytes_decode_ignore r1
        else
          match r2 with
          | [] => []
          | b3 :: r3 =>
            let ch3 := b2z b3 in
            if negb (is_cont ch3) then bytes_decode_ignore r2
            else
              match r3 with
              | [] => []
              | b4 :: r4 =>
                let ch4 := b2z b4 in
                if negb (is_cont ch4) then bytes_decode_ignore r3
                else (ch * 262144 + ch2 * 4096 + ch3 * 64 + ch4 - 0x3C82080)
                       :: bytes_decode_ignore r4
              end
          end
      end
    else bytes_decode_ignore r1
  end.

(** [bs.split(sep, 1)[0]] for a one-byte separator: what precedes the
    first occurrence of [sep], or all of [bs] when there is none. *)
Fixpoint split_head (sep : byte) (bs : bytes) : bytes :=
  match bs with
  | [] => []
  | b :: r => if decide (b = sep) then [] else b :: split_head sep r
  end.

(** [bs.rstrip(c)] for a one-byte set. *)
Fixpoint rstrip (c : byte) (bs : bytes) : bytes :=
  match bs with
  | [] => []
  | b :: r =>
      match rstrip c r with
      | [] => if decide (b = c) then [] else [b]
      | r' => b :: r'
      end
  end.

(** [bs.ljust(width, fill)]. *)
Definition ljust (width : nat) (fill : byte) (bs : bytes) : bytes :=
  bs ++ replicate (width - length bs) fill.

(** [s.lower()], used by the source only to compare the result with
    ["hit"] and ["stand"].  The letters concerned are the image of
    themselves and of their ASCII capitals only, so the case mapping of
    the code points above U+007F is left out: they are kept as they are. *)
Definition lower_cp (c : Z) : Z :=
  if (0x41 <=? c) && (c <=? 0x5A) then c + 32 else c.

Definition str_lower (s : pystr) : pystr := map lower_cp s.

(** [str(n)] for an [int]: its decimal digits, behind a minus sign when
    it is negative. *)
Definition str_of_int (z : Z) : pystr :=
  lit (NilZero.string_of_int (Z.to_int z)).

(** [sep.join(items)]. *)
Fixpoint str_join (sep : pystr) (items : list pystr) : pystr :=
  match items with
  | [] => []
  | [x] => x
  | x :: rest => x ++ sep ++ str_join sep rest
  end.

(** [c.isspace()]: the code points that [strip] removes. *)
Definition is_space (c : Z) : bool :=
  ((0x09 <=? c) && (c <=? 0x0D)) || ((0x1C <=? c) && (c <=? 0x20))
  || (c =? 0x85) || (c =? 0xA0) || (c =? 0x1680)
  || ((0x2000 <=? c) && (c <=? 0x200A))
  || (c =? 0x2028) || (c =? 0x2029) || (c =? 0x202F) || (c =? 0x205F)
  || (c =? 0x3000).

Fixpoint str_lstrip (s : pystr) : pystr :=
  match s with
  | [] => []
  | c :: s' => if is_space c then str_lstrip s' else s
  end.

(** [s.strip()]. *)
Definition str_strip (s : pystr) : pystr :=
  reverse (str_lstrip (reverse (str_lstrip s))).

(** * protocol.py *)

Module protocol.

Definition MAGIC_COOKIE : Z := 0xabcddcba.

Definition OFFER_TYPE : Z := 0x2.
Definition REQUEST_TYPE : Z := 0x3.
Definition PAYLOAD_TYPE : Z := 0x4.

Definition UDP_PORT : Z := 13122.
Definition TEAM_NAME_LEN : nat := 32.

Definition RESULT_NOT_OVER : Z := 0x0.
Definition RESULT_TIE : Z := 0x1.
Definition RESULT_LOSS : Z := 0x2.
Definition RESULT_WIN : Z := 0x3.

Definition DECISION_HIT : bytes := blit "Hittt".
Definition DECISION_STAND : bytes := blit "Stand".

Definition encode_team_name (name : pystr) : bytes :=
  let raw := str_encode_ignore name in
  if (TEAM_NAME_LEN <? length raw)%nat
  then take TEAM_NAME_LEN raw
  else ljust TEAM_NAME_LEN x00 raw.

Definition decode_team_name (raw : bytes) : pystr :=
  bytes_decode_ignore (split_head x00 raw).

(** [recv_exact(sock, n)].  Every turn of the loop adds at least one byte
    to [data], so [n] turns are enough. *)
Fixpoint recv_exact_loop (fuel n : nat) (data : bytes) : M bytes :=
  if (length data <? n)%nat then
    match fuel with
    | O => lift OutOfFuel
    | S fuel' =>
        chunk ← sock_recv (n - length data);
        match chunk with
        | [] => raise (ConnectionError "Socket closed while receiving data")
        | _ => recv_exact_loop fuel' n (data ++ chunk)
        end
    end
  else ret data.

Definition recv_exact (n : nat) : M bytes := recv_exact_loop n n [].

(** *** Offer (UDP): cookie(4) | type(1) | tcp_port(2) | server_name(32) *)

Definition _OFFER_FMT : list fmt_code := [FmtI; FmtB; FmtH; FmtS 32].
Definition _OFFER_SIZE : nat := calcsize _OFFER_FMT.

Definition pack_offer (tcp_port : Z) (server_name : pystr) : result bytes :=
  match struct_pack _OFFER_FMT
          [VInt MAGIC_COOKIE; VInt OFFER_TYPE; VInt tcp_port;
           VBytes (encode_team_name server_name)] with
  | Some pkt => Ok pkt
  | None => Raise StructError
  end.

Definition unpack_offer (data : bytes) : result (Z * pystr) :=
  if (length data <? _OFFER_SIZE)%nat
  then Raise (ValueError "Offer packet too short")
  else
    match struct_unpack _OFFER_FMT (take _OFFER_SIZE data) with
    | Some [VInt cookie; VInt msg_type; VInt tcp_port; VBytes raw_name] =>
        if negb (cookie =? MAGIC_COOKIE) || negb (msg_type =? OFFER_TYPE)
        then Raise (ValueError "Invalid offer packet")
        else Ok (tcp_port, decode_team_name raw_name)
    | _ => Raise StructError
    end.

(** *** Request (TCP): cookie(4) | type(1) | rounds(1) | client_name(32) *)

Definition _REQUEST_FMT : list fmt_code := [FmtI; FmtB; FmtB; FmtS 32].
Definition _REQUEST_SIZE : nat := calcsize _REQUEST_FMT.

Definition pack_request (rounds : Z) (client_name : pystr) : result bytes :=
  match struct_pack _REQUEST_FMT
          [VInt MAGIC_COOKIE; VInt REQUEST_TYPE; VInt rounds;
           VBytes (encode_team_name client_name)] with
  | Some pkt => Ok pkt
  | None => Raise StructError
  end.

Definition unpack_request (data : bytes) : result (Z * pystr) :=
  if (length data <? _REQUEST_SIZE)%nat
  then Raise (ValueError "Request packet too short")
  else
    match struct_unpack _REQUEST_FMT (take _REQUEST_SIZE data) with
    | Some [VInt cookie; VInt msg_type; VInt rounds; VBytes raw_name] =>
        if negb (cookie =? MAGIC_COOKIE) || negb (msg_type =? REQUEST_TYPE)
        then Raise (ValueError "Invalid request packet")
        else Ok (rounds, decode_team_name raw_name)
    | _ => Raise StructError
    end.

(** *** Client payload (TCP): cookie(4) | type(1) | decision(5) *)

Definition _CLIENT_PAYLOAD_FMT : list fmt_code := [FmtI; FmtB; FmtS 5].
Definition _CLIENT_PAYLOAD_SIZE : nat := calcsize _CLIENT_PAYLOAD_FMT.

Definition pack_client_payload (decision : pystr) : result bytes :=
  match
    (if decide (str_lower decision = lit "hit") then Some DECISION_HIT
     else if decide (str_lower decision = lit "stand") then Some DECISION_STAND
     else None)
  with
  | None => Raise (ValueError "Invalid decision")
  | Some d =>
      match struct_pack _CLIENT_PAYLOAD_FMT
              [VInt MAGIC_COOKIE; VInt PAYLOAD_TYPE; VBytes d] with
      | Some pkt => Ok pkt
      | None => Raise StructError
      end
  end.

Definition unpack_client_payload (data : bytes) : result pystr :=
  if (length data <? _CLIENT_PAYLOAD_SIZE)%nat
  then Raise (ValueError "Client payload too short")
  else
    match struct_unpack _CLIENT_PAYLOAD_FMT (take _CLIENT_PAYLOAD_SIZE data) with
    | Some [VInt cookie; VInt msg_type; VBytes raw_decision] =>
        if negb (cookie =? MAGIC_COOKIE) || negb (msg_type =? PAYLOAD_TYPE)
        then Raise (ValueError "Invalid client payload")
        else
          let decision := rstrip x00 raw_decision in
          if decide (decision = DECISION_HIT) then Ok (lit "Hit")
          else if decide (decision = DECISION_STAND) then Ok (lit "Stand")
          else Raise (ValueError "Unknown decision")
    | _ => Raise StructError
    end.

(** *** Server payload (TCP): cookie(4) | type(1) | result(1) | rank(2) | suit(1) *)

Definition _SERVER_PAYLOAD_FMT : list fmt_code := [FmtI; FmtB; FmtB; FmtH; FmtB].
Definition _SERVER_PAYLOAD_SIZE : nat := calcsize _SERVER_PAYLOAD_FMT.

Definition pack_server_payload (res rank suit : Z) : result bytes :=
  match struct_pack _SERVER_PAYLOAD_FMT
          [VInt MAGIC_COOKIE; VInt PAYLOAD_TYPE; VInt res; VInt rank;
           VInt suit] with
  | Some pkt => Ok pkt
  | None => Raise StructError
  end.

Definition unpack_server_payload (data : bytes) : result (Z * Z * Z) :=
  if (length data <? _SERVER_PAYLOAD_SIZE)%nat
  then Raise (ValueError "Server payload too short")
  else
    match struct_unpack _SERVER_PAYLOAD_FMT (take _SERVER_PAYLOAD_SIZE data) with
    | Some [VInt cookie; VInt msg_type; VInt res; VInt rank; VInt suit] =>
        if negb (cookie =? MAGIC_COOKIE) || negb (msg_type =? PAYLOAD_TYPE)
        then Raise (ValueError "Invalid server payload")
        else Ok (res, rank, suit)
    | _ => Raise StructError
    end.

End protocol.

(** * server.py *)

Module server.
Import protocol.

Definition REQUEST_SIZE : nat := 38.
Definition CLIENT_PAYLOAD_SIZE : nat := 10.

(** ** Card and deck logic *)

(** A card is the tuple [(rank, suit)]. *)
Definition card : Type := Z * Z.

Definition SUITS : list Z := [0; 1; 2; 3].
Definition RANKS : list Z := Z.of_nat <$> seq 1 13.

(** [l.pop()]: removes and returns the last item. *)
Definition list_pop {A} (l : list A) : result (A * list A) :=
  match last l with
  | Some a => Ok (a, take (length l - 1) l)
  | None => Raise (IndexError "pop from empty list")
  end.

(** [l[i]] for [i >= 0]. *)
Definition list_get {A} (l : list A) (i : nat) : result A :=
  match l !! i with
  | Some a => Ok a
  | None => Raise (IndexError "list index out of range")
  end.

Record Deck : Type := { cards : list card }.

Definition Deck_init : M Deck :=
  cs ← shuffle (suit ← SUITS; rank ← RANKS; [(rank, suit)]);
  mret {| cards := cs |}.

Definition Deck_draw (self : Deck) : result (card * Deck) :=
  match list_pop (cards self) with
  | Ok (c, rest) => Ok (c, {| cards := rest |})
  | Raise e => Raise e
  | OutOfFuel => OutOfFuel
  end.

Definition card_value (rank : Z) : Z :=
  if rank =? 1 then 11
  else if rank >=? 11 then 10
  else rank.

(** [sum(card_value(rank) for rank, _ in hand)]: [sum] adds the items
    from left to right, starting from 0. *)
Definition hand_value (hand : list card) : Z :=
  fold_left Z.add ((fun c : card => card_value c.1) <$> hand) 0.

(** ** One client session *)

(** [client_sock.sendall(pack_server_payload(res, rank, suit))]. *)
Definition send_payload (res rank suit : Z) : M unit :=
  pkt ← lift (pack_server_payload res rank suit);
  sock_sendall pkt.

(** [for rank, suit in hand: client_sock.sendall(pack_server_payload(
    RESULT_NOT_OVER, rank, suit))]. *)
Fixpoint send_cards (hand : list card) : M unit :=
  match hand with
  | [] => mret tt
  | c :: hand' => send_payload RESULT_NOT_OVER c.1 c.2;; send_cards hand'
  end.

(** The player turn, [while True: ...].  Every turn that does not leave
    the loop draws a card, so one turn more than the deck has cards is
    enough.  Returns the deck, the player hand and [player_bust]. *)
Fixpoint player_turn (fuel : nat) (deck : Deck) (player_hand : list card)
  : M (Deck * list card * bool) :=
  match fuel with
  | O => lift OutOfFuel
  | S fuel' =>
      data ← recv_exact CLIENT_PAYLOAD_SIZE;
      decision ← lift (unpack_client_payload data);
      if decide (decision = lit "Hit") then
        '(c, deck) ← lift (Deck_draw deck);
        let player_hand := player_hand ++ [c] in
        let total := hand_value player_hand in
        send_payload RESULT_NOT_OVER c.1 c.2;;
        if total >? 21 then mret (deck, player_hand, true)
        else player_turn fuel' deck player_hand
      else mret (deck, player_hand, false)
  end.

(** The dealer turn, [while hand_value(dealer_hand) < 17: ...]. *)
Fixpoint dealer_turn (fuel : nat) (deck : Deck) (dealer_hand : list card)
  : M (Deck * list card) :=
  if hand_value dealer_hand <? 17 then
    match fuel with
    | O => lift OutOfFuel
    | S fuel' =>
        '(c, deck) ← lift (Deck_draw deck);
        let dealer_hand := dealer_hand ++ [c] in
        send_payload RESULT_NOT_OVER c.1 c.2;;
        dealer_turn fuel' deck dealer_hand
    end
  else mret (deck, dealer_hand).

(** The local variables of a round when it ends. *)
Record round_end : Type := {
  re_player_hand : list card;
  re_dealer_hand : list card;
  re_player_bust : bool;
  re_result : Z
}.

Definition decide_result (player_bust : bool) (dealer_total player_total : Z)
  : Z :=
  if player_bust then RESULT_LOSS
  else if dealer_total >? 21 then RESULT_WIN
  else if dealer_total >? player_total then RESULT_LOSS
  else if dealer_total <? player_total then RESULT_WIN
  else RESULT_TIE.

(** The body of [for r in range(1, rounds + 1)]. *)
Definition play_round : M round_end :=
  deck ← Deck_init;
  '(p1, deck) ← lift (Deck_draw deck);
  '(p2, deck) ← lift (Deck_draw deck);
  let player_hand := [p1; p2] in
  '(d1, deck) ← lift (Deck_draw deck);
  '(d2, deck) ← lift (Deck_draw deck);
  let dealer_hand := [d1; d2] in
  send_cards player_hand;;
  first ← lift (list_get dealer_hand 0);
  send_payload RESULT_NOT_OVER first.1 first.2;;
  '(deck, player_hand, player_bust) ←
    player_turn (S (length (cards deck))) deck player_hand;
  hidden ← lift (list_get dealer_hand 1);
  send_payload RESULT_NOT_OVER hidden.1 hidden.2;;
  '(deck, dealer_hand) ←
    (if negb player_bust
     then dealer_turn (S (length (cards deck))) deck dealer_hand
     else mret (deck, dealer_hand));
  let dealer_total := hand_value dealer_hand in
  let player_total := hand_value player_hand in
  let res := decide_result player_bust dealer_total player_total in
  send_payload res 0 0;;
  mret {| re_player_hand := player_hand;
          re_dealer_hand := dealer_hand;
          re_player_bust := player_bust;
          re_result := res |}.

Fixpoint play_rounds (n : nat) : M (list round_end) :=
  match n with
  | O => mret []
  | S n' =>
      r ← play_round;
      rs ← play_rounds n';
      mret (r :: rs)
  end.

(** [handle_client(client_sock, client_addr)]; [range(1, rounds + 1)] has
    [rounds] items.  The summaries of the rounds played are returned for
    the statements below; the source returns [None].  The time-out that
    the source sets first has no effect on a peer that closes. *)
Definition handle_client : M (list round_end) :=
  try_finally
    (data ← recv_exact REQUEST_SIZE;
     '(rounds, client_name) ← lift (unpack_request data);
     play_rounds (Z.to_nat rounds))
    sock_close.

End server.

(** * client.py *)

(** ** The world the client runs in

    The client has its socket and the random generator like the server,
    and the lines its user will type, which [input] returns one by one.
    [EndOfInput] is the [EOFError] that [input] raises when no line is
    left; [Stuck] is the answer of a loop of the model whose iteration
    budget is used up.  What the client prints is left out. *)

Inductive outcome (A : Type) : Type :=
  | Returned (a : A)
  | Raised (e : exn)
  | EndOfInput
  | Stuck.
Arguments Returned {A} a.
Arguments Raised {A} e.
Arguments EndOfInput {A}.
Arguments Stuck {A}.

Record console : Type := {
  c_net : world;
  c_stdin : list pystr
}.

Definition C (A : Type) : Type := console -> outcome A * console.

#[global] Instance C_ret : MRet C := fun A a c => (Returned a, c).
#[global] Instance C_bind : MBind C := fun A B k m c =>
  match m c with
  | (Returned a, c') => k a c'
  | (Raised e, c') => (Raised e, c')
  | (EndOfInput, c') => (EndOfInput, c')
  | (Stuck, c') => (Stuck, c')
  end.

(** A step on the socket, run in the client. *)
Definition on_net {A} (m : M A) : C A :=
  fun c =>
    match m (c_net c) with
    | (Ok a, w) => (Returned a, {| c_net := w; c_stdin := c_stdin c |})
    | (Raise e, w) => (Raised e, {| c_net := w; c_stdin := c_stdin c |})
    | (OutOfFuel, w) => (Stuck, {| c_net := w; c_stdin := c_stdin c |})
    end.

(** [input(prompt)]. *)
Definition input : C pystr :=
  fun c =>
    match c_stdin c with
    | [] => (EndOfInput, c)
    | line :: rest => (Returned line, {| c_net := c_net c; c_stdin := rest |})
    end.

Definition stuck {A} : C A := fun c => (Stuck, c).

Definition get_console : C console := fun c => (Returned c, c).

Module client.
Import protocol.

Definition SERVER_PAYLOAD_SIZE : nat := 9.

Definition CLIENT_NAME : pystr := lit "BlackijeckyClient".

Definition card_value (rank : Z) : Z :=
  if rank =? 1 then 11
  else if rank >=? 11 then 10
  else rank.

Definition hand_value (hand : list (Z * Z)) : Z :=
  fold_left Z.add ((fun c : Z * Z => card_value c.1) <$> hand) 0.

Definition rank_to_name (rank : Z) : pystr :=
  if rank =? 1 then lit "Ace"
  else if rank =? 11 then lit "Jack"
  else if rank =? 12 then lit "Queen"
  else if rank =? 13 then lit "King"
  else str_of_int rank.

Definition suit_to_name (suit : Z) : pystr :=
  if suit =? 0 then lit "Hearts"
  else if suit =? 1 then lit "Diamonds"
  else if suit =? 2 then lit "Clubs"
  else if suit =? 3 then lit "Spades"
  else lit "Unknown".

(** [f"{rank_to_name(rank)} of {suit_to_name(suit)}"]. *)
Definition format_card (card : Z * Z) : pystr :=
  rank_to_name card.1 ++ lit " of " ++ suit_to_name card.2.

Definition format_hand (hand : list (Z * Z)) : pystr :=
  str_join (lit ", ") (format_card <$> hand).

(** ** The session of [main]: from the request to the close

    What [main] does between [tcp_sock.connect] and [tcp_sock.close]
    for the number of rounds its prompt has accepted. *)

(** [unpack_server_payload(recv_exact(tcp_sock, SERVER_PAYLOAD_SIZE))]. *)
Definition recv_event : C (Z * Z * Z) :=
  on_net (data ← recv_exact SERVER_PAYLOAD_SIZE;
          lift (unpack_server_payload data)).

(** The counters [wins], [losses] and [ties]. *)
Record tally : Type := { wins : Z; losses : Z; ties : Z }.

(** The player turn, [while True: ...].  Every turn of the loop takes a
    line of input, so one turn more than there are lines is enough.
    Returns [player_hand], [player_bust] and [losses]. *)
Fixpoint player_turn (fuel : nat) (player_hand : list (Z * Z)) (losses : Z)
  : C (list (Z * Z) * bool * Z) :=
  match fuel with
  | O => stuck
  | S fuel' =>
      line ← input;
      let decision := str_lower (str_strip line) in
      if negb (bool_decide (decision ∈ [lit "hit"; lit "stand"])) then
        player_turn fuel' player_hand losses
      else
        on_net (pkt ← lift (pack_client_payload decision); sock_sendall pkt);;
        if decide (decision = lit "stand") then
          mret (player_hand, false, losses)
        else
          '(result, rank, suit) ← recv_event;
          if result =? RESULT_NOT_OVER then
            let player_hand := player_hand ++ [(rank, suit)] in
            let total := hand_value player_hand in
            if total >? 21 then mret (player_hand, true, losses + 1)
            else player_turn fuel' player_hand losses
          else player_turn fuel' player_hand losses
  end.

(** The dealer stream, [while True: ...], up to the result of the round.
    Every turn of the loop takes 9 bytes from the socket, so one turn
    more than there are bytes to come is enough.  Returns [dealer_hand],
    the result received and the counters. *)
Fixpoint dealer_stream (fuel : nat) (dealer_hand : list (Z * Z))
    (player_bust : bool) (t : tally) : C (list (Z * Z) * Z * tally) :=
  match fuel with
  | O => stuck
  | S fuel' =>
      '(result, rank, suit) ← recv_event;
      if bool_decide (result ∈ [RESULT_WIN; RESULT_LOSS; RESULT_TIE]) then
        let t' :=
          if result =? RESULT_WIN then
            {| wins := wins t + 1; losses := losses t; ties := ties t |}
          else if result =? RESULT_LOSS then
            if negb player_bust then
              {| wins := wins t; losses := losses t + 1; ties := ties t |}
            else t
          else {| wins := wins t; losses := losses t; ties := ties t + 1 |}
        in
        mret (dealer_hand, result, t')
      else
        dealer_stream fuel' (dealer_hand ++ [(rank, suit)]) player_bust t
  end.

(** The local variables of a round of the client when it ends. *)
Record round_view : Type := {
  rv_player_hand : list (Z * Z);
  rv_dealer_hand : list (Z * Z);
  rv_player_bust : bool;
  rv_result : Z
}.

(** The body of [for r in range(1, rounds + 1)]. *)
Definition play_round (t : tally) : C (round_view * tally) :=
  '(_, rank1, suit1) ← recv_event;
  '(_, rank2, suit2) ← recv_event;
  let player_hand := [(rank1, suit1); (rank2, suit2)] in
  '(_, rank, suit) ← recv_event;
  let dealer_hand := [(rank, suit)] in
  c ← get_console;
  '(player_hand, player_bust, losses') ←
    player_turn (S (length (c_stdin c))) player_hand (losses t);
  let t := {| wins := wins t; losses := losses'; ties := ties t |} in
  c ← get_console;
  '(dealer_hand, result, t) ←
    dealer_stream (S (length (mjoin (sk_in (w_sock (c_net c))))))
      dealer_hand player_bust t;
  mret ({| rv_player_hand := player_hand;
           rv_dealer_hand := dealer_hand;
           rv_player_bust := player_bust;
           rv_result := result |}, t).

Fixpoint play_rounds (n : nat) (t : tally) : C (list round_view * tally) :=
  match n with
  | O => mret ([], t)
  | S n' =>
      '(v, t) ← play_round t;
      '(vs, t) ← play_rounds n' t;
      mret (v :: vs, t)
  end.

(** From [tcp_sock.sendall(pack_request(rounds, CLIENT_NAME))] to
    [tcp_sock.close()]; [range(1, rounds + 1)] has [rounds] items.  The
    views of the rounds are returned with the counters for the
    statements below. *)
Definition session (rounds : Z) : C (list round_view * tally) :=
  on_net (pkt ← lift (pack_request rounds CLIENT_NAME); sock_sendall pkt);;
  r ← play_rounds (Z.to_nat rounds) {| wins := 0; losses := 0; ties := 0 |};
  on_net sock_close;;
  mret r.

End client.

(** * Notions the statements are made of *)

Import protocol server.

(** The magic marker and the type tag of a message: its first four bytes
    and its fifth byte, read as big-endian integers. *)
Definition msg_cookie (data : bytes) : Z := be_decode (take 4 data).
Definition msg_type (data : bytes) : Z := be_decode (take 1 (drop 4 data)).


(** What a socket will still deliver: the segments up to the end of the
    stream, joined. *)
Fixpoint stream (segs : list bytes) : bytes :=
  match segs with
  | [] => []
  | [] :: _ => []
  | seg :: rest => seg ++ stream rest
  end.

Definition pending (w : world) : bytes := stream (sk_in (w_sock w)).

(** Nothing but the input side of the socket differs. *)
Definition same_but_input (w w' : world) : Prop :=
  sk_out (w_sock w') = sk_out (w_sock w)
  ∧ sk_closed (w_sock w') = sk_closed (w_sock w)
  ∧ w_rng w' = w_rng w.

(** The decision token and the rounds field of a message. *)
Definition msg_token (data : bytes) : bytes := take 5 (drop 5 data).
Definition msg_rounds (data : bytes) : Z := be_decode (take 1 (drop 5 data)).

(** The two errors of a decoder: for a buffer that is too short, and for
    a wrong magic marker or type tag. *)
Record decoder (A : Type) : Type := {
  dec_run : bytes -> result A;
  dec_size : nat;
  dec_type : Z;
  dec_short : exn;
  dec_invalid : exn
}.
Arguments dec_run {A}.
Arguments dec_size {A}.
Arguments dec_type {A}.
Arguments dec_short {A}.
Arguments dec_invalid {A}.

Definition offer_decoder : decoder (Z * pystr) :=
  {| dec_run := unpack_offer; dec_size := _OFFER_SIZE;
     dec_type := OFFER_TYPE;
     dec_short := ValueError "Offer packet too short";
     dec_invalid := ValueError "Invalid offer packet" |}.

Definition request_decoder : decoder (Z * pystr) :=
  {| dec_run := unpack_request; dec_size := _REQUEST_SIZE;
     dec_type := REQUEST_TYPE;
     dec_short := ValueError "Request packet too short";
     dec_invalid := ValueError "Invalid request packet" |}.

Definition client_payload_decoder : decoder pystr :=
  {| dec_run := unpack_client_payload; dec_size := _CLIENT_PAYLOAD_SIZE;
     dec_type := PAYLOAD_TYPE;
     dec_short := ValueError "Client payload too short";
     dec_invalid := ValueError "Invalid client payload" |}.

Definition server_payload_decoder : decoder (Z * Z * Z) :=
  {| dec_run := unpack_server_payload; dec_size := _SERVER_PAYLOAD_SIZE;
     dec_type := PAYLOAD_TYPE;
     dec_short := ValueError "Server payload too short";
     dec_invalid := ValueError "Invalid server payload" |}.

(** What the three checks of a decoder amount to. *)
Record three_checks {A} (d : decoder A) (data : bytes) : Prop := {
  chk_length :
    (length data < dec_size d)%nat -> dec_run d data = Raise (dec_short d);
  chk_magic :
    (dec_size d <= length data)%nat -> msg_cookie data <> MAGIC_COOKIE ->
    dec_run d data = Raise (dec_invalid d);
  chk_type :
    (dec_size d <= length data)%nat -> msg_cookie data = MAGIC_COOKIE ->
    msg_type data <> dec_type d ->
    dec_run d data = Raise (dec_invalid d);
  chk_distinct : dec_short d <> dec_invalid d;
  chk_pass :
    forall v, dec_run d data = Ok v ->
    (dec_size d <= length data)%nat
    ∧ msg_cookie data = MAGIC_COOKIE ∧ msg_type data = dec_type d
}.

(** A decoder takes a buffer that is longer than its message for the
    message itself, and answers "too short" to the shorter ones only. *)
Definition accepts_longer {A} (d : decoder A) : Prop :=
  (forall msg extra, length msg = dec_size d ->
     dec_run d (msg ++ extra) = dec_run d msg)
  ∧ (forall msg extra v, length msg = dec_size d ->
     dec_run d msg = Ok v -> dec_run d (msg ++ extra) = Ok v)
  ∧ (forall data,
     dec_run d data = Raise (dec_short d) <-> (length data < dec_size d)%nat).

(** A message of a decoder: a buffer of exactly the size of the message
    that carries the magic marker and the type tag of the decoder. *)
Definition is_message {A} (d : decoder A) (msg : bytes) : Prop :=
  length msg = dec_size d
  ∧ msg_cookie msg = MAGIC_COOKIE
  ∧ msg_type msg = dec_type d.

(** A Request whose magic marker and type tag are right. *)
Definition request_bytes (rounds : Z) (name : bytes) : bytes :=
  be_encode 4 MAGIC_COOKIE ++ be_encode 1 REQUEST_TYPE
    ++ be_encode 1 rounds ++ name.

(** Server Events that fail one check each: the first has a wrong magic
    marker and the right type tag, the second the right magic marker and
    a wrong type tag. *)
Definition event_bad_magic : bytes :=
  be_encode 4 0 ++ be_encode 1 PAYLOAD_TYPE ++ be_encode 4 0.
Definition event_bad_type : bytes :=
  be_encode 4 MAGIC_COOKIE ++ be_encode 1 REQUEST_TYPE ++ be_encode 4 0.

(** The sum of the card values of a hand, card by card: an Ace is 11
    wherever it stands. *)
Fixpoint sum_card_values (hand : list card) : Z :=
  match hand with
  | [] => 0
  | (rank, _) :: hand' => card_value rank + sum_card_values hand'
  end.

(** The 52 cards, in the order in which [Deck.__init__] lists them
    before it shuffles. *)
Definition all_cards : list card :=
  suit ← SUITS; rank ← RANKS; [(rank, suit)].

(** [n] draws in a row: the cards drawn, first drawn first, and the deck
    that is left. *)
Fixpoint draw_many (n : nat) (d : Deck) : result (list card * Deck) :=
  match n with
  | O => Ok ([], d)
  | S n' =>
      match Deck_draw d with
      | Ok (c, d') =>
          match draw_many n' d' with
          | Ok (cs, d'') => Ok (c :: cs, d'')
          | Raise e => Raise e
          | OutOfFuel => OutOfFuel
          end
      | Raise e => Raise e
      | OutOfFuel => OutOfFuel
      end
  end.

(** A card of the pack. *)
Definition valid_card (c : card) : Prop := 1 <= c.1 <= 13 ∧ 0 <= c.2 <= 3.

(** The exceptions a misbehaving peer can cause: a stream that ends too
    early and a message that does not decode. *)
Definition peer_error (e : exn) : Prop :=
  (exists msg, e = ConnectionError msg) ∨ (exists msg, e = ValueError msg).

(** The Server Event that carries a card: the result code is "not over". *)
Definition card_event (c : card) : Z * Z * Z := (RESULT_NOT_OVER, c.1, c.2).

(** Between [w] and [w'] the server has sent the events [evs], in this
    order, one [sendall] each, and nothing else. *)
Definition emits (w w' : world) (evs : list (Z * Z * Z)) : Prop :=
  exists pkts,
    sk_out (w_sock w') = sk_out (w_sock w) ++ pkts
    ∧ unpack_server_payload <$> pkts = Ok <$> evs.

(** Enough valid cards for the player turn never to run out. *)
Definition player_ok (deck : Deck) (hand : list card) : Prop :=
  Forall valid_card (cards deck) ∧ Forall valid_card hand
  ∧ (length hand <= 10)%nat
  ∧ (12 <= length (cards deck) + length hand)%nat.

(** Enough valid cards for the dealer turn never to run out. *)
Definition dealer_ok (deck : Deck) (hand : list card) : Prop :=
  Forall valid_card (cards deck) ∧ Forall valid_card hand
  ∧ (9 <= length (cards deck) + length hand)%nat.

(** What a round that ends leaves behind: the two hands, with the cards
    dealt at the start and those drawn in the two turns, the events sent
    and the conditions under which the two loops were left. *)
Record round_shape (w w' : world) (re : round_end)
    (p1 p2 d1 d2 : card) (hits draws : list card) : Prop := {
  rs_player : re_player_hand re = [p1; p2] ++ hits;
  rs_dealer : re_dealer_hand re = [d1; d2] ++ draws;
  rs_valid : Forall valid_card ([p1; p2; d1; d2] ++ hits ++ draws);
  rs_events :
    emits w w'
      ((card_event <$> [p1; p2; d1] ++ hits ++ [d2] ++ draws)
         ++ [(re_result re, 0, 0)]);
  rs_bust :
    re_player_bust re = true
    <-> hits <> [] ∧ hand_value (re_player_hand re) > 21;
  rs_hits_before :
    forall k, (0 < k < length hits)%nat ->
      hand_value ([p1; p2] ++ take k hits) <= 21;
  rs_no_dealer_turn : re_player_bust re = true -> draws = [];
  rs_dealer_stops :
    re_player_bust re = false -> 17 <= hand_value (re_dealer_hand re);
  rs_dealer_before :
    forall k, (k < length draws)%nat ->
      hand_value ([d1; d2] ++ take k draws) < 17;
  rs_result :
    re_result re
    = decide_result (re_player_bust re) (hand_value (re_dealer_hand re))
        (hand_value (re_player_hand re))
}.

(** A terminal event: its result code is not "not over". *)
Definition is_terminal (ev : Z * Z * Z) : bool :=
  negb (ev.1.1 =? RESULT_NOT_OVER).

(** A Unicode scalar value: a code point that is not a surrogate. *)
Definition is_scalar (c : Z) : Prop :=
  0 <= c <= 0x10FFFF ∧ is_surrogate c = false.

(** The longest prefix of [s] whose UTF-8 encoding fits in [budget]
    bytes. *)
Fixpoint fit (budget : nat) (s : pystr) : pystr :=
  match s with
  | [] => []
  | c :: s' =>
      let n := length (utf8_encode_cp c) in
      if (n <=? budget)%nat then c :: fit (budget - n) s' else []
  end.

(** What [encode] keeps of a string: all but the surrogates. *)
Definition drop_surrogates (s : pystr) : pystr :=
  filter (fun c => is_surrogate c = false) s.

(** What precedes the first NUL character of a string. *)
Fixpoint before_nul (s : pystr) : pystr :=
  match s with
  | [] => []
  | c :: s' => if c =? 0 then [] else c :: before_nul s'
  end.

(** The name "a", NUL, "b". *)
Definition name_with_nul : pystr := [97; 0; 98].

(** Thirty-one "a" and one "e" with an acute accent: 33 bytes of UTF-8. *)
Definition name_cut : pystr := replicate 31 97 ++ [233].

(** The packet an encoder has made. *)
Definition packed (r : result bytes) : bytes :=
  match r with
  | Ok pkt => pkt
  | _ => []
  end.

(** The Client Decision that carries "Stand". *)
Definition stand_packet : bytes :=
  be_encode 4 MAGIC_COOKIE ++ be_encode 1 PAYLOAD_TYPE ++ DECISION_STAND.

(** The Client Decision that carries "Hit". *)
Definition hit_packet : bytes :=
  be_encode 4 MAGIC_COOKIE ++ be_encode 1 PAYLOAD_TYPE ++ DECISION_HIT.

(** A world to run examples in: nothing sent yet, the socket open, the
    given segments to come and a fixed run of raw random numbers. *)
Definition sample_rng : list nat :=
  [3; 1; 4; 1; 5; 9; 2; 6; 5; 3; 5; 8; 9; 7; 9; 3; 2; 3; 8; 4; 6; 2; 6; 4;
   3; 3; 8; 3; 2; 7; 9; 5; 0; 2; 8; 8; 4; 1; 9; 7; 1; 6; 9; 3; 9; 9; 3; 7;
   5; 1; 0]%nat.

Definition sample_world (segs : list bytes) : world :=
  {| w_sock := {| sk_in := segs; sk_out := []; sk_closed := false |};
     w_rng := sample_rng |}.

(** The round played in [sample_world [hit_packet; stand_packet]]. *)
Definition sample_round : round_end :=
  {| re_player_hand := [(4, 0); (2, 0); (6, 0)];
     re_dealer_hand := [(5, 0); (12, 3); (10, 0)];
     re_player_bust := false;
     re_result := 3 |}.

#[global] Instance is_scalar_dec c : Decision (is_scalar c).
Proof. unfold is_scalar. apply _. Defined.


(** The outcome of a decoder: a value or a [ValueError]. *)
Definition value_or_value_error {A} (r : result A) : Prop :=
  (exists v, r = Ok v) ∨ (exists msg, r = Raise (ValueError msg)).

(** The events of a round, read off the hands it ends with: the player's
    two cards, the dealer's first card, the cards the player drew, the
    dealer's hidden card, the cards the dealer drew, and the result. *)
Definition round_events (re : round_end) : list (Z * Z * Z) :=
  (card_event
     <$> take 2 (re_player_hand re) ++ take 1 (re_dealer_hand re)
         ++ drop 2 (re_player_hand re) ++ drop 1 (re_dealer_hand re))
    ++ [(re_result re, 0, 0)].

(** Raw random numbers that leave the two red Aces on top of the deck. *)
Definition aces_rng : list nat := [0; 13]%nat ++ reverse (seq 1 49).

(** Between [w] and [w'] the server has only added packets of 9 bytes to
    what it has sent. *)
Definition sends_events (w w' : world) : Prop :=
  exists pkts,
    sk_out (w_sock w') = sk_out (w_sock w) ++ pkts
    ∧ Forall (fun p => length p = 9%nat) pkts.

(** What the client makes of a line typed at its prompt,
    [input(...).strip().lower()], and the two decisions it accepts. *)
Definition typed_decision (line : pystr) : pystr :=
  str_lower (str_strip line).

Definition valid_decisions : list pystr := [lit "hit"; lit "stand"].

(** The decisions among the lines typed: the lines the client does not
    answer with "Invalid input", in the form it sends them. *)
Definition decisions (lines : list pystr) : list pystr :=
  filter (fun d => d ∈ valid_decisions) (typed_decision <$> lines).

(** The Client Decision the client sends for a decision. *)
Definition decision_packet (d : pystr) : bytes :=
  packed (pack_client_payload d).

(** The decisions on which the server has acted in a round, read off its
    end: a "hit" for every card the player drew, and a "stand" unless the
    last of them made the player bust. *)
Definition round_script (re : round_end) : list pystr :=
  replicate (length (re_player_hand re) - 2) (lit "hit")
    ++ (if re_player_bust re then [] else [lit "stand"]).

(** The round of the server as the client should see it. *)
Definition view_of (re : round_end) : client.round_view :=
  {| client.rv_player_hand := re_player_hand re;
     client.rv_dealer_hand := re_dealer_hand re;
     client.rv_player_bust := re_player_bust re;
     client.rv_result := re_result re |}.

(** The counters of the client after one more round with the given
    result. *)
Definition score (t : client.tally) (res : Z) : client.tally :=
  {| client.wins := client.wins t + (if res =? RESULT_WIN then 1 else 0);
     client.losses := client.losses t + (if res =? RESULT_LOSS then 1 else 0);
     client.ties := client.ties t + (if res =? RESULT_TIE then 1 else 0) |}.

(** The number of rounds that ended with the given result. *)
Definition count_result (res : Z) (played : list round_end) : Z :=
  Z.of_nat (length (filter (fun re => re_result re = res) played)).

(** The decisions on which the server has acted in the rounds of a
    session. *)
Definition session_script (played : list round_end) : list pystr :=
  mjoin (round_script <$> played).

(** The counters of the client after the rounds [played], from [t]. *)
Definition tally_after (t : client.tally) (played : list round_end)
  : client.tally :=
  {| client.wins := client.wins t + count_result RESULT_WIN played;
     client.losses := client.losses t + count_result RESULT_LOSS played;
     client.ties := client.ties t + count_result RESULT_TIE played |}.

(** A console to run the client in: the socket open, nothing sent yet,
    the given segments to come and the given lines typed. *)
Definition sample_console (segs : list bytes) (lines : list pystr)
  : console :=
  {| c_net := {| w_sock := {| sk_in := segs; sk_out := [];
                             sk_closed := false |};
                 w_rng := [] |};
     c_stdin := lines |}.

(** Four lines typed at the prompt: they hold the decisions "hit",
    "stand", "stand". *)
Definition sample_lines : list pystr :=
  [lit "  HIT "; lit "what"; lit "stand"; lit "Stand"].

(** The server on the Request of the client for two rounds and on the
    decisions of [sample_lines]. *)
Definition sample_session : result (list round_end) * world :=
  handle_client
    (sample_world
       [packed (pack_request 2 client.CLIENT_NAME);
        mjoin (decision_packet <$> decisions sample_lines)]).

(** The counters of the client before the first round. *)
Definition no_rounds : client.tally :=
  {| client.wins := 0; client.losses := 0; client.ties := 0 |}.

(** How a step of the client can end: it has not closed the socket, it
    has not stopped for lack of fuel, an exception is one a peer can
    cause, and the input has ended only when no line is left. *)
Definition client_ok {A} (c : console) (r : outcome A * console) : Prop :=
  sk_closed (w_sock (c_net r.2)) = sk_closed (w_sock (c_net c))
  ∧ match r.1 with
    | Returned _ => True
    | Raised e => peer_error e
    | EndOfInput => c_stdin r.2 = []
    | Stuck => False
    end.








(** What a step of the client has read of its input between [c] and
    [c']: the lines [lines], which were the first of the lines to come;
    the last line read, if any, is a decision. *)
Definition has_read (c c' : console) (lines : list pystr) : Prop :=
  c_stdin c = lines ++ c_stdin c'
  ∧ forall l, last lines = Some l -> typed_decision l ∈ valid_decisions.

(** * Properties *)

(** ** Bytes and big-endian integers *)

Lemma b2z_range b : 0 <= b2z b < 256.
Proof.
  unfold b2z. pose proof (Byte.to_N_bounded b). lia.
Qed.

Lemma b2z_z2b z : 0 <= z < 256 -> b2z (z2b z) = z.
Proof.
  intros Hz. unfold b2z, z2b.
  destruct (Byte.of_N (Z.to_N z)) as [b|] eqn:E.
  - apply Byte.to_of_N in E. rewrite E. lia.
  - apply Byte.of_N_None_iff in E. lia.
Qed.

Lemma z2b_b2z b : z2b (b2z b) = b.
Proof.
  unfold b2z, z2b. rewrite N2Z.id, Byte.of_to_N. reflexivity.
Qed.

Lemma b2z_inj b1 b2 : b2z b1 = b2z b2 -> b1 = b2.
Proof.
  intros H. rewrite <- (z2b_b2z b1), <- (z2b_b2z b2). by rewrite H.
Qed.

Lemma length_be_encode n z : length (be_encode n z) = n.
Proof. induction n; simpl; auto. Qed.

Lemma be_decode_snoc bs b : be_decode (bs ++ [b]) = be_decode bs * 256 + b2z b.
Proof. unfold be_decode. rewrite fold_left_app. reflexivity. Qed.

Lemma be_decode_cons_acc bs : forall acc,
  fold_left (fun acc b => acc * 256 + b2z b) bs acc
  = acc * 256 ^ Z.of_nat (length bs) + be_decode bs.
Proof.
  unfold be_decode.
  induction bs as [|b bs IH]; intros acc.
  - simpl. lia.
  - cbn [fold_left length]. rewrite IH, (IH (0 * 256 + b2z b)).
    rewrite Nat2Z.inj_succ, Z.pow_succ_r by lia. lia.
Qed.

Lemma be_decode_cons b bs :
  be_decode (b :: bs) = b2z b * 256 ^ Z.of_nat (length bs) + be_decode bs.
Proof.
  unfold be_decode at 1. cbn [fold_left]. rewrite be_decode_cons_acc. lia.
Qed.

Lemma be_decode_encode_mod n z :
  be_decode (be_encode n z) = z mod 256 ^ Z.of_nat n.
Proof.
  induction n as [|n IH].
  - simpl. unfold be_decode. simpl. by rewrite Z.mod_1_r.
  - cbn [be_encode]. rewrite be_decode_cons, length_be_encode, IH.
    assert (Hp : 0 < 256 ^ Z.of_nat n) by (apply Z.pow_pos_nonneg; lia).
    rewrite b2z_z2b by (apply Z.mod_pos_bound; lia).
    rewrite Nat2Z.inj_succ, Z.pow_succ_r by lia.
    rewrite (Z.mul_comm 256), Z.rem_mul_r by lia. lia.
Qed.

Lemma be_decode_encode n z :
  0 <= z < 256 ^ Z.of_nat n -> be_decode (be_encode n z) = z.
Proof.
  intros Hz. rewrite be_decode_encode_mod. by apply Z.mod_small.
Qed.

Lemma be_decode_range bs : 0 <= be_decode bs < 256 ^ Z.of_nat (length bs).
Proof.
  induction bs as [|b bs IH] using rev_ind.
  - unfold be_decode. simpl. lia.
  - rewrite be_decode_snoc, length_app. cbn [length].
    replace (Z.of_nat (length bs + 1)) with (Z.succ (Z.of_nat (length bs))) by lia.
    rewrite Z.pow_succ_r by lia. pose proof (b2z_range b). lia.
Qed.

Lemma be_decode_single b : be_decode [b] = b2z b.
Proof. unfold be_decode. simpl. lia. Qed.

(** ** [struct] *)

Lemma length_pack_field c v bs :
  pack_field c v = Some bs -> length bs = fmt_size c.
Proof.
  destruct c, v; cbn [pack_field fmt_size]; try discriminate;
    try (destruct (decide _); [|discriminate]; by intros [= <-]).
  intros [= <-]. rewrite length_app, length_take, length_replicate. lia.
Qed.

Lemma length_struct_pack fmt : forall vs bs,
  struct_pack fmt vs = Some bs -> length bs = calcsize fmt.
Proof.
  induction fmt as [|c fmt IH]; intros [|v vs] bs; simpl; try discriminate.
  - by intros [= <-].
  - destruct (pack_field c v) as [b|] eqn:Eb; [|discriminate].
    destruct (struct_pack fmt vs) as [bs'|] eqn:Ebs; [|discriminate].
    intros [= <-]. rewrite length_app.
    erewrite length_pack_field, IH by eauto. reflexivity.
Qed.

Lemma unpack_fields_take fmt : forall n data,
  (calcsize fmt <= n)%nat ->
  unpack_fields fmt (take n data) = unpack_fields fmt data.
Proof.
  induction fmt as [|c fmt IH]; intros n data Hn; [done|].
  cbn [calcsize foldr] in Hn. fold (calcsize fmt) in Hn.
  cbn [unpack_fields]. rewrite take_take.
  replace (fmt_size c `min` n)%nat with (fmt_size c) by lia.
  rewrite skipn_firstn_comm. rewrite IH by lia. reflexivity.
Qed.

Lemma struct_unpack_take fmt data :
  (calcsize fmt <= length data)%nat ->
  struct_unpack fmt (take (calcsize fmt) data) = Some (unpack_fields fmt data).
Proof.
  intros Hlen. unfold struct_unpack.
  rewrite decide_True by (rewrite length_take; lia).
  by rewrite unpack_fields_take.
Qed.

Lemma unpack_fields_app c fmt f rest :
  length f = fmt_size c ->
  unpack_fields (c :: fmt) (f ++ rest) = unpack_field c f :: unpack_fields fmt rest.
Proof.
  intros Hf. cbn [unpack_fields].
  by rewrite <- Hf, take_app_length, drop_app_length.
Qed.

(** ** The four decoders on a buffer that is long enough *)

Ltac unpack_long H :=
  match goal with
  | |- context [(length ?d <? ?n)%nat] =>
      replace (length d <? n)%nat with false
        by (symmetry; apply Nat.ltb_ge; exact H)
  end;
  rewrite struct_unpack_take by exact H;
  unfold _OFFER_FMT, _REQUEST_FMT, _CLIENT_PAYLOAD_FMT, _SERVER_PAYLOAD_FMT;
  cbn [unpack_fields unpack_field fmt_size];
  rewrite ?drop_drop; cbn [Nat.add].

Lemma unpack_server_payload_long data :
  (_SERVER_PAYLOAD_SIZE <= length data)%nat ->
  unpack_server_payload data =
    if negb (msg_cookie data =? MAGIC_COOKIE) || negb (msg_type data =? PAYLOAD_TYPE)
    then Raise (ValueError "Invalid server payload")
    else Ok (be_decode (take 1 (drop 5 data)), be_decode (take 2 (drop 6 data)),
             be_decode (take 1 (drop 8 data))).
Proof.
  intros H. unfold unpack_server_payload. unpack_long H.
  reflexivity.
Qed.

Lemma unpack_client_payload_long data :
  (_CLIENT_PAYLOAD_SIZE <= length data)%nat ->
  unpack_client_payload data =
    if negb (msg_cookie data =? MAGIC_COOKIE) || negb (msg_type data =? PAYLOAD_TYPE)
    then Raise (ValueError "Invalid client payload")
    else
      let decision := rstrip x00 (take 5 (drop 5 data)) in
      if decide (decision = DECISION_HIT) then Ok (lit "Hit")
      else if decide (decision = DECISION_STAND) then Ok (lit "Stand")
      else Raise (ValueError "Unknown decision").
Proof.
  intros H. unfold unpack_client_payload. unpack_long H.
  reflexivity.
Qed.

Lemma unpack_request_long data :
  (_REQUEST_SIZE <= length data)%nat ->
  unpack_request data =
    if negb (msg_cookie data =? MAGIC_COOKIE) || negb (msg_type data =? REQUEST_TYPE)
    then Raise (ValueError "Invalid request packet")
    else Ok (be_decode (take 1 (drop 5 data)),
             decode_team_name (take 32 (drop 6 data))).
Proof.
  intros H. unfold unpack_request. unpack_long H.
  reflexivity.
Qed.

Lemma unpack_offer_long data :
  (_OFFER_SIZE <= length data)%nat ->
  unpack_offer data =
    if negb (msg_cookie data =? MAGIC_COOKIE) || negb (msg_type data =? OFFER_TYPE)
    then Raise (ValueError "Invalid offer packet")
    else Ok (be_decode (take 2 (drop 5 data)),
             decode_team_name (take 32 (drop 7 data))).
Proof.
  intros H. unfold unpack_offer. unpack_long H.
  reflexivity.
Qed.

(** ** Receiving from the socket *)

Lemma same_but_input_refl w : same_but_input w w.
Proof. by repeat split. Qed.

Lemma same_but_input_trans w1 w2 w3 :
  same_but_input w1 w2 -> same_but_input w2 w3 -> same_but_input w1 w3.
Proof. unfold same_but_input. intuition congruence. Qed.

Lemma sock_recv_spec k w :
  (0 < k)%nat ->
  exists chunk w',
    sock_recv k w = (Ok chunk, w')
    ∧ pending w = chunk ++ pending w'
    ∧ (length chunk <= k)%nat
    ∧ (chunk = [] -> pending w = [])
    ∧ same_but_input w w'.
Proof.
  intros Hk. unfold sock_recv, pending.
  destruct w as [[segs out cl] rng]. cbn [w_sock sk_in sk_out sk_closed w_rng].
  destruct segs as [|[|b seg] rest].
  - exists [], {| w_sock := {| sk_in := []; sk_out := out; sk_closed := cl |}; w_rng := rng |}.
    repeat split; simpl; auto with lia.
  - exists [], {| w_sock := {| sk_in := [] :: rest; sk_out := out; sk_closed := cl |}; w_rng := rng |}.
    repeat split; simpl; auto with lia.
  - eexists _, _. split; [reflexivity|].
    cbn [w_sock sk_in sk_out sk_closed w_rng].
    split; [|split; [|split; [|by repeat split]]].
    + change (stream ((b :: seg) :: rest)) with ((b :: seg) ++ stream rest).
      rewrite <- (take_drop k (b :: seg)) at 1. rewrite <- app_assoc. f_equal.
      by destruct (drop k (b :: seg)).
    + rewrite length_take. lia.
    + destruct k; [lia|]. discriminate.
Qed.

Lemma recv_exact_loop_spec n : forall fuel data w,
  (n - length data <= fuel)%nat ->
  exists w',
    same_but_input w w'
    ∧ if decide (n - length data <= length (pending w))%nat
      then recv_exact_loop fuel n data w
             = (Ok (data ++ take (n - length data) (pending w)), w')
           ∧ pending w' = drop (n - length data) (pending w)
      else recv_exact_loop fuel n data w
             = (Raise (ConnectionError "Socket closed while receiving data"), w').
Proof.
  induction fuel as [|fuel IH]; intros data w Hfuel.
  - exists w. split; [apply same_but_input_refl|].
    rewrite decide_True by lia.
    replace (n - length data)%nat with O by lia.
    cbn [recv_exact_loop take drop].
    replace (length data <? n)%nat with false by (symmetry; apply Nat.ltb_ge; lia).
    by rewrite app_nil_r.
  - cbn [recv_exact_loop].
    destruct (length data <? n)%nat eqn:Elt.
    + apply Nat.ltb_lt in Elt.
      destruct (sock_recv_spec (n - length data) w) as (chunk & w1 & Hrecv & Hpend & Hlen & Hnil & Hsame); [lia|].
      unfold mbind, M_bind, bind. rewrite Hrecv.
      destruct chunk as [|c chunk].
      * exists w1. split; [done|].
        rewrite Hnil by done. rewrite decide_False by (simpl; lia). done.
      * destruct (IH (data ++ c :: chunk) w1) as (w2 & Hsame2 & Hres).
        { rewrite length_app. simpl in *. lia. }
        exists w2. split; [by eapply same_but_input_trans|].
        rewrite Hpend. rewrite length_app in *.
        set (ch := c :: chunk) in *.
        assert (0 < length ch)%nat by (subst ch; simpl; lia).
        destruct (decide (n - (length data + length ch) <= length (pending w1))%nat).
        -- rewrite decide_True by lia.
           destruct Hres as [-> ->]. split.
           ++ f_equal. f_equal. rewrite <- app_assoc. f_equal.
              rewrite take_app_ge by lia. f_equal. f_equal. lia.
           ++ rewrite drop_app_ge by lia. f_equal. lia.
        -- rewrite decide_False by lia. done.
    + apply Nat.ltb_ge in Elt. exists w. split; [apply same_but_input_refl|].
      rewrite decide_True by lia.
      replace (n - length data)%nat with O by lia.
      cbn [take drop]. by rewrite app_nil_r.
Qed.

Lemma recv_exact_spec n w :
  exists w',
    same_but_input w w'
    ∧ if decide (n <= length (pending w))%nat
      then recv_exact n w = (Ok (take n (pending w)), w')
           ∧ pending w' = drop n (pending w)
      else recv_exact n w
             = (Raise (ConnectionError "Socket closed while receiving data"), w').
Proof.
  destruct (recv_exact_loop_spec n n [] w) as (w' & Hs & H); [simpl; lia|].
  exists w'. split; [done|].
  cbn [length] in H. rewrite Nat.sub_0_r in H. exact H.
Qed.

(** ** Encoders *)

Lemma length_encode_team_name name :
  length (encode_team_name name) = TEAM_NAME_LEN.
Proof.
  unfold encode_team_name, ljust.
  destruct (TEAM_NAME_LEN <? length (str_encode_ignore name))%nat eqn:E.
  - apply Nat.ltb_lt in E. rewrite length_take. lia.
  - apply Nat.ltb_ge in E. rewrite length_app, length_replicate. lia.
Qed.

Lemma pack_field_int c z :
  (forall n, c <> FmtS n) ->
  0 <= z < 256 ^ Z.of_nat (fmt_size c) ->
  pack_field c (VInt z) = Some (be_encode (fmt_size c) z).
Proof.
  intros Hc Hz. destruct c; cbn [pack_field]; try by rewrite decide_True.
  by destruct (Hc n).
Qed.

Lemma pack_field_bytes n bs :
  length bs = n -> pack_field (FmtS n) (VBytes bs) = Some bs.
Proof.
  intros <-. cbn [pack_field].
  by rewrite firstn_all, Nat.sub_diag, app_nil_r.
Qed.

Ltac pack_side :=
  first [ done
        | cbn; unfold MAGIC_COOKIE, OFFER_TYPE, REQUEST_TYPE, PAYLOAD_TYPE; lia ].

Lemma pack_request_layout rounds client_name :
  0 <= rounds < 256 ->
  pack_request rounds client_name
  = Ok (be_encode 4 MAGIC_COOKIE ++ be_encode 1 REQUEST_TYPE
          ++ be_encode 1 rounds ++ encode_team_name client_name).
Proof.
  intros Hr. unfold pack_request, _REQUEST_FMT. cbn [struct_pack].
  rewrite !pack_field_int by pack_side.
  rewrite pack_field_bytes by apply length_encode_team_name.
  by rewrite app_nil_r.
Qed.

Lemma pack_offer_layout tcp_port server_name :
  0 <= tcp_port < 65536 ->
  pack_offer tcp_port server_name
  = Ok (be_encode 4 MAGIC_COOKIE ++ be_encode 1 OFFER_TYPE
          ++ be_encode 2 tcp_port ++ encode_team_name server_name).
Proof.
  intros Hr. unfold pack_offer, _OFFER_FMT. cbn [struct_pack].
  rewrite !pack_field_int by pack_side.
  rewrite pack_field_bytes by apply length_encode_team_name.
  by rewrite app_nil_r.
Qed.

Lemma pack_server_payload_layout res rank suit :
  0 <= res < 256 -> 0 <= rank < 65536 -> 0 <= suit < 256 ->
  pack_server_payload res rank suit
  = Ok (be_encode 4 MAGIC_COOKIE ++ be_encode 1 PAYLOAD_TYPE
          ++ be_encode 1 res ++ be_encode 2 rank ++ be_encode 1 suit).
Proof.
  intros Hr Hk Hs. unfold pack_server_payload, _SERVER_PAYLOAD_FMT.
  cbn [struct_pack].
  rewrite !pack_field_int by pack_side.
  by rewrite ?app_nil_r.
Qed.

Lemma pack_client_payload_layout decision :
  pack_client_payload decision
  = if decide (str_lower decision = lit "hit")
    then Ok (be_encode 4 MAGIC_COOKIE ++ be_encode 1 PAYLOAD_TYPE ++ DECISION_HIT)
    else if decide (str_lower decision = lit "stand")
    then Ok (be_encode 4 MAGIC_COOKIE ++ be_encode 1 PAYLOAD_TYPE ++ DECISION_STAND)
    else Raise (ValueError "Invalid decision").
Proof.
  unfold pack_client_payload.
  destruct (decide (str_lower decision = lit "hit")); [reflexivity|].
  destruct (decide (str_lower decision = lit "stand")); reflexivity.
Qed.


(** ** Stripping *)

Lemma rstrip_prefix c bs :
  exists k, bs = rstrip c bs ++ replicate k c.
Proof.
  induction bs as [|b bs [k IH]].
  - by exists O.
  - cbn [rstrip]. destruct (rstrip c bs) as [|b' r] eqn:E.
    + destruct (decide (b = c)) as [->|].
      * exists (S k). simpl. by rewrite IH at 1.
      * exists k. simpl. by rewrite IH at 1.
    + exists k. rewrite IH at 1. reflexivity.
Qed.

Lemma rstrip_same_length c bs :
  length (rstrip c bs) = length bs -> rstrip c bs = bs.
Proof.
  intros Hlen. destruct (rstrip_prefix c bs) as [k Hk].
  rewrite Hk in Hlen at 2. rewrite length_app, length_replicate in Hlen.
  assert (k = O) as -> by lia. simpl in Hk. by rewrite app_nil_r in Hk.
Qed.

Lemma rstrip_eq_full c bs pat :
  length bs = length pat -> rstrip c pat = pat ->
  rstrip c bs = pat <-> bs = pat.
Proof.
  intros Hlen Hpat. split.
  - intros H. rewrite <- H. symmetry. apply rstrip_same_length. by rewrite H.
  - by intros ->.
Qed.

(** ** The three checks of a decoder *)

Lemma unpack_short_ltb (n m : nat) : (n < m)%nat -> (n <? m)%nat = true.
Proof. apply Nat.ltb_lt. Qed.

Ltac dec_simpl :=
  cbn [dec_run dec_size dec_type dec_short dec_invalid offer_decoder
       request_decoder client_payload_decoder server_payload_decoder].

Ltac dec_simpl_in H :=
  cbn [dec_run dec_size dec_type dec_short dec_invalid offer_decoder
       request_decoder client_payload_decoder server_payload_decoder] in H.

Ltac decoder_checks long_lemma :=
  let data := fresh "data" in
  intros data; split; dec_simpl;
  [ intros Hlen;
    unfold unpack_offer, unpack_request, unpack_client_payload,
      unpack_server_payload;
    by rewrite (unpack_short_ltb _ _ Hlen)
  | intros Hlen Hc; rewrite long_lemma by done;
    by rewrite (proj2 (Z.eqb_neq _ _) Hc)
  | intros Hlen Hc Ht; rewrite long_lemma by done;
    by rewrite (proj2 (Z.eqb_neq _ _) Ht), orb_true_r
  | discriminate
  | intros v Hv;
    match goal with
    | |- (?n <= _)%nat ∧ _ ∧ _ = ?t =>
        destruct (decide (n <= length data)%nat) as [Hlen|Hlen];
        [ rewrite long_lemma in Hv by done;
          destruct (Z.eqb_spec (msg_cookie data) MAGIC_COOKIE);
          [ destruct (Z.eqb_spec (msg_type data) t) as [?|Hne];
            [done|by rewrite orb_true_r in Hv]
          | done ]
        | exfalso; revert Hv;
      unfold unpack_offer, unpack_request, unpack_client_payload,
        unpack_server_payload;
          by rewrite unpack_short_ltb by lia ]
    end ].

Lemma offer_checks : forall data, three_checks offer_decoder data.
Proof. decoder_checks unpack_offer_long. Qed.

Lemma request_checks : forall data, three_checks request_decoder data.
Proof. decoder_checks unpack_request_long. Qed.

Lemma client_payload_checks :
  forall data, three_checks client_payload_decoder data.
Proof. decoder_checks unpack_client_payload_long. Qed.

Lemma server_payload_checks :
  forall data, three_checks server_payload_decoder data.
Proof. decoder_checks unpack_server_payload_long. Qed.

(** C5 (as amended). Every decoder checks the length first, then the
    magic marker, then the type tag.  A buffer that is too short gets the
    "too short" error whatever it holds; a wrong magic marker gets the
    "invalid" error whatever the type tag is; a wrong type tag behind the
    right magic marker gets that same "invalid" error.  The two errors
    differ, and a decoder that returns a value has passed all three
    checks: a message that fails one is rejected as a whole. *)
Theorem decode_checks_in_order (data : bytes) :
  three_checks offer_decoder data
  ∧ three_checks request_decoder data
  ∧ three_checks client_payload_decoder data
  ∧ three_checks server_payload_decoder data.
Proof.
  split; [apply offer_checks|].
  split; [apply request_checks|].
  split; [apply client_payload_checks|apply server_payload_checks].
Qed.

(** C5 (as stated) fails: the magic check and the type check do not have
    an error each.  A Server Event with a wrong magic marker and one with
    a wrong type tag raise the very same exception. *)
Lemma magic_and_type_share_one_error :
  msg_cookie event_bad_magic <> MAGIC_COOKIE
  ∧ msg_type event_bad_magic = PAYLOAD_TYPE
  ∧ msg_cookie event_bad_type = MAGIC_COOKIE
  ∧ msg_type event_bad_type <> PAYLOAD_TYPE
  ∧ unpack_server_payload event_bad_magic
    = Raise (ValueError "Invalid server payload")
  ∧ unpack_server_payload event_bad_type
    = Raise (ValueError "Invalid server payload").
Proof. by vm_compute. Qed.

Lemma decoder_accepts_longer {A} (d : decoder A) :
  (forall data, three_checks d data) ->
  (forall data, (dec_size d <= length data)%nat ->
     dec_run d data = dec_run d (take (dec_size d) data)) ->
  (forall data, (dec_size d <= length data)%nat ->
     dec_run d data <> Raise (dec_short d)) ->
  accepts_longer d.
Proof.
  intros Hchk Htake Hnot. split; [|split].
  - intros msg extra Hlen.
    rewrite Htake by (rewrite length_app; lia).
    by rewrite <- Hlen, take_app_length.
  - intros msg extra v Hlen Hv.
    rewrite Htake by (rewrite length_app; lia).
    by rewrite <- Hlen, take_app_length.
  - intros data. split.
    + intros Hshort.
      destruct (decide (length data < dec_size d)%nat); [done|].
      exfalso. apply (Hnot data); [lia|done].
    + apply (chk_length _ _ (Hchk data)).
Qed.

Ltac unpack_at_size :=
  intros data; dec_simpl; intros Hlen;
  unfold unpack_offer, unpack_request, unpack_client_payload,
    unpack_server_payload;
  rewrite length_take, take_take, Nat.min_id, (Nat.min_l _ _ Hlen);
  rewrite (proj2 (Nat.ltb_ge _ _) Hlen), Nat.ltb_irrefl;
  reflexivity.

Ltac never_short long_lemma :=
  intros data; dec_simpl; intros Hlen; rewrite long_lemma by done;
  repeat match goal with
         | |- context [if ?b then _ else _] => destruct b
         end; discriminate.

Lemma offer_accepts_longer : accepts_longer offer_decoder.
Proof.
  apply decoder_accepts_longer;
    [apply offer_checks|unpack_at_size|never_short unpack_offer_long].
Qed.

Lemma request_accepts_longer : accepts_longer request_decoder.
Proof.
  apply decoder_accepts_longer;
    [apply request_checks|unpack_at_size|never_short unpack_request_long].
Qed.

Lemma client_payload_accepts_longer : accepts_longer client_payload_decoder.
Proof.
  apply decoder_accepts_longer;
    [apply client_payload_checks|unpack_at_size|].
  intros data; dec_simpl; intros Hlen; rewrite unpack_client_payload_long by done.
  cbv zeta.
  repeat match goal with
         | |- context [if ?b then _ else _] => destruct b
         end; discriminate.
Qed.

Lemma server_payload_accepts_longer : accepts_longer server_payload_decoder.
Proof.
  apply decoder_accepts_longer;
    [apply server_payload_checks|unpack_at_size
    |never_short unpack_server_payload_long].
Qed.

(** C9. Each of the four decoders accepts any buffer that is at least as
    long as its message.  A buffer whose first bytes are a message, of
    exactly the fixed size and with the right magic marker and type tag
    (and, for a Client Decision, one of the two tokens), followed by any
    extra bytes, decodes: the result is [Ok] with the fields of the
    message, and nothing of the extra bytes.  The "too short" error is
    raised exactly for the buffers strictly shorter than the fixed size
    (39, 38, 10 and 9 bytes).  More generally every buffer a decoder is
    given is answered as its first fixed-size bytes are. *)
Theorem trailing_bytes_ignored (msg extra : bytes) :
  (is_message offer_decoder msg ->
   unpack_offer (msg ++ extra)
   = Ok (be_decode (take 2 (drop 5 msg)), decode_team_name (drop 7 msg)))
  ∧ (is_message request_decoder msg ->
     unpack_request (msg ++ extra)
     = Ok (msg_rounds msg, decode_team_name (drop 6 msg)))
  ∧ (is_message server_payload_decoder msg ->
     unpack_server_payload (msg ++ extra)
     = Ok (be_decode (take 1 (drop 5 msg)), be_decode (take 2 (drop 6 msg)),
           be_decode (drop 8 msg)))
  ∧ (is_message client_payload_decoder msg ->
     (msg_token msg = DECISION_HIT ->
      unpack_client_payload (msg ++ extra) = Ok (lit "Hit"))
     ∧ (msg_token msg = DECISION_STAND ->
        unpack_client_payload (msg ++ extra) = Ok (lit "Stand")))
  ∧ (unpack_offer msg = Raise (ValueError "Offer packet too short")
     <-> (length msg < 39)%nat)
  ∧ (unpack_request msg = Raise (ValueError "Request packet too short")
     <-> (length msg < 38)%nat)
  ∧ (unpack_client_payload msg = Raise (ValueError "Client payload too short")
     <-> (length msg < 10)%nat)
  ∧ (unpack_server_payload msg = Raise (ValueError "Server payload too short")
     <-> (length msg < 9)%nat)
  ∧ accepts_longer offer_decoder
  ∧ accepts_longer request_decoder
  ∧ accepts_longer client_payload_decoder
  ∧ accepts_longer server_payload_decoder.
Proof.
  pose proof offer_accepts_longer as (Ho1 & _ & Ho3).
  pose proof request_accepts_longer as (Hr1 & _ & Hr3).
  pose proof client_payload_accepts_longer as (Hc1 & _ & Hc3).
  pose proof server_payload_accepts_longer as (Hs1 & _ & Hs3).
  split.
  { intros (Hlen & Hck & Hty).
    change (unpack_offer (msg ++ extra)) with (dec_run offer_decoder (msg ++ extra)).
    rewrite (Ho1 msg extra Hlen).
    cbn [dec_run offer_decoder dec_size dec_type] in *.
    rewrite unpack_offer_long by (rewrite Hlen; done).
    rewrite Hck, Hty, !Z.eqb_refl. cbn [negb orb].
    do 3 f_equal. apply take_ge. rewrite length_drop, Hlen.
    change _OFFER_SIZE with 39%nat. lia. }
  split.
  { intros (Hlen & Hck & Hty).
    change (unpack_request (msg ++ extra)) with (dec_run request_decoder (msg ++ extra)).
    rewrite (Hr1 msg extra Hlen).
    cbn [dec_run request_decoder dec_size dec_type] in *.
    rewrite unpack_request_long by (rewrite Hlen; done).
    rewrite Hck, Hty, !Z.eqb_refl. cbn [negb orb].
    do 3 f_equal. apply take_ge. rewrite length_drop, Hlen.
    change _REQUEST_SIZE with 38%nat. lia. }
  split.
  { intros (Hlen & Hck & Hty).
    change (unpack_server_payload (msg ++ extra)) with (dec_run server_payload_decoder (msg ++ extra)).
    rewrite (Hs1 msg extra Hlen).
    cbn [dec_run server_payload_decoder dec_size dec_type] in *.
    rewrite unpack_server_payload_long by (rewrite Hlen; done).
    rewrite Hck, Hty, !Z.eqb_refl. cbn [negb orb].
    do 3 f_equal. apply take_ge. rewrite length_drop, Hlen.
    change _SERVER_PAYLOAD_SIZE with 9%nat. lia. }
  split.
  { intros (Hlen & Hck & Hty).
    change (unpack_client_payload (msg ++ extra)) with (dec_run client_payload_decoder (msg ++ extra)).
    rewrite (Hc1 msg extra Hlen).
    cbn [dec_run client_payload_decoder dec_size dec_type] in *.
    rewrite unpack_client_payload_long by (rewrite Hlen; done).
    rewrite Hck, Hty, !Z.eqb_refl. cbn [negb orb]. cbv zeta.
    fold (msg_token msg). split; intros ->.
    - by rewrite decide_True by (by vm_compute).
    - rewrite decide_False by (by vm_compute).
      by rewrite decide_True by (by vm_compute). }
  split; [apply (Ho3 msg)|]. split; [apply (Hr3 msg)|].
  split; [apply (Hc3 msg)|]. split; [apply (Hs3 msg)|].
  split; [apply offer_accepts_longer|].
  split; [apply request_accepts_longer|].
  split; [apply client_payload_accepts_longer
         |apply server_payload_accepts_longer].
Qed.

Lemma trailing_bytes_ignored_witness :
  unpack_server_payload
    (packed (pack_server_payload RESULT_WIN 0 0) ++ [x01; x02; x03])
  = Ok (RESULT_WIN, 0, 0)
  ∧ unpack_client_payload (stand_packet ++ hit_packet) = Ok (lit "Stand")
  ∧ unpack_request (request_bytes 7 (replicate 32 x00) ++ stand_packet)
    = Ok (7, [])
  ∧ unpack_server_payload
      (take 8 (packed (pack_server_payload RESULT_WIN 0 0)))
    = Raise (ValueError "Server payload too short").
Proof.
  split.
  { destruct (trailing_bytes_ignored
                (packed (pack_server_payload RESULT_WIN 0 0)) [x01; x02; x03])
      as (_ & _ & H & _).
    rewrite H; [vm_compute; reflexivity|].
    split; [reflexivity|]. split; vm_compute; reflexivity. }
  split.
  { destruct (trailing_bytes_ignored stand_packet hit_packet)
      as (_ & _ & _ & H & _).
    apply H; [|vm_compute; reflexivity].
    split; [reflexivity|]. split; vm_compute; reflexivity. }
  split.
  { destruct (trailing_bytes_ignored (request_bytes 7 (replicate 32 x00))
                stand_packet) as (_ & H & _).
    rewrite H; [vm_compute; reflexivity|].
    split; [reflexivity|]. split; vm_compute; reflexivity. }
  destruct (trailing_bytes_ignored
              (take 8 (packed (pack_server_payload RESULT_WIN 0 0))) [])
    as (_ & _ & _ & _ & _ & _ & _ & H & _).
  apply H. vm_compute. lia.
Defined.

(** ** The decision token *)

(** C4. On a Client Decision whose magic marker and type tag are right,
    the decoder answers ["Hit"] for the token [DECISION_HIT], ["Stand"]
    for the token [DECISION_STAND], two different 5-byte tokens, and
    raises "Unknown decision" for every other token, the all-zero one
    included. *)
Theorem decision_token_decoding (data : bytes) :
  (_CLIENT_PAYLOAD_SIZE <= length data)%nat ->
  msg_cookie data = MAGIC_COOKIE ->
  msg_type data = PAYLOAD_TYPE ->
  unpack_client_payload data
  = (if decide (msg_token data = DECISION_HIT) then Ok (lit "Hit")
     else if decide (msg_token data = DECISION_STAND) then Ok (lit "Stand")
     else Raise (ValueError "Unknown decision"))
  ∧ DECISION_HIT <> DECISION_STAND
  ∧ length DECISION_HIT = 5%nat ∧ length DECISION_STAND = 5%nat
  ∧ lit "Hit" <> lit "Stand"
  ∧ (msg_token data = replicate 5 x00 ->
     unpack_client_payload data = Raise (ValueError "Unknown decision")).
Proof.
  intros Hlen Hc Ht.
  assert (Htok : length (msg_token data) = 5%nat).
  { unfold msg_token. rewrite length_take, length_drop.
    change _CLIENT_PAYLOAD_SIZE with 10%nat in Hlen. lia. }
  assert (Heq : unpack_client_payload data
    = (if decide (msg_token data = DECISION_HIT) then Ok (lit "Hit")
       else if decide (msg_token data = DECISION_STAND) then Ok (lit "Stand")
       else Raise (ValueError "Unknown decision"))).
  { rewrite unpack_client_payload_long by done.
    rewrite Hc, Ht. cbn [negb orb Z.eqb]. rewrite !Z.eqb_refl. cbn [negb orb].
    cbv zeta. fold (msg_token data).
    pose proof (rstrip_eq_full x00 (msg_token data) DECISION_HIT Htok eq_refl) as Hh.
    pose proof (rstrip_eq_full x00 (msg_token data) DECISION_STAND Htok eq_refl) as Hs.
    repeat case_decide; tauto. }
  split; [exact Heq|]. repeat split; try done.
  intros Hz. rewrite Heq, Hz. reflexivity.
Qed.

Lemma decision_token_decoding_witness :
  unpack_client_payload (be_encode 4 MAGIC_COOKIE ++ be_encode 1 PAYLOAD_TYPE ++ blit "Hello")
  = Raise (ValueError "Unknown decision").
Proof.
  set (data := be_encode 4 MAGIC_COOKIE ++ be_encode 1 PAYLOAD_TYPE ++ blit "Hello").
  assert (H1 : (_CLIENT_PAYLOAD_SIZE <= length data)%nat) by (vm_compute; lia).
  assert (H2 : msg_cookie data = MAGIC_COOKIE) by reflexivity.
  assert (H3 : msg_type data = PAYLOAD_TYPE) by reflexivity.
  rewrite (proj1 (decision_token_decoding data H1 H2 H3)).
  reflexivity.
Defined.

(** ** The rounds field and the empty session *)

Lemma request_bytes_fields rounds name extra :
  0 <= rounds <= 255 -> length name = 32%nat ->
  let data := request_bytes rounds name ++ extra in
  (_REQUEST_SIZE <= length data)%nat
  ∧ msg_cookie data = MAGIC_COOKIE
  ∧ msg_type data = REQUEST_TYPE
  ∧ msg_rounds data = rounds
  ∧ take 32 (drop 6 data) = name.
Proof.
  intros Hr Hname data. subst data. unfold request_bytes.
  split; [|split; [|split; [|split]]].
  - rewrite !length_app, !length_be_encode, Hname.
    change _REQUEST_SIZE with 38%nat. lia.
  - reflexivity.
  - reflexivity.
  - unfold msg_rounds.
    change (be_encode 4 MAGIC_COOKIE ++ be_encode 1 REQUEST_TYPE ++ be_encode 1 rounds ++ name)
      with (be_encode 5 (MAGIC_COOKIE * 256 + REQUEST_TYPE) ++ be_encode 1 rounds ++ name).
    rewrite <- !app_assoc.
    rewrite drop_app_length' by (by rewrite length_be_encode).
    rewrite take_app_length' by (by rewrite length_be_encode).
    apply be_decode_encode. simpl. lia.
  - change (be_encode 4 MAGIC_COOKIE ++ be_encode 1 REQUEST_TYPE ++ be_encode 1 rounds ++ name)
      with (be_encode 5 (MAGIC_COOKIE * 256 + REQUEST_TYPE) ++ be_encode 1 rounds ++ name).
    rewrite <- !app_assoc.
    rewrite (app_assoc (be_encode 5 _)).
    rewrite drop_app_length' by (rewrite length_app, !length_be_encode; lia).
    by rewrite take_app_length'.
Qed.

Lemma bind_ok {A B} (m : M A) (k : A -> M B) w a w' :
  m w = (Ok a, w') -> (m ≫= k) w = k a w'.
Proof. intros H. unfold mbind, M_bind, bind. by rewrite H. Qed.

Lemma bind_raise {A B} (m : M A) (k : A -> M B) w e w' :
  m w = (Raise e, w') -> (m ≫= k) w = (Raise e, w').
Proof. intros H. unfold mbind, M_bind, bind. by rewrite H. Qed.

Lemma bind_lift_ok {A B} (a : A) (k : A -> M B) w :
  (lift (Ok a) ≫= k) w = k a w.
Proof. reflexivity. Qed.

(** C10. The rounds field is not range-checked: a Request with the right
    magic marker and type tag decodes to the value of its rounds byte,
    whatever it is from 0 to 255.  With rounds = 0 the session plays no
    round: nothing is sent, the socket is closed and no exception is
    raised. *)
Theorem rounds_not_range_checked
    (rounds : Z) (name extra : bytes) (w : world) :
  0 <= rounds <= 255 ->
  length name = 32%nat ->
  unpack_request (request_bytes rounds name ++ extra)
  = Ok (rounds, decode_team_name name)
  ∧ (pending w = request_bytes 0 name ++ extra ->
     exists w',
       handle_client w = (Ok [], w')
       ∧ sk_out (w_sock w') = sk_out (w_sock w)
       ∧ sk_closed (w_sock w') = true
       ∧ pending w' = extra).
Proof.
  intros Hr Hname.
  assert (Hdec : forall r e, 0 <= r <= 255 ->
            unpack_request (request_bytes r name ++ e)
            = Ok (r, decode_team_name name)).
  { intros r e Hr'.
    destruct (request_bytes_fields r name e Hr' Hname)
      as (Hlen & Hc & Ht & Hrd & Hnm).
    rewrite unpack_request_long by done.
    rewrite Hc, Ht, !Z.eqb_refl. cbn [negb orb].
    fold (msg_rounds (request_bytes r name ++ e)). by rewrite Hrd, Hnm. }
  split; [by apply Hdec|].
  intros Hpend.
  assert (Hlen : length (request_bytes 0 name) = 38%nat).
  { unfold request_bytes. rewrite !length_app, !length_be_encode. lia. }
  destruct (recv_exact_spec REQUEST_SIZE w) as (w1 & (Hout & Hcl & Hrng) & Hrecv).
  rewrite decide_True in Hrecv
    by (rewrite Hpend, length_app, Hlen; unfold REQUEST_SIZE; lia).
  destruct Hrecv as [Hrecv Hrest].
  assert (Htake : take REQUEST_SIZE (pending w) = request_bytes 0 name)
    by (by rewrite Hpend, take_app_length').
  assert (Hdrop : drop REQUEST_SIZE (pending w) = extra)
    by (by rewrite Hpend, drop_app_length').
  rewrite Htake in Hrecv. rewrite Hdrop in Hrest.
  eexists. split; [|split; [|split]].
  - unfold handle_client, try_finally.
    rewrite (bind_ok _ _ _ _ _ Hrecv).
    rewrite <- (app_nil_r (request_bytes 0 name)).
    rewrite (Hdec 0 []) by lia. rewrite bind_lift_ok.
    reflexivity.
  - done.
  - done.
  - done.
Qed.

(** ** Card and hand values *)

Lemma fold_left_add_shift (zs : list Z) (acc : Z) :
  fold_left Z.add zs acc = acc + fold_left Z.add zs 0.
Proof.
  revert acc. induction zs as [|z zs IH]; intros acc; cbn [fold_left].
  - lia.
  - rewrite IH, (IH (0 + z)). lia.
Qed.

Lemma hand_value_nil : hand_value [] = 0.
Proof. reflexivity. Qed.

Lemma hand_value_cons c hand :
  hand_value (c :: hand) = card_value c.1 + hand_value hand.
Proof.
  unfold hand_value. cbn [fmap list_fmap fold_left].
  rewrite fold_left_add_shift. lia.
Qed.

Lemma hand_value_app h1 h2 :
  hand_value (h1 ++ h2) = hand_value h1 + hand_value h2.
Proof.
  induction h1 as [|c h1 IH]; [rewrite hand_value_nil; simpl; lia|].
  rewrite <- app_comm_cons, !hand_value_cons, IH. lia.
Qed.

Lemma hand_value_sum hand : hand_value hand = sum_card_values hand.
Proof.
  induction hand as [|[rank suit] hand IH]; [done|].
  rewrite hand_value_cons, IH. reflexivity.
Qed.

(** C2. [card_value] is 11 for the Ace, 10 for the ranks from 11 up and
    the rank itself for the others; [hand_value] is the plain sum of the
    card values, in which an Ace always counts 11: two Aces make 22. *)
Theorem card_and_hand_values (r : Z) (hand : list card) :
  1 <= r <= 13 ->
  (r = 1 -> card_value r = 11)
  ∧ (11 <= r -> card_value r = 10)
  ∧ (r <> 1 -> r < 11 -> card_value r = r)
  ∧ hand_value hand = sum_card_values hand
  ∧ (forall suit, hand_value ((1, suit) :: hand) = 11 + hand_value hand)
  ∧ hand_value [(1, 0); (1, 1)] = 22.
Proof.
  intros Hr. unfold card_value.
  split; [by intros ->|].
  split; [intros H; destruct (Z.eqb_spec r 1); [lia|];
          by destruct (Z.geb_spec r 11); [|lia]|].
  split; [intros H1 H2; destruct (Z.eqb_spec r 1); [lia|];
          by destruct (Z.geb_spec r 11); [lia|]|].
  split; [apply hand_value_sum|].
  split; [intros suit; by rewrite hand_value_cons|reflexivity].
Qed.

Lemma card_and_hand_values_witness :
  card_value 12 = 10 ∧ hand_value [(12, 3); (1, 0); (7, 2)] = 28.
Proof.
  pose proof (card_and_hand_values 12 [(12, 3); (1, 0); (7, 2)]) as H.
  destruct H as (_ & H10 & _ & Hsum & _); [lia|].
  split; [apply H10; lia|rewrite Hsum; reflexivity].
Defined.

(** ** The deck *)

Lemma insert_swap_head {A} (l : list A) j x y :
  l !! j = Some y -> y :: <[j:=x]> l ≡ₚ x :: l.
Proof.
  revert j. induction l as [|a l IH]; intros [|j] H; try done.
  - simpl in H. injection H as ->. simpl. apply perm_swap.
  - simpl in H. simpl. rewrite perm_swap. rewrite (IH _ H). apply perm_swap.
Qed.

Lemma swap_items_perm {A} (x : list A) i j x' :
  swap_items x i j = Ok x' -> x' ≡ₚ x.
Proof.
  unfold swap_items.
  destruct (x !! j) as [xj|] eqn:Ej; [|discriminate].
  destruct (x !! i) as [xi|] eqn:Ei; [|discriminate].
  intros [= <-]. revert i j Ei Ej.
  induction x as [|a x IH]; intros [|i] [|j] Ei Ej; try done; simpl in *.
  - by simplify_eq.
  - injection Ei as ->. by apply insert_swap_head.
  - injection Ej as ->. by apply insert_swap_head.
  - f_equiv. by apply IH.
Qed.

Lemma swap_items_ok {A} (x : list A) i j :
  (i < length x)%nat -> (j < length x)%nat ->
  exists x', swap_items x i j = Ok x'.
Proof.
  intros Hi Hj. unfold swap_items.
  destruct (lookup_lt_is_Some_2 x j Hj) as [xj ->].
  destruct (lookup_lt_is_Some_2 x i Hi) as [xi ->].
  eauto.
Qed.

Lemma randbelow_spec n w :
  (0 < n)%nat ->
  exists j w', randbelow n w = (Ok j, w') ∧ (j < n)%nat
    ∧ w_sock w' = w_sock w.
Proof.
  intros Hn. unfold randbelow. destruct (w_rng w) as [|r rs].
  - exists O, w. auto.
  - eexists _, _. split; [reflexivity|]. split; [|done].
    apply Nat.mod_upper_bound. lia.
Qed.

Lemma shuffle_from_spec {A} i : forall (x : list A) w,
  (i < length x)%nat ∨ i = O ->
  exists x' w', shuffle_from i x w = (Ok x', w') ∧ x' ≡ₚ x
    ∧ w_sock w' = w_sock w.
Proof.
  induction i as [|i IH]; intros x w Hi.
  - exists x, w. auto.
  - destruct Hi as [Hi|]; [|done].
    cbn [shuffle_from].
    destruct (randbelow_spec (S i + 1) w) as (j & w1 & Hj & Hlt & Hs1); [lia|].
    rewrite (bind_ok _ _ _ _ _ Hj).
    destruct (swap_items_ok x (S i) j) as [x1 Hx1]; [lia|lia|].
    rewrite Hx1, bind_lift_ok.
    pose proof (swap_items_perm _ _ _ _ Hx1) as Hp.
    destruct (IH x1 w1) as (x' & w' & Hsh & Hp' & Hs').
    { left. rewrite (Permutation_length Hp). lia. }
    exists x', w'. split; [done|]. split; [by rewrite Hp'|congruence].
Qed.

Lemma shuffle_spec {A} (x : list A) w :
  exists x' w', shuffle x w = (Ok x', w') ∧ x' ≡ₚ x ∧ w_sock w' = w_sock w.
Proof.
  apply shuffle_from_spec. destruct x; simpl; [by right|left; lia].
Qed.

Lemma Deck_init_spec w :
  exists d w', Deck_init w = (Ok d, w') ∧ cards d ≡ₚ all_cards
    ∧ w_sock w' = w_sock w.
Proof.
  unfold Deck_init. fold all_cards.
  destruct (shuffle_spec all_cards w) as (x' & w' & Hsh & Hp & Hs).
  rewrite (bind_ok _ _ _ _ _ Hsh).
  by exists {| cards := x' |}, w'.
Qed.

Lemma elem_of_all_cards rank suit :
  (rank, suit) ∈ all_cards <-> 1 <= rank <= 13 ∧ 0 <= suit <= 3.
Proof.
  unfold all_cards. rewrite list_elem_of_bind. split.
  - intros (s & Hin & Hs). apply list_elem_of_bind in Hin as (r & Hin & Hr).
    apply list_elem_of_singleton in Hin. injection Hin as -> ->.
    unfold RANKS in Hr. apply list_elem_of_fmap in Hr as (n & -> & Hn).
    apply elem_of_seq in Hn.
    unfold SUITS in Hs. rewrite !elem_of_cons, elem_of_nil in Hs. lia.
  - intros [Hr Hs]. exists suit. split.
    + apply list_elem_of_bind. exists rank. split; [by left|].
      unfold RANKS. apply list_elem_of_fmap. exists (Z.to_nat rank).
      split; [lia|]. apply elem_of_seq. lia.
    + unfold SUITS. rewrite !elem_of_cons.
      assert (suit = 0 ∨ suit = 1 ∨ suit = 2 ∨ suit = 3) by lia. tauto.
Qed.

Lemma all_cards_length : length all_cards = 52%nat.
Proof. reflexivity. Qed.

Lemma all_cards_NoDup : NoDup all_cards.
Proof.
  apply (bool_decide_unpack (NoDup all_cards)). by vm_compute.
Qed.

Lemma list_pop_spec {A} (l : list A) :
  match list_pop l with
  | Ok (a, rest) => l = rest ++ [a]
  | Raise e => l = [] ∧ e = IndexError "pop from empty list"
  | OutOfFuel => False
  end.
Proof.
  unfold list_pop. destruct l as [|a l] using rev_ind.
  - done.
  - rewrite last_snoc, length_app. cbn [length].
    replace (length l + 1 - 1)%nat with (length l) by lia.
    by rewrite take_app_length.
Qed.

Lemma Deck_draw_spec d :
  match Deck_draw d with
  | Ok (c, d') => cards d = cards d' ++ [c]
  | Raise e => cards d = [] ∧ e = IndexError "pop from empty list"
  | OutOfFuel => False
  end.
Proof.
  unfold Deck_draw. pose proof (list_pop_spec (cards d)) as H.
  destruct (list_pop (cards d)) as [[c rest]|e|]; done.
Qed.

Lemma Deck_draw_snoc cs c :
  Deck_draw {| cards := cs ++ [c] |} = Ok (c, {| cards := cs |}).
Proof.
  pose proof (Deck_draw_spec {| cards := cs ++ [c] |}) as H.
  destruct (Deck_draw _) as [[c' [cs']]|e|]; cbn [cards] in H.
  - apply app_inj_tail in H as [-> ->]. done.
  - destruct H as [H _]. by destruct cs.
  - done.
Qed.

Lemma Deck_draw_empty : Deck_draw {| cards := [] |}
  = Raise (IndexError "pop from empty list").
Proof. reflexivity. Qed.

Lemma draw_many_spec n : forall cs,
  draw_many n {| cards := cs |}
  = if decide (n <= length cs)%nat
    then Ok (take n (reverse cs), {| cards := take (length cs - n) cs |})
    else Raise (IndexError "pop from empty list").
Proof.
  induction n as [|n IH]; intros cs.
  - cbn [draw_many]. rewrite decide_True by lia.
    by rewrite Nat.sub_0_r, firstn_all.
  - cbn [draw_many]. destruct cs as [|c cs _] using rev_ind.
    + by rewrite Deck_draw_empty, decide_False by (simpl; lia).
    + rewrite Deck_draw_snoc, IH, length_app, reverse_snoc. cbn [length].
      destruct (decide (n <= length cs)%nat).
      * rewrite decide_True by lia. cbn [take]. do 3 f_equal.
        rewrite take_app_le by lia. f_equal. lia.
      * by rewrite decide_False by lia.
Qed.

Lemma draw_many_partition n cs drawn d' :
  draw_many n {| cards := cs |} = Ok (drawn, d') ->
  length drawn = n
  ∧ (length (cards d') + n = length cs)%nat
  ∧ cs = cards d' ++ reverse drawn.
Proof.
  rewrite draw_many_spec. case_decide as Hn; [|discriminate].
  intros [= <- <-]. cbn [cards].
  rewrite take_reverse, length_reverse, length_drop, length_take, reverse_involutive.
  split; [lia|]. split; [lia|]. by rewrite take_drop.
Qed.

(** C6. A fresh deck holds 52 cards, all different: exactly the pairs
    (rank, suit) with rank in 1..13 and suit in 0..3.  A draw removes one
    card and returns it, so the deck is one card shorter and the card is
    not in it any more; [k] draws (k <= 52) give [k] cards and leave
    [52 - k], and the drawn cards with the remaining ones are the deck
    again, each card once.  After 52 draws the deck is empty and the 52
    cards drawn are the full set; a 53rd draw raises [IndexError]. *)
Theorem fresh_deck_and_draws (w : world) (k : nat) :
  (k <= 52)%nat ->
  exists d w',
    Deck_init w = (Ok d, w')
    ∧ length (cards d) = 52%nat
    ∧ NoDup (cards d)
    ∧ (forall rank suit,
         (rank, suit) ∈ cards d <-> 1 <= rank <= 13 ∧ 0 <= suit <= 3)
    ∧ (forall d1 c d2, Deck_draw d1 = Ok (c, d2) ->
         cards d1 = cards d2 ++ [c]
         ∧ (length (cards d2) + 1 = length (cards d1))%nat
         ∧ (NoDup (cards d1) -> c ∉ cards d2))
    ∧ (exists drawn d',
         draw_many k d = Ok (drawn, d')
         ∧ length drawn = k
         ∧ length (cards d') = (52 - k)%nat
         ∧ drawn ++ cards d' ≡ₚ cards d
         ∧ NoDup (drawn ++ cards d'))
    ∧ (exists drawn,
         draw_many 52 d = Ok (drawn, {| cards := [] |})
         ∧ drawn ≡ₚ all_cards)
    ∧ draw_many 53 d = Raise (IndexError "pop from empty list").
Proof.
  intros Hk. destruct (Deck_init_spec w) as ([cs] & w' & Hinit & Hperm & _).
  cbn [cards] in Hperm.
  assert (Hlen : length cs = 52%nat)
    by (by rewrite Hperm, all_cards_length).
  assert (Hnd : NoDup cs) by (rewrite Hperm; apply all_cards_NoDup).
  exists {| cards := cs |}, w'. cbn [cards].
  split; [done|]. split; [done|]. split; [done|].
  split; [intros rank suit; rewrite Hperm; apply elem_of_all_cards|].
  split.
  { intros d1 c d2 Hd. pose proof (Deck_draw_spec d1) as H.
    rewrite Hd in H. split; [done|]. rewrite H, length_app. cbn [length].
    split; [done|]. intros Hnd1. apply NoDup_app in Hnd1 as (_ & Hdisj & _).
    intros Hin. apply (Hdisj c Hin). by left. }
  split.
  { rewrite draw_many_spec, decide_True by lia.
    eexists _, _. split; [reflexivity|]. cbn [cards].
    rewrite take_reverse, length_reverse, length_drop, length_take.
    split; [lia|]. split; [lia|].
    assert (Hp : reverse (drop (length cs - k) cs) ++ take (length cs - k) cs
                 ≡ₚ cs).
    { rewrite reverse_Permutation, (comm (++)). by rewrite take_drop. }
    split; [done|]. by rewrite Hp. }
  split.
  { rewrite draw_many_spec, decide_True by lia.
    rewrite Hlen. cbn [Nat.sub take]. eexists. split; [reflexivity|].
    rewrite <- Hlen, <- length_reverse, firstn_all.
    by rewrite reverse_Permutation. }
  rewrite draw_many_spec, decide_False by lia. done.
Qed.

(** ** The round engine *)

Lemma emits_nil w w' :
  sk_out (w_sock w') = sk_out (w_sock w) -> emits w w' [].
Proof. intros H. exists []. by rewrite app_nil_r. Qed.

Lemma emits_app w1 w2 w3 e1 e2 :
  emits w1 w2 e1 -> emits w2 w3 e2 -> emits w1 w3 (e1 ++ e2).
Proof.
  intros (p1 & H1 & Hd1) (p2 & H2 & Hd2). exists (p1 ++ p2).
  split; [by rewrite H2, H1, app_assoc|].
  by rewrite !fmap_app, Hd1, Hd2.
Qed.

Lemma pack_field_int_inv c z bs :
  pack_field c (VInt z) = Some bs ->
  0 <= z < 256 ^ Z.of_nat (fmt_size c) ∧ bs = be_encode (fmt_size c) z.
Proof.
  destruct c; cbn [pack_field]; try discriminate;
    (destruct (decide _); [|discriminate]); by intros [= <-].
Qed.

Lemma pack_server_payload_inv res rank suit :
  match pack_server_payload res rank suit with
  | Ok pkt =>
      (0 <= res < 256 ∧ 0 <= rank < 65536 ∧ 0 <= suit < 256)
      ∧ unpack_server_payload pkt = Ok (res, rank, suit)
  | Raise e => e = StructError
      ∧ ¬ (0 <= res < 256 ∧ 0 <= rank < 65536 ∧ 0 <= suit < 256)
  | OutOfFuel => False
  end.
Proof.
  destruct (decide (0 <= res < 256 ∧ 0 <= rank < 65536 ∧ 0 <= suit < 256))
    as [(Hr & Hk & Hs)|Hno].
  - rewrite pack_server_payload_layout by done. split; [done|].
    rewrite unpack_server_payload_long
      by (rewrite !length_app, !length_be_encode;
          change _SERVER_PAYLOAD_SIZE with 9%nat; lia).
    change (be_encode 4 MAGIC_COOKIE ++ be_encode 1 PAYLOAD_TYPE ++ ?x)
      with (be_encode 5 (MAGIC_COOKIE * 256 + PAYLOAD_TYPE) ++ x).
    replace (msg_cookie _) with MAGIC_COOKIE by reflexivity.
    replace (msg_type _) with PAYLOAD_TYPE by reflexivity.
    rewrite !Z.eqb_refl. cbn [negb orb].
    do 3 f_equal.
    + change 5%nat with (length (be_encode 5 (MAGIC_COOKIE * 256 + PAYLOAD_TYPE))).
      rewrite drop_app_length, take_app_length' by (by rewrite length_be_encode).
      by apply be_decode_encode.
    + rewrite (app_assoc _ (be_encode 1 res)).
      rewrite drop_app_length' by (rewrite length_app, !length_be_encode; lia).
      rewrite take_app_length' by (by rewrite length_be_encode).
      by apply be_decode_encode.
    + rewrite (app_assoc _ (be_encode 1 res)), (app_assoc _ (be_encode 2 rank)).
      rewrite drop_app_length' by (rewrite !length_app, !length_be_encode; lia).
      rewrite firstn_all2 by (rewrite length_be_encode; lia).
      by apply be_decode_encode.
  - unfold pack_server_payload, _SERVER_PAYLOAD_FMT. cbn [struct_pack].
    rewrite !(pack_field_int _ MAGIC_COOKIE), !(pack_field_int _ PAYLOAD_TYPE)
      by pack_side.
    destruct (pack_field FmtB (VInt res)) as [b1|] eqn:E1; [|done].
    destruct (pack_field FmtH (VInt rank)) as [b2|] eqn:E2; [|done].
    destruct (pack_field FmtB (VInt suit)) as [b3|] eqn:E3; [|done].
    apply pack_field_int_inv in E1 as [E1 _].
    apply pack_field_int_inv in E2 as [E2 _].
    apply pack_field_int_inv in E3 as [E3 _].
    exfalso. apply Hno. cbn in E1, E2, E3. lia.
Qed.

Lemma bind_inv {A B} (m : M A) (k : A -> M B) w r w' :
  (m ≫= k) w = (r, w') ->
  (exists a w1, m w = (Ok a, w1) ∧ k a w1 = (r, w'))
  ∨ (exists e, m w = (Raise e, w') ∧ r = Raise e)
  ∨ (m w = (OutOfFuel, w') ∧ r = OutOfFuel).
Proof.
  unfold mbind, M_bind, bind. destruct (m w) as [[a|e|] w1].
  - intros H. left. eauto.
  - intros [= <- <-]. right. left. eauto.
  - intros [= <- <-]. right. right. eauto.
Qed.

Lemma lift_inv {A} (x : result A) w r w' :
  lift x w = (r, w') -> r = x ∧ w' = w.
Proof. by intros [= <- <-]. Qed.

Lemma mret_inv {A} (a : A) w (r : result A) w' :
  (mret a : M A) w = (r, w') -> r = Ok a ∧ w' = w.
Proof. by intros [= <- <-]. Qed.

Lemma send_payload_spec res rank suit w r w' :
  send_payload res rank suit w = (r, w') ->
  match r with
  | Ok _ => emits w w' [(res, rank, suit)]
  | Raise e => ¬ (0 <= res < 256 ∧ 0 <= rank < 65536 ∧ 0 <= suit < 256)
  | OutOfFuel => False
  end.
Proof.
  unfold send_payload. intros H.
  pose proof (pack_server_payload_inv res rank suit) as Hp.
  apply bind_inv in H as [(pkt & w1 & E & H)|[(e & E & ->)|[E ->]]];
    apply lift_inv in E as [E ->]; rewrite <- E in Hp.
  - injection H as <- <-. exists [pkt]. cbn [w_sock sk_out].
    split; [done|]. cbn. by rewrite (proj2 Hp).
  - tauto.
  - done.
Qed.

Lemma valid_card_range c :
  valid_card c ->
  2 <= card_value c.1 <= 11
  ∧ (0 <= RESULT_NOT_OVER < 256 ∧ 0 <= c.1 < 65536 ∧ 0 <= c.2 < 256).
Proof.
  intros [H1 H2]. unfold card_value, RESULT_NOT_OVER.
  destruct (Z.eqb_spec c.1 1); [lia|].
  destruct (Z.geb_spec c.1 11); lia.
Qed.

Lemma hand_value_lower hand :
  Forall valid_card hand -> 2 * Z.of_nat (length hand) <= hand_value hand.
Proof.
  induction 1 as [|c hand Hc _ IH]; [done|].
  rewrite hand_value_cons. cbn [length].
  pose proof (valid_card_range c Hc). lia.
Qed.

Lemma unpack_client_payload_cases data :
  unpack_client_payload data = Ok (lit "Hit")
  ∨ unpack_client_payload data = Ok (lit "Stand")
  ∨ exists msg, unpack_client_payload data = Raise (ValueError msg).
Proof.
  destruct (decide (_CLIENT_PAYLOAD_SIZE <= length data)%nat) as [Hlen|Hlen].
  - rewrite unpack_client_payload_long by done. cbv zeta.
    repeat match goal with
           | |- context [if ?b then _ else _] => destruct b
           end; eauto.
  - unfold unpack_client_payload.
    rewrite unpack_short_ltb by lia. eauto.
Qed.

Lemma recv_exact_cases n w r w' :
  recv_exact n w = (r, w') ->
  sk_out (w_sock w') = sk_out (w_sock w)
  ∧ ((exists data, r = Ok data) ∨ (exists msg, r = Raise (ConnectionError msg))).
Proof.
  intros H. destruct (recv_exact_spec n w) as (w1 & (Hout & _) & Hspec).
  case_decide.
  - destruct Hspec as [Hspec _]. rewrite Hspec in H. injection H as <- <-. eauto.
  - rewrite Hspec in H. injection H as <- <-. eauto.
Qed.

Lemma player_turn_spec fuel : forall deck hand w r w',
  (length (cards deck) < fuel)%nat ->
  player_turn fuel deck hand w = (r, w') ->
  match r with
  | Ok (deck', hand', bust) =>
      exists hits,
        hand' = hand ++ hits
        ∧ cards deck = cards deck' ++ reverse hits
        ∧ emits w w' (card_event <$> hits)
        ∧ (bust = true <-> hits <> [] ∧ hand_value hand' > 21)
        ∧ (forall k, (0 < k < length hits)%nat ->
             hand_value (hand ++ take k hits) <= 21)
  | Raise e => player_ok deck hand -> peer_error e
  | OutOfFuel => False
  end.
Proof.
  induction fuel as [|fuel IH]; intros deck hand w r w' Hfuel H; [lia|].
  cbn [player_turn] in H.
  apply bind_inv in H as [(data & w1 & E1 & H)|[(e & E & ->)|[E ->]]].
  2:{ apply recv_exact_cases in E as (_ & [[? ?]|[msg ?]]); [done|].
      simplify_eq. intros _. left. eauto. }
  2:{ apply recv_exact_cases in E as (_ & [[? ?]|[? ?]]); done. }
  apply recv_exact_cases in E1 as (Hout1 & _).
  pose proof (unpack_client_payload_cases data) as Hcases.
  apply bind_inv in H as [(decision & w2 & E2 & H)|[(e & E & ->)|[E ->]]].
  2:{ apply lift_inv in E as [E _]. rewrite <- E in Hcases.
      destruct Hcases as [?|[?|[msg ?]]]; try done. simplify_eq.
      intros _. right. eauto. }
  2:{ apply lift_inv in E as [E _]. rewrite <- E in Hcases.
      by destruct Hcases as [?|[?|[msg ?]]]. }
  apply lift_inv in E2 as [E2 ->]. clear Hcases.
  destruct (decide (decision = lit "Hit")) as [_|_].
  - (* Hit *)
    pose proof (Deck_draw_spec deck) as Hdraw.
    apply bind_inv in H as [([c deck1] & w2 & E3 & H)|[(e & E & ->)|[E ->]]].
    2:{ apply lift_inv in E as [E _]. rewrite <- E in Hdraw.
        destruct Hdraw as [Hempty _]. intros (_ & _ & Hh & Hd).
        rewrite Hempty in Hd. simpl in Hd. lia. }
    2:{ apply lift_inv in E as [E _]. by rewrite <- E in Hdraw. }
    apply lift_inv in E3 as [E3 ->]. rewrite <- E3 in Hdraw.
    cbv zeta in H.
    apply bind_inv in H as [([] & w3 & E4 & H)|[(e & E & ->)|[E ->]]].
    2:{ apply send_payload_spec in E. intros (Hdeck & _).
        exfalso. apply E. refine (proj2 (valid_card_range c _)).
        rewrite Hdraw in Hdeck. apply Forall_app in Hdeck as [_ Hc].
        exact (Forall_inv Hc). }
    2:{ by apply send_payload_spec in E. }
    apply send_payload_spec in E4.
    assert (Hem : emits w w3 [card_event c]).
    { destruct E4 as (pkts & Ho & Hd). exists pkts. by rewrite Ho, Hout1. }
    destruct (hand_value (hand ++ [c]) >? 21) eqn:Ebust.
    + (* bust *)
      apply mret_inv in H as [-> ->].
      exists [c]. split; [done|]. split; [done|]. split; [done|].
      split; [|intros k Hk; simpl in Hk; lia].
      split; [intros _; split; [done|lia]|done].
    + (* continue *)
      assert (Hle : hand_value (hand ++ [c]) <= 21) by lia.
      specialize (IH deck1 (hand ++ [c]) w3 r w').
      rewrite Hdraw, length_app in Hfuel. cbn [length] in Hfuel.
      specialize (IH ltac:(lia) H).
      destruct r as [[[deck' hand'] bust]|e|]; [| |done].
      * destruct IH as (hits & -> & Hdeck1 & Hem' & Hbust & Hmid).
        exists (c :: hits). rewrite <- !app_assoc. cbn [app].
        split; [done|].
        split; [by rewrite Hdraw, Hdeck1, reverse_cons, app_assoc|].
        split; [apply (emits_app _ _ _ [_] _ Hem Hem')|].
        split.
        -- rewrite <- app_assoc in Hbust. cbn [app] in Hbust.
           rewrite Hbust. split; intros [Hne Hv]; (split; [|done]); [done|].
           intros ->. lia.
        -- intros [|k] Hk; [lia|]. cbn [take length] in *.
           destruct k as [|k].
           ++ by rewrite take_0.
           ++ specialize (Hmid (S k) ltac:(lia)).
              by rewrite <- app_assoc in Hmid.
      * intros (Hdeck & Hhand & Hlen & Hsum). apply IH.
        rewrite Hdraw in Hdeck, Hsum.
        apply Forall_app in Hdeck as [Hdeck1 Hc].
        assert (Hhand' : Forall valid_card (hand ++ [c]))
          by (by apply Forall_app).
        split; [done|]. split; [done|].
        pose proof (hand_value_lower _ Hhand') as Hlow.
        rewrite !length_app in *. cbn [length] in *. lia.
  - (* Stand *)
    apply mret_inv in H as [-> ->].
    exists []. rewrite app_nil_r. split; [done|].
    split; [by rewrite app_nil_r|]. split; [by apply emits_nil|].
    split; [|intros k Hk; simpl in Hk; lia].
    split; [done|by intros []].
Qed.

Lemma dealer_turn_spec fuel : forall deck hand w r w',
  (length (cards deck) < fuel)%nat ->
  dealer_turn fuel deck hand w = (r, w') ->
  match r with
  | Ok (deck', hand') =>
      exists draws,
        hand' = hand ++ draws
        ∧ cards deck = cards deck' ++ reverse draws
        ∧ emits w w' (card_event <$> draws)
        ∧ 17 <= hand_value hand'
        ∧ (forall k, (k < length draws)%nat ->
             hand_value (hand ++ take k draws) < 17)
  | Raise e => ¬ dealer_ok deck hand
  | OutOfFuel => False
  end.
Proof.
  induction fuel as [|fuel IH]; intros deck hand w r w' Hfuel H; [lia|].
  cbn [dealer_turn] in H.
  destruct (hand_value hand <? 17) eqn:Elt.
  - apply Z.ltb_lt in Elt.
    pose proof (Deck_draw_spec deck) as Hdraw.
    apply bind_inv in H as [([c deck1] & w2 & E3 & H)|[(e & E & ->)|[E ->]]].
    2:{ apply lift_inv in E as [E _]. rewrite <- E in Hdraw.
        destruct Hdraw as [Hempty _]. intros (_ & Hhand & Hd).
        rewrite Hempty in Hd. simpl in Hd.
        pose proof (hand_value_lower _ Hhand). lia. }
    2:{ apply lift_inv in E as [E _]. by rewrite <- E in Hdraw. }
    apply lift_inv in E3 as [E3 ->]. rewrite <- E3 in Hdraw.
    cbv zeta in H.
    apply bind_inv in H as [([] & w3 & E4 & H)|[(e & E & ->)|[E ->]]].
    2:{ apply send_payload_spec in E. intros (Hdeck & _).
        apply E. refine (proj2 (valid_card_range c _)).
        rewrite Hdraw in Hdeck. apply Forall_app in Hdeck as [_ Hc].
        exact (Forall_inv Hc). }
    2:{ by apply send_payload_spec in E. }
    apply send_payload_spec in E4.
    specialize (IH deck1 (hand ++ [c]) w3 r w').
    rewrite Hdraw, length_app in Hfuel. cbn [length] in Hfuel.
    specialize (IH ltac:(lia) H).
    destruct r as [[deck' hand']|e|]; [| |done].
    + destruct IH as (draws & -> & Hdeck1 & Hem' & Hfinal & Hmid).
      exists (c :: draws). rewrite <- !app_assoc. cbn [app].
      split; [done|].
      split; [by rewrite Hdraw, Hdeck1, reverse_cons, app_assoc|].
      split; [apply (emits_app _ _ _ [_] _ E4 Hem')|].
      split; [by rewrite <- app_assoc in Hfinal|].
      intros [|k] Hk; cbn [take length] in *.
      * by rewrite app_nil_r.
      * specialize (Hmid k ltac:(lia)). by rewrite <- app_assoc in Hmid.
    + intros (Hdeck & Hhand & Hsum). apply IH.
      rewrite Hdraw in Hdeck, Hsum.
      apply Forall_app in Hdeck as [Hdeck1 Hc].
      split; [done|]. split; [by apply Forall_app|].
      rewrite !length_app in *. cbn [length] in *. lia.
  - apply Z.ltb_ge in Elt. apply mret_inv in H as [-> ->].
    exists []. rewrite app_nil_r. split; [done|].
    split; [by rewrite app_nil_r|]. split; [by apply emits_nil|].
    split; [done|]. intros k Hk. simpl in Hk. lia.
Qed.

Lemma send_payload_ok res rank suit w :
  0 <= res < 256 -> 0 <= rank < 65536 -> 0 <= suit < 256 ->
  exists w', send_payload res rank suit w = (Ok tt, w')
    ∧ emits w w' [(res, rank, suit)].
Proof.
  intros Hr Hk Hs.
  destruct (send_payload res rank suit w) as [[[]|e|] w'] eqn:E;
    apply send_payload_spec in E; [eauto|tauto|done].
Qed.

Lemma send_card_ok c w :
  valid_card c ->
  exists w', send_payload RESULT_NOT_OVER c.1 c.2 w = (Ok tt, w')
    ∧ emits w w' [card_event c].
Proof.
  intros Hc. destruct (valid_card_range c Hc) as (_ & H1 & H2 & H3).
  by apply send_payload_ok.
Qed.

Lemma Deck_draw_ok d :
  (0 < length (cards d))%nat ->
  exists c d', Deck_draw d = Ok (c, d') ∧ cards d = cards d' ++ [c].
Proof.
  intros Hlen. pose proof (Deck_draw_spec d) as H.
  destruct (Deck_draw d) as [[c d']|e|]; [eauto| |done].
  destruct H as [H _]. rewrite H in Hlen. simpl in Hlen. lia.
Qed.

Lemma decide_result_range bust dealer player :
  let res := decide_result bust dealer player in
  res = RESULT_TIE ∨ res = RESULT_LOSS ∨ res = RESULT_WIN.
Proof.
  unfold decide_result.
  destruct bust; [auto|].
  destruct (dealer >? 21); [auto|].
  destruct (dealer >? player); [auto|].
  destruct (dealer <? player); auto.
Qed.

Ltac forall_cards :=
  repeat (apply Forall_cons; split; [done|]); try apply Forall_nil; try done.

Lemma play_round_spec w r w' :
  play_round w = (r, w') ->
  match r with
  | Ok re =>
      exists p1 p2 d1 d2 hits draws,
        round_shape w w' re p1 p2 d1 d2 hits draws
  | Raise e => peer_error e
  | OutOfFuel => False
  end.
Proof.
  unfold play_round. intros H.
  destruct (Deck_init_spec w) as (deck0 & w0 & Hinit & Hperm & Hsock0).
  rewrite (bind_ok _ _ _ _ _ Hinit) in H.
  assert (Hlen0 : length (cards deck0) = 52%nat)
    by (by rewrite Hperm, all_cards_length).
  assert (Hvalid0 : Forall valid_card (cards deck0)).
  { rewrite Hperm. apply Forall_forall. intros [rank suit] Hin.
    by apply elem_of_all_cards in Hin. }
  destruct (Deck_draw_ok deck0) as (p1 & deck1 & Hd1 & Hc1); [lia|].
  rewrite Hd1, bind_lift_ok in H.
  assert (Hlen1 : length (cards deck1) = 51%nat)
    by (rewrite Hc1, length_app in Hlen0; simpl in Hlen0; lia).
  destruct (Deck_draw_ok deck1) as (p2 & deck2 & Hd2 & Hc2); [lia|].
  rewrite Hd2, bind_lift_ok in H.
  assert (Hlen2 : length (cards deck2) = 50%nat)
    by (rewrite Hc2, length_app in Hlen1; simpl in Hlen1; lia).
  destruct (Deck_draw_ok deck2) as (d1 & deck3 & Hd3 & Hc3); [lia|].
  rewrite Hd3, bind_lift_ok in H.
  assert (Hlen3 : length (cards deck3) = 49%nat)
    by (rewrite Hc3, length_app in Hlen2; simpl in Hlen2; lia).
  destruct (Deck_draw_ok deck3) as (d2 & deck4 & Hd4 & Hc4); [lia|].
  rewrite Hd4, bind_lift_ok in H.
  assert (Hlen4 : length (cards deck4) = 48%nat)
    by (rewrite Hc4, length_app in Hlen3; simpl in Hlen3; lia).
  cbv zeta in H.
  rewrite Hc1, Hc2, Hc3, Hc4, <- !app_assoc in Hvalid0. cbn [app] in Hvalid0.
  apply Forall_app in Hvalid0 as [Hvalid4 Hv].
  assert (Hvd2 := Forall_inv Hv). apply Forall_inv_tail in Hv.
  assert (Hvd1 := Forall_inv Hv). apply Forall_inv_tail in Hv.
  assert (Hvp2 := Forall_inv Hv). apply Forall_inv_tail in Hv.
  assert (Hvp1 := Forall_inv Hv). clear Hv.
  (* the three cards shown at the deal *)
  cbn [send_cards] in H.
  destruct (send_card_ok p1 w0 Hvp1) as (wa & Hsa & Hea).
  destruct (send_card_ok p2 wa Hvp2) as (wb & Hsb & Heb).
  destruct (send_card_ok d1 wb Hvd1) as (wc & Hsc & Hec).
  assert (Hsends :
    (send_payload RESULT_NOT_OVER p1.1 p1.2;;
     send_payload RESULT_NOT_OVER p2.1 p2.2;; (mret tt : M unit)) w0
    = (Ok tt, wb)).
  { rewrite (bind_ok _ _ _ _ _ Hsa). by rewrite (bind_ok _ _ _ _ _ Hsb). }
  rewrite (bind_ok _ _ _ _ _ Hsends) in H.
  cbn [list_get lookup list_lookup] in H. rewrite bind_lift_ok in H.
  rewrite (bind_ok _ _ _ _ _ Hsc) in H.
  assert (Hdeal : emits w wc (card_event <$> [p1; p2; d1])).
  { apply (emits_app _ w0 _ [] _); [apply emits_nil; by rewrite Hsock0|].
    apply (emits_app _ wa _ [_] _ Hea).
    apply (emits_app _ wb _ [_] [_] Heb Hec). }
  clear Hsa Hsb Hsc Hea Heb Hec Hsends Hinit.
  (* the player turn *)
  apply bind_inv in H as [([[deck5 hand5] bust] & w5 & Ep & H)|[(e & E & ->)|[E ->]]].
  2:{ apply player_turn_spec in E; [|lia]. apply E.
      split; [done|]. split; [forall_cards|]. simpl. lia. }
  2:{ apply player_turn_spec in E; [done|lia]. }
  apply player_turn_spec in Ep; [|lia].
  destruct Ep as (hits & -> & Hdeck5 & Hemp & Hbust & Hmid).
  rewrite bind_lift_ok in H.
  assert (Hvalid5 : Forall valid_card (cards deck5) ∧ Forall valid_card hits).
  { rewrite Hdeck5 in Hvalid4. apply Forall_app in Hvalid4 as [? Hr].
    split; [done|]. by rewrite reverse_Permutation in Hr. }
  destruct Hvalid5 as [Hvalid5 Hvhits].
  assert (Hnhits : (length hits <= 9)%nat).
  { destruct hits as [|h hits _] using rev_ind; [simpl; lia|].
    rewrite length_app. cbn [length].
    destruct hits as [|h' hits _] using rev_ind; [simpl; lia|].
    specialize (Hmid (length (hits ++ [h'])) ltac:(rewrite !length_app; simpl; lia)).
    rewrite take_app_length in Hmid.
    assert (Hv : Forall valid_card ([p1; p2] ++ hits ++ [h'])).
    { apply Forall_app. split; [forall_cards|].
      by apply Forall_app in Hvhits as [? _]. }
    apply hand_value_lower in Hv. rewrite !length_app in *.
    cbn [length] in *. lia. }
  assert (Hlen5 : (length (cards deck5) + length hits = 48)%nat).
  { rewrite Hdeck5, length_app, length_reverse in Hlen4. lia. }
  (* the hidden card *)
  destruct (send_card_ok d2 w5 Hvd2) as (w6 & Hs6 & He6).
  rewrite (bind_ok _ _ _ _ _ Hs6) in H.
  (* the dealer turn *)
  apply bind_inv in H as [([deck7 hand7] & w7 & Ed & H)|[(e & E & ->)|[E ->]]].
  2:{ destruct bust; cbn [negb] in E; [by apply mret_inv in E as [? _]|].
      apply dealer_turn_spec in E; [|lia]. exfalso. apply E.
      split; [done|]. split; [forall_cards|]. simpl. lia. }
  2:{ destruct bust; cbn [negb] in E; [by apply mret_inv in E as [? _]|].
      apply dealer_turn_spec in E; [done|lia]. }
  cbv zeta in H.
  set (res := decide_result bust (hand_value hand7)
                (hand_value ([p1; p2] ++ hits))) in *.
  assert (Hres : 0 <= res < 256).
  { pose proof (decide_result_range bust (hand_value hand7)
                  (hand_value ([p1; p2] ++ hits))) as Hr.
    fold res in Hr. unfold RESULT_TIE, RESULT_LOSS, RESULT_WIN in Hr.
    cbv zeta in Hr. lia. }
  destruct (send_payload_ok res 0 0 w7) as (w8 & Hs8 & He8); [done|lia|lia|].
  rewrite (bind_ok _ _ _ _ _ Hs8) in H.
  apply mret_inv in H as [-> ->].
  assert (Hdealer : exists draws,
    hand7 = [d1; d2] ++ draws
    ∧ Forall valid_card draws
    ∧ emits w6 w7 (card_event <$> draws)
    ∧ (bust = true -> draws = [])
    ∧ (bust = false -> 17 <= hand_value hand7)
    ∧ (forall k, (k < length draws)%nat ->
         hand_value ([d1; d2] ++ take k draws) < 17)).
  { destruct bust; cbn [negb] in Ed.
    - apply mret_inv in Ed as [[= -> ->] ->].
      exists []. split; [done|]. split; [done|].
      split; [by apply emits_nil|]. split; [done|]. split; [done|].
      intros k Hk. simpl in Hk. lia.
    - apply dealer_turn_spec in Ed; [|lia].
      destruct Ed as (draws & -> & Hdeck7 & Hemd & Hfin & Hbef).
      exists draws. split; [done|]. split; [|done].
      rewrite Hdeck7 in Hvalid5. apply Forall_app in Hvalid5 as [_ Hr].
      by rewrite reverse_Permutation in Hr. }
  destruct Hdealer as (draws & -> & Hvdraws & Hemd & Hnodraw & Hstop & Hbef).
  exists p1, p2, d1, d2, hits, draws.
  split; cbn [re_player_hand re_dealer_hand re_player_bust re_result];
    try done.
  - repeat (apply Forall_cons; split; [done|]). by apply Forall_app.
  - apply (emits_app _ w7); [|done].
    rewrite !fmap_app.
    apply (emits_app _ wc); [done|]. apply (emits_app _ w5); [done|].
    by apply (emits_app _ w6 _ [_] _).
Qed.

Lemma filter_terminal_card_events (cs : list card) (tail : list (Z * Z * Z)) :
  filter is_terminal ((card_event <$> cs) ++ tail) = filter is_terminal tail.
Proof.
  induction cs as [|c cs IH]; [done|].
  cbn [fmap list_fmap app]. rewrite filter_cons.
  rewrite decide_False; [exact IH|].
  unfold is_terminal, card_event. cbn [fst]. rewrite Z.eqb_refl. exact id.
Qed.

(** ** The UTF-8 codec *)

Lemma decode_1 b1 rest :
  b2z b1 < 0x80 ->
  bytes_decode_ignore (b1 :: rest) = b2z b1 :: bytes_decode_ignore rest.
Proof.
  intros H. cbn [bytes_decode_ignore].
  by destruct (Z.ltb_spec (b2z b1) 0x80); [|lia].
Qed.

Ltac ltb_true H :=
  match type of H with
  | ?a < ?b => replace (a <? b) with true by (symmetry; apply Z.ltb_lt; exact H)
  end.

Ltac ltb_false x y :=
  replace (x <? y) with false by (symmetry; apply Z.ltb_ge; lia).

Lemma decode_2 b1 b2 rest :
  0xC2 <= b2z b1 < 0xE0 ->
  is_cont (b2z b2) = true ->
  bytes_decode_ignore (b1 :: b2 :: rest)
  = (b2z b1 * 64 + b2z b2 - 0x3080) :: bytes_decode_ignore rest.
Proof.
  intros H1 H2. cbn [bytes_decode_ignore].
  ltb_false (b2z b1) 0x80. ltb_false (b2z b1) 0xC2.
  replace (b2z b1 <? 0xE0) with true by (symmetry; apply Z.ltb_lt; lia).
  by rewrite H2.
Qed.

Lemma decode_3 b1 b2 b3 rest :
  0xE0 <= b2z b1 < 0xF0 ->
  is_cont (b2z b2) = true ->
  (if b2z b2 <? 0xA0 then b2z b1 =? 0xE0 else b2z b1 =? 0xED) = false ->
  is_cont (b2z b3) = true ->
  bytes_decode_ignore (b1 :: b2 :: b3 :: rest)
  = (b2z b1 * 4096 + b2z b2 * 64 + b2z b3 - 0xE2080)
      :: bytes_decode_ignore rest.
Proof.
  intros H1 H2 Hx H3. cbn [bytes_decode_ignore].
  ltb_false (b2z b1) 0x80. ltb_false (b2z b1) 0xC2. ltb_false (b2z b1) 0xE0.
  replace (b2z b1 <? 0xF0) with true by (symmetry; apply Z.ltb_lt; lia).
  by rewrite H2, Hx, H3.
Qed.

Lemma decode_4 b1 b2 b3 b4 rest :
  0xF0 <= b2z b1 < 0xF5 ->
  is_cont (b2z b2) = true ->
  (if b2z b2 <? 0x90 then b2z b1 =? 0xF0 else b2z b1 =? 0xF4) = false ->
  is_cont (b2z b3) = true ->
  is_cont (b2z b4) = true ->
  bytes_decode_ignore (b1 :: b2 :: b3 :: b4 :: rest)
  = (b2z b1 * 262144 + b2z b2 * 4096 + b2z b3 * 64 + b2z b4 - 0x3C82080)
      :: bytes_decode_ignore rest.
Proof.
  intros H1 H2 Hx H3 H4. cbn [bytes_decode_ignore].
  ltb_false (b2z b1) 0x80. ltb_false (b2z b1) 0xC2. ltb_false (b2z b1) 0xE0.
  ltb_false (b2z b1) 0xF0.
  replace (b2z b1 <? 0xF5) with true by (symmetry; apply Z.ltb_lt; lia).
  by rewrite H2, Hx, H3, H4.
Qed.

(** A multi-byte sequence cut by the end of the data is dropped. *)
Lemma decode_cut_1 b1 :
  0xC2 <= b2z b1 < 0xF5 -> bytes_decode_ignore [b1] = [].
Proof.
  intros H1. cbn [bytes_decode_ignore].
  ltb_false (b2z b1) 0x80. ltb_false (b2z b1) 0xC2.
  destruct (b2z b1 <? 0xE0); [done|].
  destruct (b2z b1 <? 0xF0); [done|].
  replace (b2z b1 <? 0xF5) with true by (symmetry; apply Z.ltb_lt; lia).
  done.
Qed.

Lemma decode_cut_2 b1 b2 :
  0xE0 <= b2z b1 < 0xF5 ->
  is_cont (b2z b2) = true ->
  (if b2z b1 <? 0xF0
   then (if b2z b2 <? 0xA0 then b2z b1 =? 0xE0 else b2z b1 =? 0xED)
   else (if b2z b2 <? 0x90 then b2z b1 =? 0xF0 else b2z b1 =? 0xF4)) = false ->
  bytes_decode_ignore [b1; b2] = [].
Proof.
  intros H1 H2 Hx. cbn [bytes_decode_ignore].
  ltb_false (b2z b1) 0x80. ltb_false (b2z b1) 0xC2. ltb_false (b2z b1) 0xE0.
  destruct (b2z b1 <? 0xF0).
  - by rewrite H2, Hx.
  - replace (b2z b1 <? 0xF5) with true by (symmetry; apply Z.ltb_lt; lia).
    by rewrite H2, Hx.
Qed.

Lemma decode_cut_3 b1 b2 b3 :
  0xF0 <= b2z b1 < 0xF5 ->
  is_cont (b2z b2) = true ->
  (if b2z b2 <? 0x90 then b2z b1 =? 0xF0 else b2z b1 =? 0xF4) = false ->
  is_cont (b2z b3) = true ->
  bytes_decode_ignore [b1; b2; b3] = [].
Proof.
  intros H1 H2 Hx H3. cbn [bytes_decode_ignore].
  ltb_false (b2z b1) 0x80. ltb_false (b2z b1) 0xC2. ltb_false (b2z b1) 0xE0.
  ltb_false (b2z b1) 0xF0.
  replace (b2z b1 <? 0xF5) with true by (symmetry; apply Z.ltb_lt; lia).
  by rewrite H2, Hx, H3.
Qed.

Lemma is_surrogate_false c :
  is_surrogate c = false <-> c < 0xD800 ∨ 0xDFFF < c.
Proof.
  unfold is_surrogate.
  destruct (Z.leb_spec 0xD800 c), (Z.leb_spec c 0xDFFF); cbn; split;
    (discriminate || lia || auto).
Qed.

Lemma is_cont_true x : 0x80 <= x < 0xC0 -> is_cont x = true.
Proof.
  intros H. unfold is_cont.
  apply andb_true_iff. split; [apply Z.leb_le|apply Z.ltb_lt]; lia.
Qed.

Ltac dm := Z.div_mod_to_equations; lia.

Ltac pose_b2z x H :=
  assert (H : b2z (z2b x) = x) by (apply b2z_z2b; dm).

Ltac if_false :=
  match goal with
  | |- (if ?a <? ?b then _ else _) = false =>
      destruct (Z.ltb_spec a b); apply Z.eqb_neq; dm
  end.

Lemma decode_encode_cp c rest :
  is_scalar c ->
  bytes_decode_ignore (utf8_encode_cp c ++ rest)
  = c :: bytes_decode_ignore rest.
Proof.
  intros [Hc Hs]. apply is_surrogate_false in Hs. unfold utf8_encode_cp.
  destruct (Z.ltb_spec c 0x80); [|destruct (Z.ltb_spec c 0x800);
    [|destruct (Z.ltb_spec c 0x10000)]]; cbn [app].
  - pose_b2z c E1. rewrite decode_1 by lia. by rewrite E1.
  - pose_b2z (0xC0 + c / 64) E1. pose_b2z (0x80 + c mod 64) E2.
    rewrite decode_2; rewrite ?E1, ?E2.
    + f_equal. dm.
    + dm.
    + apply is_cont_true. dm.
  - pose_b2z (0xE0 + c / 4096) E1. pose_b2z (0x80 + (c / 64) mod 64) E2.
    pose_b2z (0x80 + c mod 64) E3.
    rewrite decode_3; rewrite ?E1, ?E2, ?E3.
    + f_equal. dm.
    + dm.
    + apply is_cont_true. dm.
    + if_false.
    + apply is_cont_true. dm.
  - pose_b2z (0xF0 + c / 262144) E1. pose_b2z (0x80 + (c / 4096) mod 64) E2.
    pose_b2z (0x80 + (c / 64) mod 64) E3. pose_b2z (0x80 + c mod 64) E4.
    rewrite decode_4; rewrite ?E1, ?E2, ?E3, ?E4.
    + f_equal. dm.
    + dm.
    + apply is_cont_true. dm.
    + if_false.
    + apply is_cont_true. dm.
    + apply is_cont_true. dm.
Qed.

Lemma utf8_len_cases c :
  (c < 0x80 ∧ utf8_encode_cp c = [z2b c])
  ∨ (0x80 <= c < 0x800
     ∧ utf8_encode_cp c = [z2b (0xC0 + c / 64); z2b (0x80 + c mod 64)])
  ∨ (0x800 <= c < 0x10000
     ∧ utf8_encode_cp c
       = [z2b (0xE0 + c / 4096); z2b (0x80 + (c / 64) mod 64);
          z2b (0x80 + c mod 64)])
  ∨ (0x10000 <= c
     ∧ utf8_encode_cp c
       = [z2b (0xF0 + c / 262144); z2b (0x80 + (c / 4096) mod 64);
          z2b (0x80 + (c / 64) mod 64); z2b (0x80 + c mod 64)]).
Proof.
  unfold utf8_encode_cp.
  destruct (Z.ltb_spec c 0x80); [auto|].
  destruct (Z.ltb_spec c 0x800); [auto|].
  destruct (Z.ltb_spec c 0x10000); auto 6.
Qed.

Lemma decode_cut c n :
  is_scalar c ->
  (n < length (utf8_encode_cp c))%nat ->
  bytes_decode_ignore (take n (utf8_encode_cp c)) = [].
Proof.
  intros [Hc Hs] Hn. apply is_surrogate_false in Hs.
  destruct (utf8_len_cases c) as [[H E]|[[H E]|[[H E]|[H E]]]];
    rewrite E in *; clear E; cbn [length] in Hn.
  - by replace n with O by lia.
  - pose_b2z (0xC0 + c / 64) E1.
    destruct n as [|[|n]]; [done| |lia]. cbn [take].
    apply decode_cut_1. rewrite E1. dm.
  - pose_b2z (0xE0 + c / 4096) E1. pose_b2z (0x80 + (c / 64) mod 64) E2.
    destruct n as [|[|[|n]]]; [done| | |lia]; cbn [take].
    + apply decode_cut_1. rewrite E1. dm.
    + apply decode_cut_2; rewrite ?E1, ?E2.
      * dm.
      * apply is_cont_true. dm.
      * replace (0xE0 + c / 4096 <? 0xF0) with true
          by (symmetry; apply Z.ltb_lt; dm).
        if_false.
  - pose_b2z (0xF0 + c / 262144) E1. pose_b2z (0x80 + (c / 4096) mod 64) E2.
    pose_b2z (0x80 + (c / 64) mod 64) E3.
    destruct n as [|[|[|[|n]]]]; [done| | | |lia]; cbn [take].
    + apply decode_cut_1. rewrite E1. dm.
    + apply decode_cut_2; rewrite ?E1, ?E2.
      * dm.
      * apply is_cont_true. dm.
      * replace (0xF0 + c / 262144 <? 0xF0) with false
          by (symmetry; apply Z.ltb_ge; dm).
        if_false.
    + apply decode_cut_3; rewrite ?E1, ?E2, ?E3.
      * dm.
      * apply is_cont_true. dm.
      * if_false.
      * apply is_cont_true. dm.
Qed.

Lemma str_encode_scalar_cons c s :
  is_scalar c ->
  str_encode_ignore (c :: s) = utf8_encode_cp c ++ str_encode_ignore s.
Proof. intros [_ Hs]. cbn [str_encode_ignore]. by rewrite Hs. Qed.

Lemma decode_take_encode s : forall n,
  Forall is_scalar s ->
  bytes_decode_ignore (take n (str_encode_ignore s)) = fit n s.
Proof.
  induction s as [|c s IH]; intros n Hs.
  - by destruct n.
  - apply Forall_cons in Hs as [Hc Hs].
    rewrite str_encode_scalar_cons by done. cbn [fit].
    destruct (Nat.leb_spec (length (utf8_encode_cp c)) n).
    + rewrite take_app_ge by done.
      rewrite decode_encode_cp by done. by rewrite IH.
    + rewrite take_app_le by lia. by apply decode_cut.
Qed.

Lemma fit_all n s :
  (length (str_encode_ignore s) <= n)%nat -> Forall is_scalar s -> fit n s = s.
Proof.
  revert n. induction s as [|c s IH]; intros n Hlen Hs; [done|].
  apply Forall_cons in Hs as [Hc Hs].
  rewrite str_encode_scalar_cons, length_app in Hlen by done.
  cbn [fit]. destruct (Nat.leb_spec (length (utf8_encode_cp c)) n); [|lia].
  f_equal. apply IH; [lia|done].
Qed.

Lemma decode_encode s :
  Forall is_scalar s -> bytes_decode_ignore (str_encode_ignore s) = s.
Proof.
  intros Hs. rewrite <- (firstn_all (str_encode_ignore s)).
  rewrite decode_take_encode by done. by apply fit_all.
Qed.

(** ** Name fields *)

Lemma str_encode_drop_surrogates s :
  str_encode_ignore (drop_surrogates s) = str_encode_ignore s.
Proof.
  induction s as [|c s IH]; [done|].
  unfold drop_surrogates. rewrite filter_cons. fold (drop_surrogates s).
  cbn [str_encode_ignore].
  destruct (is_surrogate c) eqn:E.
  - by rewrite decide_False by done.
  - rewrite decide_True by done. cbn [str_encode_ignore]. by rewrite E, IH.
Qed.

Lemma drop_surrogates_scalar s :
  Forall (fun c => 0 <= c <= 0x10FFFF) s -> Forall is_scalar (drop_surrogates s).
Proof.
  intros Hs. unfold drop_surrogates. apply Forall_forall. intros c Hin.
  apply list_elem_of_filter in Hin as [Hc Hin]. split; [|done].
  by apply (proj1 (Forall_forall _ _) Hs).
Qed.

Lemma drop_surrogates_id s : Forall is_scalar s -> drop_surrogates s = s.
Proof.
  induction 1 as [|c s [_ Hc] _ IH]; [done|].
  unfold drop_surrogates. rewrite filter_cons, decide_True by done.
  f_equal. exact IH.
Qed.

Lemma before_nul_id s : 0 ∉ s -> before_nul s = s.
Proof.
  induction s as [|c s IH]; [done|]. intros Hn.
  apply not_elem_of_cons in Hn as [Hc Hn]. cbn [before_nul].
  destruct (Z.eqb_spec c 0); [congruence|]. f_equal. by apply IH.
Qed.

Lemma before_nul_scalar s : Forall is_scalar s -> Forall is_scalar (before_nul s).
Proof.
  induction 1 as [|c s Hc _ IH]; [done|]. cbn [before_nul].
  destruct (c =? 0); [done|]. by apply Forall_cons.
Qed.

Lemma z2b_zero_iff x : 0 <= x < 256 -> z2b x = x00 <-> x = 0.
Proof.
  intros Hx. split; [|by intros ->].
  intros H. apply (f_equal b2z) in H. by rewrite b2z_z2b in H.
Qed.

Lemma encode_cp_no_nul c :
  is_scalar c -> c <> 0 -> Forall (fun b => b <> x00) (utf8_encode_cp c).
Proof.
  intros [Hc Hs] Hne.
  destruct (utf8_len_cases c) as [[H E]|[[H E]|[[H E]|[H E]]]]; rewrite E;
    repeat (apply Forall_cons; split); try apply Forall_nil_2;
    intros Hz; apply z2b_zero_iff in Hz; dm.
Qed.

Lemma split_head_app sep l1 l2 :
  Forall (fun b => b <> sep) l1 ->
  split_head sep (l1 ++ l2) = l1 ++ split_head sep l2.
Proof.
  induction 1 as [|b l1 Hb _ IH]; [done|]. cbn [app split_head].
  rewrite decide_False by done. by rewrite IH.
Qed.

Lemma split_head_replicate sep l k :
  split_head sep (l ++ replicate k sep) = split_head sep l.
Proof.
  induction l as [|b l IH]; cbn [app split_head].
  - destruct k; [done|]. cbn [replicate split_head]. by rewrite decide_True.
  - destruct (decide (b = sep)); [done|]. by rewrite IH.
Qed.

Lemma split_head_take sep l : forall n,
  split_head sep (take n l) = take n (split_head sep l).
Proof.
  induction l as [|b l IH]; intros [|n]; cbn [take split_head]; try done.
  destruct (decide (b = sep)); [done|]. cbn [take]. by rewrite IH.
Qed.

Lemma length_split_head sep l : (length (split_head sep l) <= length l)%nat.
Proof.
  induction l as [|b l IH]; cbn [split_head length]; [lia|].
  destruct (decide (b = sep)); cbn [length]; lia.
Qed.

Lemma split_head_encode s :
  Forall is_scalar s ->
  split_head x00 (str_encode_ignore s) = str_encode_ignore (before_nul s).
Proof.
  induction 1 as [|c s Hc Hs IH]; [done|].
  rewrite str_encode_scalar_cons by done. cbn [before_nul].
  destruct (Z.eqb_spec c 0) as [->|Hne].
  - reflexivity.
  - rewrite split_head_app by (by apply encode_cp_no_nul).
    rewrite str_encode_scalar_cons by done. by rewrite IH.
Qed.

Lemma split_head_team_name name :
  split_head x00 (encode_team_name name)
  = take TEAM_NAME_LEN (split_head x00 (str_encode_ignore name)).
Proof.
  unfold encode_team_name, ljust.
  destruct (Nat.ltb_spec TEAM_NAME_LEN (length (str_encode_ignore name))).
  - apply split_head_take.
  - rewrite split_head_replicate. rewrite firstn_all2; [done|].
    pose proof (length_split_head x00 (str_encode_ignore name)). lia.
Qed.

(** The name that comes back from a name field: the surrogates are lost
    at encoding, the field ends at the first NUL, and there is room for
    32 bytes of whole characters. *)
Lemma team_name_round_trip name :
  Forall (fun c => 0 <= c <= 0x10FFFF) name ->
  decode_team_name (encode_team_name name)
  = fit TEAM_NAME_LEN (before_nul (drop_surrogates name)).
Proof.
  intros Hname. unfold decode_team_name.
  rewrite split_head_team_name, <- str_encode_drop_surrogates.
  pose proof (drop_surrogates_scalar name Hname) as Hs.
  rewrite split_head_encode by done.
  apply decode_take_encode. by apply before_nul_scalar.
Qed.

Lemma fit_prefix s : forall n, fit n s `prefix_of` s.
Proof.
  induction s as [|c s IH]; intros n; cbn [fit]; [done|].
  destruct (_ <=? _)%nat; [|apply prefix_nil].
  by apply prefix_cons.
Qed.

Lemma fit_fits s : forall n,
  Forall is_scalar s -> (length (str_encode_ignore (fit n s)) <= n)%nat.
Proof.
  induction s as [|c s IH]; intros n Hs; cbn [fit]; [simpl; lia|].
  apply Forall_cons in Hs as [Hc Hs].
  destruct (Nat.leb_spec (length (utf8_encode_cp c)) n); [|simpl; lia].
  rewrite str_encode_scalar_cons, length_app by done.
  specialize (IH (n - length (utf8_encode_cp c))%nat Hs). lia.
Qed.

Lemma fit_longest s : forall n p,
  Forall is_scalar s -> p `prefix_of` s ->
  (length (str_encode_ignore p) <= n)%nat -> p `prefix_of` fit n s.
Proof.
  induction s as [|c s IH]; intros n p Hs Hp Hlen.
  - by apply prefix_nil_inv in Hp as ->.
  - destruct p as [|c' p]; [apply prefix_nil|].
    apply Forall_cons in Hs as [Hc Hs].
    apply prefix_cons_inv_1 in Hp as Hcc. subst c'.
    apply prefix_cons_inv_2 in Hp.
    rewrite str_encode_scalar_cons, length_app in Hlen by done.
    cbn [fit]. destruct (Nat.leb_spec (length (utf8_encode_cp c)) n); [|lia].
    apply prefix_cons. apply IH; [done|done|lia].
Qed.

(** ** The Offer round trip *)

Lemma unpack_pack_offer tcp_port server_name :
  0 <= tcp_port < 65536 ->
  exists pkt,
    pack_offer tcp_port server_name = Ok pkt
    ∧ length pkt = _OFFER_SIZE
    ∧ unpack_offer pkt
      = Ok (tcp_port, decode_team_name (encode_team_name server_name)).
Proof.
  intros Hp. eexists. split; [by apply pack_offer_layout|].
  assert (Hlen : length (be_encode 4 MAGIC_COOKIE ++ be_encode 1 OFFER_TYPE
                    ++ be_encode 2 tcp_port ++ encode_team_name server_name)
                 = _OFFER_SIZE).
  { rewrite !length_app, !length_be_encode, length_encode_team_name.
    reflexivity. }
  split; [done|].
  rewrite unpack_offer_long by (by rewrite Hlen).
  change (be_encode 4 MAGIC_COOKIE ++ be_encode 1 OFFER_TYPE ++ ?x)
    with (be_encode 5 (MAGIC_COOKIE * 256 + OFFER_TYPE) ++ x).
  replace (msg_cookie _) with MAGIC_COOKIE by reflexivity.
  replace (msg_type _) with OFFER_TYPE by reflexivity.
  rewrite !Z.eqb_refl. cbn [negb orb]. do 2 f_equal.
  - rewrite drop_app_length' by (by rewrite length_be_encode).
    rewrite take_app_length' by (by rewrite length_be_encode).
    by apply be_decode_encode.
  - rewrite app_assoc.
    rewrite drop_app_length' by (rewrite length_app, !length_be_encode; lia).
    rewrite firstn_all2; [done|]. rewrite length_encode_team_name.
    unfold TEAM_NAME_LEN. lia.
Qed.

(** C7 (as amended). For a port in 0..65535 and a name made of Unicode
    scalar values other than the NUL character, the Offer round-trip
    gives back the port and the longest prefix of the name whose UTF-8
    encoding fits in 32 bytes: the name itself when it is at most 32
    bytes, and otherwise the name cut at 32 bytes, less the bytes of a
    character that the cut would split.  Encoding never fails for a
    port in range, whatever the name: the packet is always 39 bytes. *)
Theorem offer_round_trip (tcp_port : Z) (server_name : pystr) :
  0 <= tcp_port < 65536 ->
  Forall is_scalar server_name ->
  0 ∉ server_name ->
  (exists pkt,
     pack_offer tcp_port server_name = Ok pkt
     ∧ unpack_offer pkt = Ok (tcp_port, fit 32 server_name))
  ∧ ((length (str_encode_ignore server_name) <= 32)%nat ->
     fit 32 server_name = server_name)
  ∧ fit 32 server_name `prefix_of` server_name
  ∧ (length (str_encode_ignore (fit 32 server_name)) <= 32)%nat
  ∧ (forall p, p `prefix_of` server_name ->
       (length (str_encode_ignore p) <= 32)%nat ->
       p `prefix_of` fit 32 server_name)
  ∧ (forall any_name : pystr,
       exists pkt, pack_offer tcp_port any_name = Ok pkt
         ∧ length pkt = 39%nat).
Proof.
  intros Hp Hs Hnul.
  split.
  { destruct (unpack_pack_offer tcp_port server_name Hp)
      as (pkt & Hpack & _ & Hunpack).
    exists pkt. split; [done|]. rewrite Hunpack. do 2 f_equal.
    rewrite team_name_round_trip.
    - by rewrite drop_surrogates_id, before_nul_id.
    - eapply Forall_impl; [exact Hs|]. by intros c [? _]. }
  split; [intros Hlen; by apply fit_all|].
  split; [apply fit_prefix|].
  split; [by apply fit_fits|].
  split; [intros p; by apply fit_longest|].
  intros any_name.
  destruct (unpack_pack_offer tcp_port any_name Hp) as (pkt & Hpack & Hl & _).
  by exists pkt.
Qed.

(** C7 (as stated) fails: a name with a NUL character in it is 3 bytes of
    UTF-8 and comes back cut at the NUL. *)
Lemma offer_name_with_nul_comes_back_cut :
  (length (str_encode_ignore name_with_nul) <= 32)%nat
  ∧ pack_offer 5000 name_with_nul
    = Ok (packed (pack_offer 5000 name_with_nul))
  ∧ unpack_offer (packed (pack_offer 5000 name_with_nul)) = Ok (5000, [97])
  ∧ unpack_offer (packed (pack_offer 5000 name_with_nul))
    <> Ok (5000, name_with_nul).
Proof.
  split; [vm_compute; lia|].
  split; [vm_compute; reflexivity|].
  split; [vm_compute; reflexivity|].
  vm_compute. discriminate.
Qed.

(** A name of 33 bytes whose 32nd and 33rd bytes are one character comes
    back as its first 31 bytes: the half character left by the cut is
    dropped by the decoder. *)
Lemma offer_name_cut_in_a_character :
  length (str_encode_ignore name_cut) = 33%nat
  ∧ pack_offer 5000 name_cut = Ok (packed (pack_offer 5000 name_cut))
  ∧ unpack_offer (packed (pack_offer 5000 name_cut))
    = Ok (5000, replicate 31 97).
Proof.
  split; [vm_compute; reflexivity|].
  split; vm_compute; reflexivity.
Qed.

(** ** A round that is played to its end *)

Lemma send_payload_input res rank suit w r w' :
  send_payload res rank suit w = (r, w') ->
  sk_in (w_sock w') = sk_in (w_sock w).
Proof.
  unfold send_payload. intros H.
  apply bind_inv in H as [(pkt & w1 & E & H)|[(e & E & ->)|[E ->]]];
    apply lift_inv in E as [E ->]; [|done..].
  by injection H as <- <-.
Qed.

Lemma pending_same_input w w' :
  sk_in (w_sock w') = sk_in (w_sock w) -> pending w' = pending w.
Proof. unfold pending. by intros ->. Qed.

Lemma dealer_turn_input fuel : forall deck hand w r w',
  dealer_turn fuel deck hand w = (r, w') ->
  sk_in (w_sock w') = sk_in (w_sock w).
Proof.
  induction fuel as [|fuel IH]; intros deck hand w r w' H;
    cbn [dealer_turn] in H; destruct (hand_value hand <? 17);
    try (by injection H as <- <-).
  apply bind_inv in H as [([c deck1] & w2 & E & H)|[(e & E & ->)|[E ->]]];
    apply lift_inv in E as [E ->]; [|done..].
  cbv zeta in H.
  apply bind_inv in H as [([] & w3 & E4 & H)|[(e & E4 & ->)|[E4 ->]]];
    apply send_payload_input in E4; [|done..].
  apply IH in H. congruence.
Qed.

(** A round is played to its end when the player stands at once. *)
Lemma round_completes_on_stand w rest :
  pending w = stand_packet ++ rest ->
  exists re w', play_round w = (Ok re, w') ∧ re_player_bust re = false
    ∧ pending w' = rest.
Proof.
  intros Hpend. unfold play_round.
  destruct (Deck_init_spec w) as (deck0 & w0 & Hinit & Hperm & Hsock0).
  rewrite (bind_ok _ _ _ _ _ Hinit).
  assert (Hlen0 : length (cards deck0) = 52%nat)
    by (by rewrite Hperm, all_cards_length).
  assert (Hvalid0 : Forall valid_card (cards deck0)).
  { rewrite Hperm. apply Forall_forall. intros [rank suit] Hin.
    by apply elem_of_all_cards in Hin. }
  destruct (Deck_draw_ok deck0) as (p1 & deck1 & Hd1 & Hc1); [lia|].
  rewrite Hd1, bind_lift_ok.
  assert (Hlen1 : length (cards deck1) = 51%nat)
    by (rewrite Hc1, length_app in Hlen0; simpl in Hlen0; lia).
  destruct (Deck_draw_ok deck1) as (p2 & deck2 & Hd2 & Hc2); [lia|].
  rewrite Hd2, bind_lift_ok.
  assert (Hlen2 : length (cards deck2) = 50%nat)
    by (rewrite Hc2, length_app in Hlen1; simpl in Hlen1; lia).
  destruct (Deck_draw_ok deck2) as (d1 & deck3 & Hd3 & Hc3); [lia|].
  rewrite Hd3, bind_lift_ok.
  assert (Hlen3 : length (cards deck3) = 49%nat)
    by (rewrite Hc3, length_app in Hlen2; simpl in Hlen2; lia).
  destruct (Deck_draw_ok deck3) as (d2 & deck4 & Hd4 & Hc4); [lia|].
  rewrite Hd4, bind_lift_ok.
  assert (Hlen4 : length (cards deck4) = 48%nat)
    by (rewrite Hc4, length_app in Hlen3; simpl in Hlen3; lia).
  cbv zeta.
  rewrite Hc1, Hc2, Hc3, Hc4, <- !app_assoc in Hvalid0. cbn [app] in Hvalid0.
  apply Forall_app in Hvalid0 as [Hvalid4 Hv].
  assert (Hvd2 := Forall_inv Hv). apply Forall_inv_tail in Hv.
  assert (Hvd1 := Forall_inv Hv). apply Forall_inv_tail in Hv.
  assert (Hvp2 := Forall_inv Hv). apply Forall_inv_tail in Hv.
  assert (Hvp1 := Forall_inv Hv). clear Hv.
  cbn [send_cards].
  destruct (send_card_ok p1 w0 Hvp1) as (wa & Hsa & _).
  destruct (send_card_ok p2 wa Hvp2) as (wb & Hsb & _).
  destruct (send_card_ok d1 wb Hvd1) as (wc & Hsc & _).
  assert (Hsends :
    (send_payload RESULT_NOT_OVER p1.1 p1.2;;
     send_payload RESULT_NOT_OVER p2.1 p2.2;; (mret tt : M unit)) w0
    = (Ok tt, wb)).
  { rewrite (bind_ok _ _ _ _ _ Hsa). by rewrite (bind_ok _ _ _ _ _ Hsb). }
  rewrite (bind_ok _ _ _ _ _ Hsends).
  cbn [list_get lookup list_lookup]. rewrite bind_lift_ok.
  rewrite (bind_ok _ _ _ _ _ Hsc).
  assert (Hpc : pending wc = stand_packet ++ rest).
  { rewrite <- Hpend. unfold pending.
    rewrite (send_payload_input _ _ _ _ _ _ Hsc),
      (send_payload_input _ _ _ _ _ _ Hsb),
      (send_payload_input _ _ _ _ _ _ Hsa). by rewrite Hsock0. }
  (* the player stands *)
  destruct (recv_exact_spec CLIENT_PAYLOAD_SIZE wc) as (w5 & _ & Hrecv).
  rewrite decide_True in Hrecv
    by (rewrite Hpc, length_app; change (length stand_packet) with 10%nat;
        unfold CLIENT_PAYLOAD_SIZE; lia).
  destruct Hrecv as [Hrecv Hrest].
  rewrite Hpc in Hrecv, Hrest.
  change CLIENT_PAYLOAD_SIZE with (length stand_packet) in Hrecv, Hrest.
  rewrite take_app_length in Hrecv. rewrite drop_app_length in Hrest.
  change (length stand_packet) with CLIENT_PAYLOAD_SIZE in Hrecv.
  assert (Hpt : player_turn (S (length (cards deck4))) deck4 [p1; p2] wc
                = (Ok (deck4, [p1; p2], false), w5)).
  { cbn [player_turn]. rewrite (bind_ok _ _ _ _ _ Hrecv).
    change (unpack_client_payload stand_packet) with (@Ok pystr (lit "Stand")).
    rewrite bind_lift_ok. by rewrite decide_False by discriminate. }
  rewrite (bind_ok _ _ _ _ _ Hpt).
  cbv beta iota zeta. rewrite bind_lift_ok.
  destruct (send_card_ok d2 w5 Hvd2) as (w6 & Hs6 & _).
  rewrite (bind_ok _ _ _ _ _ Hs6). cbn [negb].
  destruct (dealer_turn (S (length (cards deck4))) deck4 [d1; d2] w6)
    as [[[deck7 hand7]|e|] w7] eqn:Ed;
    pose proof (dealer_turn_spec _ _ _ _ _ _ (Nat.lt_succ_diag_r _) Ed) as Hd.
  2:{ exfalso. apply Hd. split; [done|]. split; [forall_cards|].
      simpl. lia. }
  2:{ done. }
  rewrite (bind_ok _ _ _ _ _ Ed). cbv beta iota zeta.
  set (res := decide_result false (hand_value hand7) (hand_value [p1; p2])).
  assert (Hres : 0 <= res < 256).
  { pose proof (decide_result_range false (hand_value hand7)
                  (hand_value [p1; p2])) as Hr.
    fold res in Hr. unfold RESULT_TIE, RESULT_LOSS, RESULT_WIN in Hr.
    cbv zeta in Hr. lia. }
  destruct (send_payload_ok res 0 0 w7) as (w8 & Hs8 & _); [done|lia|lia|].
  rewrite (bind_ok _ _ _ _ _ Hs8).
  eexists _, w8. split; [reflexivity|]. split; [done|].
  rewrite <- Hrest. unfold pending.
  rewrite (send_payload_input _ _ _ _ _ _ Hs8).
  rewrite (dealer_turn_input _ _ _ _ _ _ Ed).
  by rewrite (send_payload_input _ _ _ _ _ _ Hs6).
Qed.

(** ** The theorems at concrete inputs *)

Lemma fresh_deck_and_draws_witness :
  exists d w',
    Deck_init (sample_world []) = (Ok d, w')
    ∧ length (cards d) = 52%nat
    ∧ exists drawn d',
        draw_many 5 d = Ok (drawn, d')
        ∧ length drawn = 5%nat
        ∧ length (cards d') = 47%nat.
Proof.
  destruct (fresh_deck_and_draws (sample_world []) 5 ltac:(lia))
    as (d & w' & Hinit & Hlen & _ & _ & _ & Hdraw & _).
  destruct Hdraw as (drawn & d' & Hd & Hn & Hrest & _).
  exists d, w'. split; [exact Hinit|]. split; [exact Hlen|].
  exists drawn, d'. split; [exact Hd|]. split; [exact Hn|exact Hrest].
Defined.

Lemma offer_round_trip_witness :
  exists pkt,
    pack_offer 13122 (lit "BlackijeckyServer") = Ok pkt
    ∧ unpack_offer pkt = Ok (13122, lit "BlackijeckyServer").
Proof.
  assert (Hp : 0 <= 13122 < 65536) by lia.
  assert (Hs : Forall is_scalar (lit "BlackijeckyServer"))
    by (apply (bool_decide_unpack _); vm_compute; reflexivity).
  assert (Hn : 0 ∉ lit "BlackijeckyServer")
    by (apply (bool_decide_unpack _); vm_compute; reflexivity).
  destruct (offer_round_trip 13122 (lit "BlackijeckyServer") Hp Hs Hn)
    as ((pkt & Hpack & Hunpack) & Hfit & _).
  exists pkt. split; [exact Hpack|].
  rewrite Hfit in Hunpack; [exact Hunpack|]. vm_compute. lia.
Defined.


Lemma rounds_not_range_checked_witness :
  let name := replicate 32 x00 in
  let w := sample_world [request_bytes 0 name] in
  unpack_request (request_bytes 0 name ++ []) = Ok (0, decode_team_name name)
  ∧ exists w',
      handle_client w = (Ok [], w')
      ∧ sk_out (w_sock w') = []
      ∧ sk_closed (w_sock w') = true.
Proof.
  intros name w.
  destruct (rounds_not_range_checked 0 name [] w ltac:(lia) eq_refl)
    as [Hdec Hsession].
  split; [exact Hdec|].
  destruct Hsession as (w' & Hrun & Hout & Hclosed & _).
  { vm_compute. reflexivity. }
  exists w'. split; [exact Hrun|]. split; [exact Hout|exact Hclosed].
Defined.

(** ** The session *)

Lemma unpack_request_cases data :
  (exists v, unpack_request data = Ok v)
  ∨ exists msg, unpack_request data = Raise (ValueError msg).
Proof.
  destruct (decide (_REQUEST_SIZE <= length data)%nat) as [Hlen|Hlen].
  - rewrite unpack_request_long by done.
    destruct (_ || _); eauto.
  - unfold unpack_request. rewrite unpack_short_ltb by lia. eauto.
Qed.

Lemma play_rounds_spec n : forall w r w',
  play_rounds n w = (r, w') ->
  match r with
  | Ok played => length played = n
  | Raise e => peer_error e
  | OutOfFuel => False
  end.
Proof.
  induction n as [|n IH]; intros w r w' H; cbn [play_rounds] in H.
  - by apply mret_inv in H as [-> _].
  - apply bind_inv in H as [(re & w1 & E & H)|[(e & E & ->)|[E ->]]];
      [|by apply play_round_spec in E..].
    apply bind_inv in H as [(res & w2 & E2 & H)|[(e & E2 & ->)|[E2 ->]]];
      [|by apply IH in E2..].
    apply IH in E2. apply mret_inv in H as [-> _]. simpl. by rewrite E2.
Qed.

(** A session always closes its socket, and ends either normally or on
    an exception caused by the peer: the stream ended too early or a
    message did not decode. *)
Lemma handle_client_spec w r w' :
  handle_client w = (r, w') ->
  sk_closed (w_sock w') = true
  ∧ match r with
    | Ok _ => True
    | Raise e => peer_error e
    | OutOfFuel => False
    end.
Proof.
  unfold handle_client, try_finally.
  destruct ((recv_exact REQUEST_SIZE ≫= _) w) as [r0 w0] eqn:E.
  intros [= <- <-]. split; [done|].
  apply bind_inv in E as [(data & w1 & E1 & H)|[(e & E1 & ->)|[E1 ->]]].
  2:{ apply recv_exact_cases in E1 as (_ & [[? ?]|[msg ?]]); [done|].
      simplify_eq. left. eauto. }
  2:{ apply recv_exact_cases in E1 as (_ & [[? ?]|[? ?]]); done. }
  pose proof (unpack_request_cases data) as Hc.
  apply bind_inv in H as [([rounds name] & w2 & E2 & H)|[(e & E2 & ->)|[E2 ->]]];
    apply lift_inv in E2 as [E2 ->]; rewrite <- E2 in Hc.
  - apply play_rounds_spec in H. by destruct r0.
  - destruct Hc as [[? ?]|[msg ?]]; [done|]. simplify_eq. right. eauto.
  - by destruct Hc as [[? ?]|[? ?]].
Qed.

(** A player who keeps hitting goes bust: the round is lost and the
    dealer draws nothing after the hidden card. *)
Lemma bust_round_example :
  let w := sample_world [hit_packet ++ hit_packet; hit_packet] in
  exists re,
    (play_round w).1 = Ok re
    ∧ re_player_bust re = true
    ∧ re_result re = RESULT_LOSS
    ∧ length (re_dealer_hand re) = 2%nat
    ∧ unpack_server_payload <$> sk_out (w_sock (play_round w).2)
      = Ok <$> ((card_event
                   <$> [(4, 0); (2, 0); (5, 0); (6, 0); (10, 0); (12, 3)])
                 ++ [(RESULT_LOSS, 0, 0)]).
Proof.
  eexists. split; [vm_compute; reflexivity|].
  split; [reflexivity|]. split; [reflexivity|]. split; [reflexivity|].
  vm_compute. reflexivity.
Qed.

(** ** More on the codec *)

Lemma unpack_request_bytes rounds name extra :
  0 <= rounds <= 255 -> length name = 32%nat ->
  unpack_request (request_bytes rounds name ++ extra)
  = Ok (rounds, decode_team_name name).
Proof.
  intros Hr Hname.
  destruct (request_bytes_fields rounds name extra Hr Hname)
    as (Hlen & Hc & Ht & Hrd & Hnm).
  rewrite unpack_request_long by done.
  rewrite Hc, Ht, !Z.eqb_refl. cbn [negb orb].
  fold (msg_rounds (request_bytes rounds name ++ extra)).
  by rewrite Hrd, Hnm.
Qed.

Lemma prefix_Forall {A} (P : A -> Prop) (p s : list A) :
  p `prefix_of` s -> Forall P s -> Forall P p.
Proof. intros [k ->] H. by apply Forall_app in H as [? _]. Qed.

Lemma before_nul_prefix s : before_nul s `prefix_of` s.
Proof.
  induction s as [|c s IH]; [done|]. cbn [before_nul].
  destruct (c =? 0); [apply prefix_nil|by apply prefix_cons].
Qed.

Lemma before_nul_no_nul s : 0 ∉ before_nul s.
Proof.
  induction s as [|c s IH]; cbn [before_nul]; [apply not_elem_of_nil|].
  destruct (Z.eqb_spec c 0); [apply not_elem_of_nil|].
  apply not_elem_of_cons. split; [congruence|done].
Qed.

Lemma prefix_not_elem_of {A} (x : A) (p s : list A) :
  p `prefix_of` s -> x ∉ s -> x ∉ p.
Proof. intros [k ->] H Hin. apply H, elem_of_app. by left. Qed.

(** X1. Request round trip: for rounds in 0..255 and a name of Unicode
    scalar values without NUL, the Request built by [pack_request] is
    decoded by [unpack_request] to the same rounds and to the longest
    prefix of the name that fits in 32 bytes of UTF-8, the name itself
    when it is at most 32 bytes. *)
Theorem request_round_trip (rounds : Z) (client_name : pystr) :
  0 <= rounds <= 255 ->
  Forall is_scalar client_name ->
  0 ∉ client_name ->
  exists pkt,
    pack_request rounds client_name = Ok pkt
    ∧ unpack_request pkt = Ok (rounds, fit 32 client_name)
    ∧ ((length (str_encode_ignore client_name) <= 32)%nat ->
       unpack_request pkt = Ok (rounds, client_name)).
Proof.
  intros Hr Hs Hn. eexists. split; [apply pack_request_layout; lia|].
  assert (Hdec : unpack_request
            (be_encode 4 MAGIC_COOKIE ++ be_encode 1 REQUEST_TYPE
               ++ be_encode 1 rounds ++ encode_team_name client_name)
          = Ok (rounds, fit 32 client_name)).
  { rewrite <- (app_nil_r (_ ++ _ ++ _ ++ _)).
    rewrite <- !app_assoc. rewrite app_nil_r.
    pose proof (unpack_request_bytes rounds (encode_team_name client_name) []
                  Hr (length_encode_team_name client_name)) as H.
    unfold request_bytes in H. rewrite app_nil_r in H. rewrite H.
    rewrite team_name_round_trip
      by (eapply Forall_impl; [exact Hs|]; by intros c [? _]).
    by rewrite drop_surrogates_id, before_nul_id. }
  split; [exact Hdec|]. intros Hlen. rewrite Hdec.
  by rewrite fit_all.
Qed.

Lemma request_round_trip_witness :
  exists pkt,
    pack_request 3 (lit "BlackijeckyClient") = Ok pkt
    ∧ unpack_request pkt = Ok (3, lit "BlackijeckyClient").
Proof.
  assert (Hs : Forall is_scalar (lit "BlackijeckyClient"))
    by (apply (bool_decide_unpack _); vm_compute; reflexivity).
  assert (Hn : 0 ∉ lit "BlackijeckyClient")
    by (apply (bool_decide_unpack _); vm_compute; reflexivity).
  destruct (request_round_trip 3 (lit "BlackijeckyClient") ltac:(lia) Hs Hn)
    as (pkt & Hpack & _ & Hsame).
  exists pkt. split; [exact Hpack|]. apply Hsame. vm_compute. lia.
Defined.

(** X2. Server Event round trip: for a result code and a suit in 0..255
    and a rank in 0..65535, [pack_server_payload] builds a 9-byte packet
    that [unpack_server_payload] decodes to the same three fields, with
    no check of the result code; for any field out of its range it
    raises [struct.error]. *)
Theorem server_payload_round_trip (res rank suit : Z) :
  (0 <= res < 256 ∧ 0 <= rank < 65536 ∧ 0 <= suit < 256 ->
   exists pkt,
     pack_server_payload res rank suit = Ok pkt
     ∧ length pkt = 9%nat
     ∧ unpack_server_payload pkt = Ok (res, rank, suit))
  ∧ (¬ (0 <= res < 256 ∧ 0 <= rank < 65536 ∧ 0 <= suit < 256) ->
     pack_server_payload res rank suit = Raise StructError).
Proof.
  pose proof (pack_server_payload_inv res rank suit) as H.
  split.
  - intros (Hr & Hk & Hs).
    rewrite pack_server_payload_layout in * by done.
    eexists. split; [reflexivity|]. split; [|apply H].
    by rewrite !length_app, !length_be_encode.
  - intros Hno. destruct (pack_server_payload res rank suit) as [pkt|e|].
    + by destruct H.
    + by destruct H as [-> _].
    + done.
Qed.

(** X3. Client Decision round trip: a decision that lower-cases to
    ["hit"] is packed into a packet that decodes to ["Hit"], one that
    lower-cases to ["stand"] into a packet that decodes to ["Stand"],
    and for any other string [pack_client_payload] raises
    [ValueError("Invalid decision")]. *)
Theorem client_payload_round_trip (decision : pystr) :
  (str_lower decision = lit "hit" ->
   exists pkt, pack_client_payload decision = Ok pkt
     ∧ length pkt = 10%nat
     ∧ unpack_client_payload pkt = Ok (lit "Hit"))
  ∧ (str_lower decision = lit "stand" ->
     exists pkt, pack_client_payload decision = Ok pkt
       ∧ length pkt = 10%nat
       ∧ unpack_client_payload pkt = Ok (lit "Stand"))
  ∧ (str_lower decision <> lit "hit" ->
     str_lower decision <> lit "stand" ->
     pack_client_payload decision = Raise (ValueError "Invalid decision")).
Proof.
  rewrite pack_client_payload_layout.
  split; [|split].
  - intros ->. rewrite decide_True by done. eexists. by repeat split.
  - intros ->. rewrite decide_False by discriminate.
    rewrite decide_True by done. eexists. by repeat split.
  - intros H1 H2. by rewrite !decide_False.
Qed.

(** X4. [recv_exact] does not depend on how the stream is cut into
    segments: when at least [n] bytes are still to come it returns
    exactly the next [n] and leaves the rest; when fewer are to come it
    raises [ConnectionError].  It never touches what was sent, the
    closed flag or the random generator, and asking for 0 bytes reads
    nothing. *)
Theorem recv_exact_any_segmentation (n : nat) (w : world) :
  exists w',
    same_but_input w w'
    ∧ ((n <= length (pending w))%nat ->
       recv_exact n w = (Ok (take n (pending w)), w')
       ∧ pending w' = drop n (pending w))
    ∧ ((length (pending w) < n)%nat ->
       recv_exact n w
       = (Raise (ConnectionError "Socket closed while receiving data"), w'))
    ∧ recv_exact 0 w = (Ok [], w).
Proof.
  destruct (recv_exact_spec n w) as (w' & Hsame & H).
  exists w'. split; [done|]. split; [|split].
  - intros Hn. by rewrite decide_True in H.
  - intros Hn. by rewrite decide_False in H by lia.
  - reflexivity.
Qed.

Lemma fit_scalar n s : Forall is_scalar s -> Forall is_scalar (fit n s).
Proof. apply prefix_Forall, fit_prefix. Qed.

(** X5. A name field, for any string: [encode_team_name] always gives
    exactly 32 bytes, and [decode_team_name] gives back the name without
    its surrogates, cut before its first NUL character and then to the
    longest prefix that fits in 32 bytes.  The name that comes back is
    stable: encoding and decoding it again gives the same name. *)
Theorem name_field_round_trip (name : pystr) :
  Forall (fun c => 0 <= c <= 0x10FFFF) name ->
  let back := decode_team_name (encode_team_name name) in
  length (encode_team_name name) = 32%nat
  ∧ back = fit 32 (before_nul (drop_surrogates name))
  ∧ decode_team_name (encode_team_name back) = back.
Proof.
  intros Hname back. split; [apply length_encode_team_name|].
  assert (Hback : back = fit 32 (before_nul (drop_surrogates name)))
    by (by apply team_name_round_trip).
  split; [exact Hback|].
  pose proof (drop_surrogates_scalar name Hname) as Hs.
  pose proof (before_nul_scalar _ Hs) as Hs'.
  assert (Hsb : Forall is_scalar back) by (rewrite Hback; by apply fit_scalar).
  assert (Hnb : 0 ∉ back).
  { rewrite Hback. eapply prefix_not_elem_of; [apply fit_prefix|].
    apply before_nul_no_nul. }
  rewrite team_name_round_trip
    by (eapply Forall_impl; [exact Hsb|]; by intros c [? _]).
  rewrite drop_surrogates_id, before_nul_id by done.
  apply fit_all; [|done]. rewrite Hback. by apply fit_fits.
Qed.

Lemma name_field_round_trip_witness :
  decode_team_name (encode_team_name name_with_nul) = [97]
  ∧ decode_team_name (encode_team_name [97]) = [97].
Proof.
  assert (H : Forall (fun c => 0 <= c <= 0x10FFFF) name_with_nul)
    by (apply (bool_decide_unpack _); vm_compute; reflexivity).
  destruct (name_field_round_trip name_with_nul H) as (_ & Hback & Hstable).
  split; [rewrite Hback; reflexivity|].
  rewrite Hback in Hstable. exact Hstable.
Defined.

Lemma unpack_offer_value_or_error data :
  value_or_value_error (unpack_offer data).
Proof.
  unfold value_or_value_error.
  destruct (decide (_OFFER_SIZE <= length data)%nat) as [Hlen|Hlen].
  - rewrite unpack_offer_long by done. destruct (_ || _); eauto.
  - unfold unpack_offer. rewrite unpack_short_ltb by lia. eauto.
Qed.

Lemma unpack_server_payload_value_or_error data :
  value_or_value_error (unpack_server_payload data).
Proof.
  unfold value_or_value_error.
  destruct (decide (_SERVER_PAYLOAD_SIZE <= length data)%nat) as [Hlen|Hlen].
  - rewrite unpack_server_payload_long by done. destruct (_ || _); eauto.
  - unfold unpack_server_payload. rewrite unpack_short_ltb by lia. eauto.
Qed.

(** X6. No decoder ever lets a [struct.error] out: on every buffer, of
    any length and content, each of the four decoders either returns a
    value or raises [ValueError]. *)
Theorem decoders_raise_only_value_error (data : bytes) :
  value_or_value_error (unpack_offer data)
  ∧ value_or_value_error (unpack_request data)
  ∧ value_or_value_error (unpack_client_payload data)
  ∧ value_or_value_error (unpack_server_payload data).
Proof.
  split; [apply unpack_offer_value_or_error|].
  split; [apply unpack_request_cases|].
  split; [|apply unpack_server_payload_value_or_error].
  destruct (unpack_client_payload_cases data) as [H|[H|[msg H]]];
    rewrite H; [left|left|right]; eauto.
Qed.

Lemma pack_field_out_of_range c z :
  ¬ (0 <= z < 256 ^ Z.of_nat (fmt_size c)) -> pack_field c (VInt z) = None.
Proof.
  intros H. destruct c; cbn [pack_field]; try done;
    by rewrite decide_False.
Qed.

(** X7. The encoders of the Offer and of the Request fail on the
    integer field only: [pack_offer] succeeds, with a packet of 39
    bytes, exactly for a port in 0..65535, and [pack_request], with a
    packet of 38 bytes, exactly for rounds in 0..255, whatever the name;
    outside these ranges they raise [struct.error]. *)
Theorem encoders_fail_only_out_of_range (n : Z) (name : pystr) :
  (0 <= n < 65536 ->
   exists pkt, pack_offer n name = Ok pkt ∧ length pkt = 39%nat)
  ∧ (¬ 0 <= n < 65536 -> pack_offer n name = Raise StructError)
  ∧ (0 <= n < 256 ->
     exists pkt, pack_request n name = Ok pkt ∧ length pkt = 38%nat)
  ∧ (¬ 0 <= n < 256 -> pack_request n name = Raise StructError).
Proof.
  split; [|split; [|split]].
  - intros Hn. eexists. split; [by apply pack_offer_layout|].
    by rewrite !length_app, !length_be_encode, length_encode_team_name.
  - intros Hn. unfold pack_offer, _OFFER_FMT. cbn [struct_pack].
    rewrite (pack_field_out_of_range FmtH n) by (cbn; lia).
    by repeat case_match.
  - intros Hn. eexists. split; [by apply pack_request_layout|].
    by rewrite !length_app, !length_be_encode, length_encode_team_name.
  - intros Hn. unfold pack_request, _REQUEST_FMT. cbn [struct_pack].
    rewrite (pack_field_out_of_range FmtB n) by (cbn; lia).
    by repeat case_match.
Qed.

(** ** More on hands, rounds and sessions *)

(** X8. Scoring does not depend on the order of the cards: two hands
    with the same cards have the same value.  For any two hands, the
    value of the two put together is the sum of their values.  And a hand
    of [n] cards of the pack is worth between [2 n] and [11 n]. *)
Theorem hand_value_order_independent (h1 h2 : list card) :
  (h1 ≡ₚ h2 -> hand_value h1 = hand_value h2)
  ∧ hand_value (h1 ++ h2) = hand_value h1 + hand_value h2
  ∧ (Forall valid_card h1 ->
     2 * Z.of_nat (length h1) <= hand_value h1 <= 11 * Z.of_nat (length h1)).
Proof.
  split; [|split].
  - intros Hp.
    induction Hp as [|c l l' _ IH|c c' l|l l' l'' _ IH1 _ IH2].
    + done.
    + by rewrite !hand_value_cons, IH.
    + rewrite !hand_value_cons. lia.
    + congruence.
  - apply hand_value_app.
  - induction 1 as [|c h Hc _ IH]; [by rewrite hand_value_nil|].
    rewrite hand_value_cons. cbn [length].
    pose proof (valid_card_range c Hc). lia.
Qed.

Lemma hand_value_order_independent_witness :
  hand_value [(1, 0); (13, 1)] = hand_value [(13, 1); (1, 0)]
  ∧ hand_value ([(1, 0); (13, 1)] ++ [(7, 2)])
    = hand_value [(1, 0); (13, 1)] + hand_value [(7, 2)]
  ∧ 4 <= hand_value [(1, 0); (13, 1)] <= 22.
Proof.
  split.
  { apply (proj1 (hand_value_order_independent
                    [(1, 0); (13, 1)] [(13, 1); (1, 0)])).
    apply perm_swap. }
  split.
  { exact (proj1 (proj2 (hand_value_order_independent
                           [(1, 0); (13, 1)] [(7, 2)]))). }
  apply (proj2 (proj2 (hand_value_order_independent [(1, 0); (13, 1)] []))).
  repeat (apply Forall_cons; split; [unfold valid_card; cbn; lia|]).
  apply Forall_nil_2.
Defined.

(** X9. Whatever the peer has sent, a session ends and its socket is
    closed; and if it ends on an exception, the exception is none of the
    server's own making: not an exhausted deck ([IndexError]) and not a
    field that does not fit its packet ([struct.error]). *)
Theorem session_always_closes (w : world) :
  sk_closed (w_sock (handle_client w).2) = true
  ∧ match (handle_client w).1 with
    | Ok _ => True
    | Raise e => e <> StructError ∧ forall msg, e <> IndexError msg
    | OutOfFuel => False
    end.
Proof.
  destruct (handle_client w) as [r w'] eqn:E.
  destruct (handle_client_spec w r w' E) as [Hc Hr].
  split; [done|]. cbn [fst]. destruct r as [?|e|]; [done| |done].
  by destruct Hr as [[msg ->]|[msg ->]].
Qed.

Lemma valid_card_value_11 c :
  valid_card c -> card_value c.1 = 11 -> c.1 = 1.
Proof.
  intros [H1 H2]. unfold card_value.
  destruct (Z.eqb_spec c.1 1); [done|].
  destruct (Z.geb_spec c.1 11); lia.
Qed.

(** X10. The sizes of a round that ends: the player holds 2 to 11 cards
    and the dealer 2 to 9, all cards of the pack, so at most 20 of the
    52 cards are used; a player who is bust holds 22 to 33; a dealer who
    has played holds 17 to 27; and the result is TIE, LOSS or WIN. *)
Theorem round_card_bounds (w w' : world) (re : round_end) :
  play_round w = (Ok re, w') ->
  (2 <= length (re_player_hand re) <= 11)%nat
  ∧ (2 <= length (re_dealer_hand re) <= 9)%nat
  ∧ Forall valid_card (re_player_hand re ++ re_dealer_hand re)
  ∧ (re_player_bust re = true ->
     22 <= hand_value (re_player_hand re) <= 33)
  ∧ (re_player_bust re = false ->
     17 <= hand_value (re_dealer_hand re) <= 27)
  ∧ (re_result re = RESULT_TIE ∨ re_result re = RESULT_LOSS
     ∨ re_result re = RESULT_WIN).
Proof.
  intros H. apply play_round_spec in H
    as (p1 & p2 & d1 & d2 & hits & draws & Hs).
  destruct Hs.
  cbn [app] in rs_valid0.
  assert (Hvp1 := Forall_inv rs_valid0). apply Forall_inv_tail in rs_valid0.
  assert (Hvp2 := Forall_inv rs_valid0). apply Forall_inv_tail in rs_valid0.
  assert (Hvd1 := Forall_inv rs_valid0). apply Forall_inv_tail in rs_valid0.
  assert (Hvd2 := Forall_inv rs_valid0). apply Forall_inv_tail in rs_valid0.
  apply Forall_app in rs_valid0 as [Hvh Hvd].
  pose proof (valid_card_range _ Hvp1) as [Rp1 _].
  pose proof (valid_card_range _ Hvp2) as [Rp2 _].
  pose proof (valid_card_range _ Hvd1) as [Rd1 _].
  pose proof (valid_card_range _ Hvd2) as [Rd2 _].
  (* all but the last card drawn, and the last *)
  assert (Hph : hits = [] ∨ exists hs h, hits = hs ++ [h] ∧ valid_card h
            ∧ Forall valid_card hs
            ∧ (hs <> [] -> hand_value ([p1; p2] ++ hs) <= 21)).
  { destruct hits as [|h hs _] using rev_ind; [by left|]. right.
    apply Forall_app in Hvh as [Hvhs Hvh].
    exists hs, h. split; [done|]. split; [exact (Forall_inv Hvh)|].
    split; [done|]. intros Hne.
    specialize (rs_hits_before0 (length hs)).
    rewrite take_app_length in rs_hits_before0. apply rs_hits_before0.
    rewrite length_app. destruct hs; [done|]. simpl. lia. }
  assert (Hdh : draws = [] ∨ exists ds d, draws = ds ++ [d] ∧ valid_card d
            ∧ Forall valid_card ds
            ∧ hand_value ([d1; d2] ++ ds) < 17).
  { destruct draws as [|d ds _] using rev_ind; [by left|]. right.
    apply Forall_app in Hvd as [Hvds Hvd].
    exists ds, d. split; [done|]. split; [exact (Forall_inv Hvd)|].
    split; [done|].
    specialize (rs_dealer_before0 (length ds)).
    rewrite take_app_length in rs_dealer_before0. apply rs_dealer_before0.
    rewrite length_app. simpl. lia. }
  rewrite rs_player0, rs_dealer0 in *.
  assert (Hlp : (2 <= length ([p1; p2] ++ hits) <= 11)%nat).
  { destruct Hph as [->|(hs & h & -> & Hvh' & Hvhs & Hle)]; [simpl; lia|].
    rewrite !length_app. cbn [length]. split; [lia|].
    destruct hs as [|h0 hs]; [simpl; lia|].
    specialize (Hle ltac:(done)).
    assert (Hv : Forall valid_card ([p1; p2] ++ h0 :: hs))
      by (apply Forall_app; split; [forall_cards|done]).
    apply hand_value_lower in Hv. rewrite length_app in Hv.
    cbn [length] in *. lia. }
  assert (Hld : (2 <= length ([d1; d2] ++ draws) <= 9)%nat).
  { destruct Hdh as [->|(ds & d & -> & Hvd' & Hvds & Hlt)]; [simpl; lia|].
    rewrite !length_app. cbn [length]. split; [lia|].
    assert (Hv : Forall valid_card ([d1; d2] ++ ds))
      by (apply Forall_app; split; [forall_cards|done]).
    apply hand_value_lower in Hv. rewrite length_app in Hv.
    cbn [length] in *. lia. }
  split; [done|]. split; [done|].
  split.
  { apply Forall_app. split; (apply Forall_app; split; [forall_cards|done]). }
  split.
  { intros Hb. apply rs_bust0 in Hb as [Hne Hgt]. split; [lia|].
    destruct Hph as [->|(hs & h & -> & Hvh' & Hvhs & Hle)]; [done|].
    pose proof (valid_card_range _ Hvh') as [Rh _].
    rewrite app_assoc, hand_value_app, hand_value_cons, hand_value_nil.
    destruct hs as [|h0 hs].
    - rewrite app_nil_r, !hand_value_cons, hand_value_nil. lia.
    - specialize (Hle ltac:(done)). lia. }
  split.
  { intros Hb. split; [by apply rs_dealer_stops0|].
    destruct Hdh as [->|(ds & d & -> & Hvd' & Hvds & Hlt)].
    - rewrite app_nil_r, !hand_value_cons, hand_value_nil. lia.
    - pose proof (valid_card_range _ Hvd') as [Rd _].
      rewrite app_assoc, hand_value_app, hand_value_cons, hand_value_nil.
      lia. }
  rewrite rs_result0. apply decide_result_range.
Qed.

(** X11. A player who stands on more than 21 wins.  The bust flag is
    set by a Hit only, so a round that ends with the flag down and the
    player above 21 is one where the player was dealt two Aces and stood
    at once; the result of such a round is WIN whatever the dealer
    holds. *)
Theorem unflagged_bust_wins (w w' : world) (re : round_end) :
  play_round w = (Ok re, w') ->
  re_player_bust re = false ->
  hand_value (re_player_hand re) > 21 ->
  re_result re = RESULT_WIN
  ∧ exists s1 s2, re_player_hand re = [(1, s1); (1, s2)].
Proof.
  intros H Hb Hgt. apply play_round_spec in H
    as ([r1 s1] & [r2 s2] & d1 & d2 & hits & draws & Hs).
  destruct Hs.
  assert (Hhits : hits = []).
  { destruct hits as [|h hits]; [done|]. exfalso.
    assert (re_player_bust re = true) by (by apply rs_bust0).
    congruence. }
  subst hits. rewrite app_nil_r in rs_player0.
  split.
  - rewrite rs_result0, Hb. unfold decide_result.
    destruct (Z.gtb_spec (hand_value (re_dealer_hand re)) 21); [done|].
    destruct (Z.gtb_spec (hand_value (re_dealer_hand re))
                (hand_value (re_player_hand re))); [lia|].
    by destruct (Z.ltb_spec (hand_value (re_dealer_hand re))
                   (hand_value (re_player_hand re))); [|lia].
  - cbn [app] in rs_valid0.
    assert (Hv1 := Forall_inv rs_valid0). apply Forall_inv_tail in rs_valid0.
    assert (Hv2 := Forall_inv rs_valid0).
    pose proof (valid_card_range _ Hv1) as [R1 _].
    pose proof (valid_card_range _ Hv2) as [R2 _].
    rewrite rs_player0, !hand_value_cons, hand_value_nil in Hgt.
    cbn [fst] in *.
    assert (E1 : r1 = 1) by (apply (valid_card_value_11 (r1, s1)); [done|cbn; lia]).
    assert (E2 : r2 = 1) by (apply (valid_card_value_11 (r2, s2)); [done|cbn; lia]).
    exists s1, s2. by rewrite rs_player0, E1, E2.
Qed.

Lemma unflagged_bust_wins_witness :
  let w := {| w_sock := {| sk_in := [stand_packet]; sk_out := [];
                           sk_closed := false |};
              w_rng := aces_rng |} in
  exists re,
    (play_round w).1 = Ok re
    ∧ hand_value (re_player_hand re) = 22
    ∧ re_result re = RESULT_WIN.
Proof.
  intros w.
  set (re := {| re_player_hand := [(1, 0); (1, 1)];
                re_dealer_hand := [(11, 3); (10, 3)];
                re_player_bust := false;
                re_result := 3 |}).
  assert (Hplay : play_round w = (Ok re, (play_round w).2))
    by (vm_compute; reflexivity).
  exists re. split; [by rewrite Hplay|]. split; [reflexivity|].
  apply (unflagged_bust_wins w _ re Hplay); [reflexivity|].
  vm_compute. reflexivity.
Defined.

Lemma round_card_bounds_witness :
  (2 <= length (re_player_hand sample_round) <= 11)%nat
  ∧ (2 <= length (re_dealer_hand sample_round) <= 9)%nat.
Proof.
  assert (Hplay :
    play_round (sample_world [hit_packet; stand_packet])
    = (Ok sample_round,
       (play_round (sample_world [hit_packet; stand_packet])).2))
    by (vm_compute; reflexivity).
  destruct (round_card_bounds _ _ _ Hplay) as (Hp & Hd & _).
  exact (conj Hp Hd).
Defined.

(** ** What a round reads and deals *)

Lemma recv_exact_ok_inv n w data w' :
  recv_exact n w = (Ok data, w') ->
  pending w = data ++ pending w' ∧ length data = n.
Proof.
  intros H. destruct (recv_exact_spec n w) as (w1 & _ & Hspec).
  case_decide as Hn.
  - destruct Hspec as [Hr Hrest]. rewrite Hr in H. injection H as <- <-.
    rewrite Hrest, take_drop, length_take. split; [done|lia].
  - rewrite Hspec in H. discriminate.
Qed.

Lemma b2z_eq_z2b b z : 0 <= z < 256 -> b2z b = z -> b = z2b z.
Proof. intros _ <-. by rewrite z2b_b2z. Qed.

Lemma client_payload_header data :
  length data = 10%nat ->
  msg_cookie data = MAGIC_COOKIE -> msg_type data = PAYLOAD_TYPE ->
  data = be_encode 4 MAGIC_COOKIE ++ be_encode 1 PAYLOAD_TYPE ++ msg_token data.
Proof.
  intros Hlen Hc Ht.
  do 10 (destruct data as [|? data]; [discriminate|]).
  destruct data; [|discriminate].
  unfold msg_cookie, msg_type, msg_token in *. cbn [take drop] in *.
  assert (E : be_decode [b; b0; b1; b2]
              = ((b2z b * 256 + b2z b0) * 256 + b2z b1) * 256 + b2z b2)
    by (unfold be_decode; cbn [fold_left]; lia).
  rewrite E in Hc. clear E. rewrite be_decode_single in Ht.
  unfold MAGIC_COOKIE, PAYLOAD_TYPE in *.
  pose proof (b2z_range b). pose proof (b2z_range b0).
  pose proof (b2z_range b1). pose proof (b2z_range b2).
  assert (E0 : b2z b = 0xab) by lia.
  assert (E1 : b2z b0 = 0xcd) by lia.
  assert (E2 : b2z b1 = 0xdc) by lia.
  assert (E3 : b2z b2 = 0xba) by lia.
  apply b2z_eq_z2b in E0, E1, E2, E3, Ht; try lia.
  by subst.
Qed.

Lemma unpack_client_payload_ok_inv data d :
  length data = 10%nat ->
  unpack_client_payload data = Ok d ->
  (d = lit "Hit" ∧ data = hit_packet) ∨ (d = lit "Stand" ∧ data = stand_packet).
Proof.
  intros Hlen H.
  rewrite unpack_client_payload_long in H
    by (change _CLIENT_PAYLOAD_SIZE with 10%nat; lia).
  destruct (Z.eqb_spec (msg_cookie data) MAGIC_COOKIE) as [Hc|]; [|done].
  destruct (Z.eqb_spec (msg_type data) PAYLOAD_TYPE) as [Ht|]; [|done].
  cbn [negb orb] in H. cbv zeta in H. fold (msg_token data) in H.
  pose proof (client_payload_header data Hlen Hc Ht) as Hdata.
  assert (Htok : length (msg_token data) = 5%nat)
    by (unfold msg_token; rewrite length_take, length_drop; lia).
  destruct (decide (rstrip x00 (msg_token data) = DECISION_HIT)) as [Eh|_].
  - apply (rstrip_eq_full x00 _ DECISION_HIT Htok eq_refl) in Eh.
    injection H as <-. left. split; [done|]. by rewrite Hdata, Eh.
  - destruct (decide (rstrip x00 (msg_token data) = DECISION_STAND))
      as [Es|_]; [|done].
    apply (rstrip_eq_full x00 _ DECISION_STAND Htok eq_refl) in Es.
    injection H as <-. right. split; [done|]. by rewrite Hdata, Es.
Qed.

Lemma player_turn_input fuel : forall deck hand w deck' hand' bust w',
  player_turn fuel deck hand w = (Ok (deck', hand', bust), w') ->
  (length hand <= length hand')%nat
  ∧ pending w
    = mjoin (replicate (length hand' - length hand) hit_packet)
        ++ (if bust then [] else stand_packet) ++ pending w'.
Proof.
  induction fuel as [|fuel IH]; intros deck hand w deck' hand' bust w' H;
    [done|].
  cbn [player_turn] in H.
  apply bind_inv in H as [(data & w1 & E1 & H)|[(e & E & ?)|[E ?]]];
    [|done..].
  apply recv_exact_ok_inv in E1 as [Hpend Hlen].
  apply bind_inv in H as [(decision & w2 & E2 & H)|[(e & E & ?)|[E ?]]];
    [|done..].
  apply lift_inv in E2 as [E2 ->]. symmetry in E2.
  apply unpack_client_payload_ok_inv in E2; [|exact Hlen].
  destruct E2 as [[-> ->]|[-> ->]].
  - rewrite decide_True in H by done.
    apply bind_inv in H as [([c deck1] & w2 & E3 & H)|[(e & E & ?)|[E ?]]];
      [|done..].
    apply lift_inv in E3 as [E3 ->]. cbv zeta in H.
    apply bind_inv in H as [([] & w3 & E4 & H)|[(e & E & ?)|[E ?]]];
      [|done..].
    apply send_payload_input in E4. apply pending_same_input in E4.
    destruct (hand_value (hand ++ [c]) >? 21).
    + apply mret_inv in H as [[= -> -> ->] ->].
      rewrite length_app. cbn [length]. split; [lia|].
      replace (length hand + 1 - length hand)%nat with 1%nat by lia.
      cbn [replicate mjoin list_join]. rewrite !app_nil_r.
      by rewrite Hpend, E4.
    + apply IH in H as [Hge H]. rewrite Hpend, <- E4, H.
      rewrite length_app in *. cbn [length] in *. split; [lia|].
      replace (length hand' - length hand)%nat
        with (S (length hand' - (length hand + 1))) by lia.
      cbn [replicate mjoin list_join]. by rewrite <- !app_assoc.
  - rewrite decide_False in H by discriminate.
    apply mret_inv in H as [[= -> -> ->] ->]. split; [done|].
    rewrite Nat.sub_diag. cbn [replicate mjoin list_join app].
    by rewrite Hpend.
Qed.

Ltac bind_ok_in H x w E :=
  apply bind_inv in H as [(x & w & E & H)|[(? & ? & ?)|[? ?]]]; [|done..].

Lemma send_cards_input hand : forall w r w',
  send_cards hand w = (r, w') -> sk_in (w_sock w') = sk_in (w_sock w).
Proof.
  induction hand as [|c hand IH]; intros w r w' H; cbn [send_cards] in H.
  - by apply mret_inv in H as [_ ->].
  - apply bind_inv in H as [([] & w1 & E & H)|[(e & E & ->)|[E ->]]];
      apply send_payload_input in E; [|done..].
    apply IH in H. congruence.
Qed.

Lemma play_round_trace w re w' :
  play_round w = (Ok re, w') ->
  (exists deck0 w0 rest,
     Deck_init w = (Ok deck0, w0)
     ∧ cards deck0 ≡ₚ all_cards
     ∧ cards deck0
       = rest ++ reverse (drop 2 (re_dealer_hand re))
              ++ reverse (drop 2 (re_player_hand re))
              ++ reverse (take 2 (re_dealer_hand re))
              ++ reverse (take 2 (re_player_hand re)))
  ∧ (2 <= length (re_player_hand re))%nat
  ∧ (2 <= length (re_dealer_hand re))%nat
  ∧ pending w
    = mjoin (replicate (length (re_player_hand re) - 2) hit_packet)
        ++ (if re_player_bust re then [] else stand_packet) ++ pending w'.
Proof.
  unfold play_round. intros H.
  destruct (Deck_init_spec w) as (deck0 & w0 & Hinit & Hperm & Hsock0).
  rewrite (bind_ok _ _ _ _ _ Hinit) in H.
  bind_ok_in H x1 wa E1. destruct x1 as [p1 deck1].
  apply lift_inv in E1 as [E1 ->].
  bind_ok_in H x2 wa E2. destruct x2 as [p2 deck2].
  apply lift_inv in E2 as [E2 ->].
  bind_ok_in H x3 wa E3. destruct x3 as [d1 deck3].
  apply lift_inv in E3 as [E3 ->].
  bind_ok_in H x4 wa E4. destruct x4 as [d2 deck4].
  apply lift_inv in E4 as [E4 ->].
  pose proof (Deck_draw_spec deck0) as Hc1. rewrite <- E1 in Hc1.
  pose proof (Deck_draw_spec deck1) as Hc2. rewrite <- E2 in Hc2.
  pose proof (Deck_draw_spec deck2) as Hc3. rewrite <- E3 in Hc3.
  pose proof (Deck_draw_spec deck3) as Hc4. rewrite <- E4 in Hc4.
  cbv zeta in H.
  bind_ok_in H u wb Es. apply send_cards_input in Es.
  cbn [list_get lookup list_lookup] in H. rewrite bind_lift_ok in H.
  bind_ok_in H u' wc Es'. apply send_payload_input in Es'.
  bind_ok_in H x5 w5 Ep. destruct x5 as [[deck5 hand5] bust].
  pose proof (player_turn_input _ _ _ _ _ _ _ _ Ep) as [Hge Hin].
  apply player_turn_spec in Ep; [|lia].
  destruct Ep as (hits & -> & Hdeck5 & _ & _ & _).
  rewrite bind_lift_ok in H.
  bind_ok_in H u'' w6 Es''. apply send_payload_input in Es''.
  bind_ok_in H x7 w7 Ed. destruct x7 as [deck7 hand7].
  cbv zeta in H.
  bind_ok_in H u''' w8 Es'''. apply send_payload_input in Es'''.
  apply mret_inv in H as [[= ->] ->].
  cbn [re_player_hand re_dealer_hand re_player_bust].
  assert (Hdealer : exists draws,
    hand7 = [d1; d2] ++ draws ∧ cards deck5 = cards deck7 ++ reverse draws
    ∧ sk_in (w_sock w7) = sk_in (w_sock w6)).
  { destruct bust; cbn [negb] in Ed.
    - apply mret_inv in Ed as [[= -> ->] ->].
      exists []. by rewrite reverse_nil, !app_nil_r.
    - pose proof (dealer_turn_input _ _ _ _ _ _ Ed) as Hin7.
      apply dealer_turn_spec in Ed; [|lia].
      destruct Ed as (draws & -> & Hdeck7 & _). by exists draws. }
  destruct Hdealer as (draws & -> & Hdeck7 & Hin7).
  split; [|split; [|split]].
  - exists deck0, w0, (cards deck7). split; [done|]. split; [done|].
    cbn [app take drop].
    rewrite Hc1, Hc2, Hc3, Hc4, Hdeck5, Hdeck7.
    rewrite !take_0, !drop_0, !reverse_cons, reverse_nil. cbn [app].
    by rewrite <- !app_assoc.
  - simpl. lia.
  - simpl. lia.
  - assert (Hw : pending w = pending wc)
      by (unfold pending; by rewrite Es', Es, Hsock0).
    assert (Hw' : pending w8 = pending w5)
      by (unfold pending; by rewrite Es''', Hin7, Es'').
    rewrite Hw, Hw', Hin. reflexivity.
Qed.

(** X12. No card is dealt twice in a round.  The cards of a round that
    ends are those drawn, one after the other, from the deck shuffled at
    the start of the round: the two cards of the player, the two cards of
    the dealer, the cards the player has drawn and then those the dealer
    has drawn.  So the cards of the two hands are all different, and
    together with the cards that these draws leave in the deck they are
    the 52 cards of the pack. *)
Theorem round_cards_distinct (w w' : world) (re : round_end) :
  play_round w = (Ok re, w') ->
  exists (deck : Deck) (w0 : world) (rest : list card),
    Deck_init w = (Ok deck, w0)
    ∧ draw_many (length (re_player_hand re) + length (re_dealer_hand re))
        deck
      = Ok (take 2 (re_player_hand re) ++ take 2 (re_dealer_hand re)
              ++ drop 2 (re_player_hand re) ++ drop 2 (re_dealer_hand re),
            {| cards := rest |})
    ∧ NoDup (re_player_hand re ++ re_dealer_hand re)
    ∧ rest ++ re_player_hand re ++ re_dealer_hand re ≡ₚ all_cards
    ∧ (length rest + length (re_player_hand re)
       + length (re_dealer_hand re) = 52)%nat.
Proof.
  intros H.
  apply play_round_trace in H
    as ((deck0 & w0 & rest & Hinit & Hperm & Hdeck) & Hlp & Hld & _).
  exists deck0, w0, rest. split; [exact Hinit|].
  set (a := take 2 (re_player_hand re)) in *.
  set (b := drop 2 (re_player_hand re)) in *.
  set (c := take 2 (re_dealer_hand re)) in *.
  set (d := drop 2 (re_dealer_hand re)) in *.
  assert (Hp : re_player_hand re = a ++ b) by (symmetry; apply take_drop).
  assert (Hd : re_dealer_hand re = c ++ d) by (symmetry; apply take_drop).
  assert (Hdrawn : cards deck0 = rest ++ reverse (a ++ c ++ b ++ d))
    by (by rewrite !reverse_app, <- !app_assoc).
  assert (Hn : (length (re_player_hand re) + length (re_dealer_hand re)
                = length (a ++ c ++ b ++ d))%nat)
    by (rewrite Hp, Hd, !length_app; lia).
  assert (Hall : rest ++ re_player_hand re ++ re_dealer_hand re ≡ₚ all_cards).
  { rewrite <- Hperm, Hdrawn, reverse_Permutation, Hp, Hd. f_equiv.
    rewrite <- !app_assoc. f_equiv.
    rewrite (app_assoc c b d), (comm (++) c b). by rewrite <- !app_assoc. }
  split.
  { destruct deck0 as [cs]. cbn [cards] in Hdrawn.
    rewrite draw_many_spec, Hn, Hdrawn.
    rewrite decide_True
      by (rewrite (length_app rest), length_reverse; lia).
    f_equal. f_equal.
    - rewrite reverse_app, reverse_involutive. by rewrite take_app_length.
    - f_equal. rewrite (length_app rest), length_reverse.
      replace (length rest + length (a ++ c ++ b ++ d)
               - length (a ++ c ++ b ++ d))%nat with (length rest) by lia.
      by rewrite take_app_length. }
  split.
  { pose proof all_cards_NoDup as Hnd. rewrite <- Hall in Hnd.
    by apply NoDup_app in Hnd as (_ & _ & ?). }
  split; [exact Hall|].
  apply Permutation_length in Hall.
  rewrite !length_app, all_cards_length in Hall. lia.
Qed.

Lemma round_cards_distinct_witness :
  NoDup (re_player_hand sample_round ++ re_dealer_hand sample_round)
  ∧ exists deck w0 rest,
      Deck_init (sample_world [hit_packet; stand_packet]) = (Ok deck, w0)
      ∧ draw_many 6 deck
        = Ok ([(4, 0); (2, 0); (5, 0); (12, 3); (6, 0); (10, 0)],
              {| cards := rest |})
      ∧ length rest = 46%nat.
Proof.
  assert (Hplay :
    play_round (sample_world [hit_packet; stand_packet])
    = (Ok sample_round,
       (play_round (sample_world [hit_packet; stand_packet])).2))
    by (vm_compute; reflexivity).
  destruct (round_cards_distinct _ _ _ Hplay)
    as (deck & w0 & rest & Hinit & Hdraw & Hnd & _ & Hlen).
  split; [exact Hnd|]. exists deck, w0, rest.
  split; [exact Hinit|]. split; [exact Hdraw|].
  cbn [sample_round re_player_hand re_dealer_hand length] in Hlen. lia.
Defined.

(** X13. What a round reads: one Hit packet for each card the player
    drew, then one Stand packet unless the player went bust, and not a
    byte more; after a bust no further decision is read. *)
Theorem round_reads_decisions (w w' : world) (re : round_end) :
  play_round w = (Ok re, w') ->
  pending w
  = mjoin (replicate (length (re_player_hand re) - 2) hit_packet)
      ++ (if re_player_bust re then [] else stand_packet) ++ pending w'.
Proof.
  intros H. by apply play_round_trace in H as (_ & _ & _ & ?).
Qed.

Lemma round_reads_decisions_witness :
  let w := sample_world [hit_packet; stand_packet] in
  pending w = hit_packet ++ stand_packet ++ pending (play_round w).2.
Proof.
  intros w.
  assert (Hplay : play_round w = (Ok sample_round, (play_round w).2))
    by (vm_compute; reflexivity).
  rewrite (round_reads_decisions _ _ _ Hplay) at 1.
  cbn [sample_round re_player_hand re_player_bust length Nat.sub replicate
       mjoin list_join]. by rewrite app_nil_r.
Defined.

Lemma play_round_events w re w' :
  play_round w = (Ok re, w') ->
  emits w w' (round_events re) ∧ re_result re <> RESULT_NOT_OVER.
Proof.
  intros H. apply play_round_spec in H
    as (p1 & p2 & d1 & d2 & hits & draws & Hs).
  destruct Hs. split.
  - unfold round_events. rewrite rs_player0, rs_dealer0. exact rs_events0.
  - pose proof (decide_result_range (re_player_bust re)
                  (hand_value (re_dealer_hand re))
                  (hand_value (re_player_hand re))) as Hr.
    cbv zeta in Hr. rewrite <- rs_result0 in Hr.
    unfold RESULT_TIE, RESULT_LOSS, RESULT_WIN, RESULT_NOT_OVER in *. lia.
Qed.

Lemma play_rounds_events n : forall w played w',
  play_rounds n w = (Ok played, w') ->
  length played = n
  ∧ emits w w' (mjoin (round_events <$> played))
  ∧ Forall (fun re => re_result re <> RESULT_NOT_OVER) played.
Proof.
  induction n as [|n IH]; intros w played w' H; cbn [play_rounds] in H.
  - apply mret_inv in H as [[= ->] ->]. split; [done|].
    split; [by apply emits_nil|done].
  - bind_ok_in H re w1 E1. bind_ok_in H res w2 E2.
    apply mret_inv in H as [[= ->] ->].
    apply play_round_events in E1 as [He1 Hr1].
    apply IH in E2 as (Hlen & He2 & Hr2).
    split; [simpl; by rewrite Hlen|].
    split; [|by apply Forall_cons].
    cbn [fmap list_fmap mjoin list_join]. by apply (emits_app _ w1).
Qed.

Lemma filter_terminal_rounds played :
  Forall (fun re => re_result re <> RESULT_NOT_OVER) played ->
  filter is_terminal (mjoin (round_events <$> played))
  = (fun re => (re_result re, 0, 0)) <$> played.
Proof.
  induction 1 as [|re played Hre _ IH]; [done|].
  cbn [fmap list_fmap mjoin list_join]. unfold round_events at 1.
  rewrite <- app_assoc, filter_terminal_card_events. cbn [app].
  rewrite filter_cons, decide_True.
  - f_equal. exact IH.
  - unfold is_terminal. cbn [fst].
    by destruct (Z.eqb_spec (re_result re) RESULT_NOT_OVER).
Qed.

(** X14. The transcript of a session that ends normally: the request is
    the first 38 bytes received, the session plays as many rounds as it
    asks for, and all the session sends is, round after round, the
    events of that round: its cards and then its result.  So the
    terminal events sent are the results of the rounds, one per round
    and in order. *)
Theorem session_transcript (w w' : world) (played : list round_end) :
  handle_client w = (Ok played, w') ->
  exists rounds client_name,
    (38 <= length (pending w))%nat
    ∧ unpack_request (take 38 (pending w)) = Ok (rounds, client_name)
    ∧ length played = Z.to_nat rounds
    ∧ emits w w' (mjoin (round_events <$> played))
    ∧ filter is_terminal (mjoin (round_events <$> played))
      = (fun re => (re_result re, 0, 0)) <$> played.
Proof.
  unfold handle_client, try_finally.
  destruct ((recv_exact REQUEST_SIZE ≫= _) w) as [r0 w0] eqn:E.
  intros [= -> <-].
  bind_ok_in E data w1 E1.
  pose proof (recv_exact_cases _ _ _ _ E1) as [Hout1 _].
  apply recv_exact_ok_inv in E1 as [Hpend Hlen].
  bind_ok_in E x w2 E2. destruct x as [rounds client_name].
  apply lift_inv in E2 as [E2 ->].
  apply play_rounds_events in E as (Hn & Hem & Hres).
  exists rounds, client_name.
  split; [rewrite Hpend, length_app, Hlen; unfold REQUEST_SIZE; lia|].
  split.
  { rewrite Hpend. change 38%nat with REQUEST_SIZE.
    by rewrite <- Hlen, take_app_length. }
  split; [done|]. split; [|by apply filter_terminal_rounds].
  destruct Hem as (pkts & Ho & Hd). exists pkts.
  cbn [w_sock sk_out]. split; [by rewrite Ho, Hout1|done].
Qed.

Lemma session_transcript_witness :
  let w := sample_world [request_bytes 1 (replicate 32 x00) ++ hit_packet;
                         stand_packet] in
  exists played,
    (handle_client w).1 = Ok played
    ∧ length played = 1%nat
    ∧ filter is_terminal (mjoin (round_events <$> played))
      = [(RESULT_WIN, 0, 0)].
Proof.
  intros w.
  assert (Hrun : handle_client w = (Ok [sample_round], (handle_client w).2))
    by (vm_compute; reflexivity).
  destruct (session_transcript _ _ _ Hrun) as (rounds & name & _ & _ & _ & _ & Hf).
  exists [sample_round]. split; [by rewrite Hrun|]. split; [reflexivity|].
  exact Hf.
Defined.

Lemma round_completes_on_stand_witness :
  exists re w',
    play_round (sample_world [stand_packet]) = (Ok re, w')
    ∧ re_player_bust re = false
    ∧ pending w' = [].
Proof.
  apply (round_completes_on_stand (sample_world [stand_packet]) []).
  vm_compute. reflexivity.
Defined.

(** ** The client against the server *)

Lemma cbind_inv {A B} (m : C A) (k : A -> C B) c (b : B) c' :
  (m ≫= k) c = (Returned b, c') ->
  exists a c1, m c = (Returned a, c1) ∧ k a c1 = (Returned b, c').
Proof.
  unfold mbind, C_bind. destruct (m c) as [[a|e| |] c1]; try done. eauto.
Qed.

Lemma cbind_returned {A B} (m : C A) (k : A -> C B) c a c1 :
  m c = (Returned a, c1) -> (m ≫= k) c = k a c1.
Proof. intros H. unfold mbind, C_bind. by rewrite H. Qed.

Lemma on_net_inv {A} (m : M A) c (a : A) c' :
  on_net m c = (Returned a, c') ->
  m (c_net c) = (Ok a, c_net c') ∧ c_stdin c' = c_stdin c.
Proof.
  unfold on_net. destruct (m (c_net c)) as [[x|e|] w]; try done.
  by intros [= -> <-].
Qed.

Lemma cret_inv {A} (a b : A) c c' :
  (mret a : C A) c = (Returned b, c') -> b = a ∧ c' = c.
Proof. by intros [= <- <-]. Qed.

Lemma sends_events_refl w w' :
  sk_out (w_sock w') = sk_out (w_sock w) -> sends_events w w'.
Proof. intros H. exists []. by rewrite app_nil_r. Qed.

Lemma sends_events_trans w1 w2 w3 :
  sends_events w1 w2 -> sends_events w2 w3 -> sends_events w1 w3.
Proof.
  intros (p1 & H1 & F1) (p2 & H2 & F2). exists (p1 ++ p2).
  split; [by rewrite H2, H1, app_assoc|by apply Forall_app].
Qed.

Lemma send_payload_sends res rank suit w r w' :
  send_payload res rank suit w = (r, w') -> sends_events w w'.
Proof.
  unfold send_payload. intros H.
  apply bind_inv in H as [(pkt & w1 & E & H)|[(e & E & ->)|[E ->]]];
    apply lift_inv in E as [E ->]; [|by apply sends_events_refl..].
  injection H as <- <-. exists [pkt]. split; [done|].
  apply Forall_singleton. symmetry in E.
  unfold pack_server_payload in E.
  destruct (struct_pack _ _) as [b|] eqn:Es; [|done]. injection E as <-.
  by apply length_struct_pack in Es.
Qed.

Lemma send_cards_sends hand : forall w r w',
  send_cards hand w = (r, w') -> sends_events w w'.
Proof.
  induction hand as [|c hand IH]; intros w r w' H; cbn [send_cards] in H.
  - apply mret_inv in H as [_ ->]. by apply sends_events_refl.
  - apply bind_inv in H as [([] & w1 & E & H)|[(e & E & ->)|[E ->]]];
      apply send_payload_sends in E; [|done..].
    apply IH in H. by eapply sends_events_trans.
Qed.

Lemma recv_exact_sends n w r w' :
  recv_exact n w = (r, w') -> sends_events w w'.
Proof.
  intros H. apply recv_exact_cases in H as [H _]. by apply sends_events_refl.
Qed.

Lemma player_turn_sends fuel : forall deck hand w r w',
  player_turn fuel deck hand w = (r, w') -> sends_events w w'.
Proof.
  induction fuel as [|fuel IH]; intros deck hand w r w' H.
  - injection H as <- <-. by apply sends_events_refl.
  - cbn [player_turn] in H.
    apply bind_inv in H as [(data & w1 & E1 & H)|[(e & E1 & ->)|[E1 ->]]];
      apply recv_exact_sends in E1; [|done..].
    eapply sends_events_trans; [exact E1|]. clear E1.
    apply bind_inv in H as [(d & w2 & E2 & H)|[(e & E2 & ->)|[E2 ->]]];
      apply lift_inv in E2 as [_ ->]; [|by apply sends_events_refl..].
    destruct (decide (d = lit "Hit")) as [Hd|Hd].
    + apply bind_inv in H as [([c deck1] & w2 & E3 & H)|[(e & E3 & ->)|[E3 ->]]];
        apply lift_inv in E3 as [_ ->]; [|by apply sends_events_refl..].
      cbv zeta in H.
      apply bind_inv in H as [([] & w3 & E4 & H)|[(e & E4 & ->)|[E4 ->]]];
        apply send_payload_sends in E4; [|done..].
      eapply sends_events_trans; [exact E4|].
      destruct (_ >? 21).
      * apply mret_inv in H as [_ ->]. by apply sends_events_refl.
      * by apply IH in H.
    + apply mret_inv in H as [_ ->]. by apply sends_events_refl.
Qed.

Lemma dealer_turn_sends fuel : forall deck hand w r w',
  dealer_turn fuel deck hand w = (r, w') -> sends_events w w'.
Proof.
  induction fuel as [|fuel IH]; intros deck hand w r w' H;
    cbn [dealer_turn] in H; destruct (hand_value hand <? 17);
    try (injection H as <- <-; by apply sends_events_refl).
  apply bind_inv in H as [([c deck1] & w2 & E3 & H)|[(e & E3 & ->)|[E3 ->]]];
    apply lift_inv in E3 as [_ ->]; [|by apply sends_events_refl..].
  cbv zeta in H.
  apply bind_inv in H as [([] & w3 & E4 & H)|[(e & E4 & ->)|[E4 ->]]];
    apply send_payload_sends in E4; [|done..].
  eapply sends_events_trans; [exact E4|]. by apply IH in H.
Qed.

Lemma play_round_sends w re w' :
  play_round w = (Ok re, w') -> sends_events w w'.
Proof.
  unfold play_round. intros H.
  destruct (Deck_init_spec w) as (deck0 & w0 & Hinit & _ & Hsock0).
  rewrite (bind_ok _ _ _ _ _ Hinit) in H.
  apply (sends_events_trans _ w0); [apply sends_events_refl; by rewrite Hsock0|].
  bind_ok_in H x1 wa E1. destruct x1 as [p1 deck1].
  apply lift_inv in E1 as [_ ->].
  bind_ok_in H x2 wa E2. destruct x2 as [p2 deck2].
  apply lift_inv in E2 as [_ ->].
  bind_ok_in H x3 wa E3. destruct x3 as [d1 deck3].
  apply lift_inv in E3 as [_ ->].
  bind_ok_in H x4 wa E4. destruct x4 as [d2 deck4].
  apply lift_inv in E4 as [_ ->].
  cbv zeta in H.
  bind_ok_in H u wb Es. apply send_cards_sends in Es.
  eapply sends_events_trans; [exact Es|].
  cbn [list_get lookup list_lookup] in H. rewrite bind_lift_ok in H.
  bind_ok_in H u' wc Es'. apply send_payload_sends in Es'.
  eapply sends_events_trans; [exact Es'|].
  bind_ok_in H x5 w5 Ep. destruct x5 as [[deck5 hand5] bust].
  apply player_turn_sends in Ep.
  eapply sends_events_trans; [exact Ep|].
  rewrite bind_lift_ok in H.
  bind_ok_in H u'' w6 Es''. apply send_payload_sends in Es''.
  eapply sends_events_trans; [exact Es''|].
  bind_ok_in H x7 w7 Ed. destruct x7 as [deck7 hand7].
  assert (Hd : sends_events w6 w7).
  { destruct bust; cbn [negb] in Ed.
    - apply mret_inv in Ed as [_ ->]. by apply sends_events_refl.
    - by apply dealer_turn_sends in Ed. }
  eapply sends_events_trans; [exact Hd|].
  cbv zeta in H.
  bind_ok_in H u''' w8 Es'''. apply send_payload_sends in Es'''.
  by apply mret_inv in H as [_ ->].
Qed.

Lemma pack_client_payload_hit : pack_client_payload (lit "hit") = Ok hit_packet.
Proof. reflexivity. Qed.

Lemma pack_client_payload_stand :
  pack_client_payload (lit "stand") = Ok stand_packet.
Proof. reflexivity. Qed.

Lemma client_hand_value hand : client.hand_value hand = hand_value hand.
Proof. reflexivity. Qed.

Lemma stream_length segs : (length (stream segs) <= length (mjoin segs))%nat.
Proof.
  induction segs as [|[|b seg] segs IH]; [done|cbn; lia|].
  change (stream ((b :: seg) :: segs)) with ((b :: seg) ++ stream segs).
  change (mjoin ((b :: seg) :: segs)) with ((b :: seg) ++ mjoin segs).
  rewrite !length_app. lia.
Qed.

(** One Server Event taken off the stream. *)
Lemma recv_event_next pkt ev rest c :
  pending (c_net c) = pkt ++ rest ->
  length pkt = 9%nat ->
  unpack_server_payload pkt = Ok ev ->
  exists c',
    client.recv_event c = (Returned ev, c')
    ∧ pending (c_net c') = rest
    ∧ sk_out (w_sock (c_net c')) = sk_out (w_sock (c_net c))
    ∧ sk_closed (w_sock (c_net c')) = sk_closed (w_sock (c_net c))
    ∧ c_stdin c' = c_stdin c.
Proof.
  intros Hp Hl Hu.
  destruct (recv_exact_spec 9 (c_net c)) as (w' & (Ho & Hc & _) & H).
  destruct (decide _) as [_|Hn]; [|rewrite Hp, length_app in Hn; lia].
  destruct H as [H Hp'].
  rewrite Hp in H, Hp'. rewrite take_app_length' in H by done.
  rewrite drop_app_length' in Hp' by done.
  exists {| c_net := w'; c_stdin := c_stdin c |}.
  unfold client.recv_event, on_net, client.SERVER_PAYLOAD_SIZE.
  rewrite (bind_ok _ _ _ _ _ H). unfold lift. rewrite Hu. done.
Qed.

Lemma decisions_cons line lines :
  decisions (line :: lines)
  = if bool_decide (typed_decision line ∈ valid_decisions)
    then typed_decision line :: decisions lines
    else decisions lines.
Proof.
  unfold decisions. rewrite fmap_cons. case_bool_decide.
  - by rewrite filter_cons_True.
  - by rewrite filter_cons_False.
Qed.

Lemma client_player_turn_follows lines :
  forall fuel hand (hits : list card) (bust : bool) pkts rest tail l c,
  c_stdin c = lines ->
  (length lines < fuel)%nat ->
  decisions lines
  = replicate (length hits) (lit "hit")
      ++ (if bust then [] else [lit "stand"]) ++ tail ->
  pending (c_net c) = mjoin pkts ++ rest ->
  Forall (fun p => length p = 9%nat) pkts ->
  unpack_server_payload <$> pkts = Ok <$> (card_event <$> hits) ->
  (forall k, (0 < k < length hits)%nat ->
     hand_value (hand ++ take k hits) <= 21) ->
  (bust = true <-> hits <> [] ∧ hand_value (hand ++ hits) > 21) ->
  exists c',
    client.player_turn fuel hand l c
    = (Returned (hand ++ hits, bust, if bust then l + 1 else l), c')
    ∧ decisions (c_stdin c') = tail
    ∧ pending (c_net c') = rest
    ∧ sk_out (w_sock (c_net c'))
      = sk_out (w_sock (c_net c))
          ++ replicate (length hits) hit_packet
          ++ (if bust then [] else [stand_packet])
    ∧ sk_closed (w_sock (c_net c')) = sk_closed (w_sock (c_net c)).
Proof.
  induction lines as [|line lines IH];
    intros fuel hand hits bust pkts rest tail l c Hin Hfuel Hdec Hpend Hlen
      Hpkts Hbefore Hbust.
  { (* no line left: the script is empty, which a round does not allow *)
    exfalso. destruct hits as [|h hits]; [|done].
    destruct bust; [|done]. by apply Hbust. }
  destruct fuel as [|fuel]; [lia|]. cbn [client.player_turn].
  unfold input at 1. rewrite (cbind_returned _ _ c line
    {| c_net := c_net c; c_stdin := lines |}) by (unfold input; by rewrite Hin).
  cbv zeta. fold (typed_decision line).
  rewrite decisions_cons in Hdec.
  change [lit "hit"; lit "stand"] with valid_decisions.
  destruct (bool_decide (typed_decision line ∈ valid_decisions)) eqn:Hv;
    cbn [negb].
  2:{ (* "Invalid input": the next line *)
    apply (IH fuel hand hits bust pkts rest tail l
             {| c_net := c_net c; c_stdin := lines |}); try done.
    cbn in Hfuel. lia. }
  apply bool_decide_eq_true in Hv.
  assert (Hd : typed_decision line = lit "hit"
               ∨ typed_decision line = lit "stand").
  { unfold valid_decisions in Hv.
    apply elem_of_cons in Hv as [Hv|Hv]; [by left|].
    apply elem_of_cons in Hv as [Hv|Hv]; [by right|].
    by apply elem_of_nil in Hv. }
  destruct Hd as [Hd|Hd]; rewrite Hd in *.
  - (* hit *)
    destruct hits as [|h hits].
    { destruct bust; [exfalso; by apply Hbust|done]. }
    destruct pkts as [|pkt pkts]; [done|].
    cbn [fmap list_fmap] in Hpkts. injection Hpkts as Hu Hpkts.
    apply Forall_cons in Hlen as [Hl Hlen].
    cbn [replicate app length] in Hdec. injection Hdec as Hdec.
    set (c1 := {| c_net := {| w_sock := {| sk_in := sk_in (w_sock (c_net c));
                                          sk_out := sk_out (w_sock (c_net c)) ++ [hit_packet];
                                          sk_closed := sk_closed (w_sock (c_net c)) |};
                             w_rng := w_rng (c_net c) |};
                  c_stdin := lines |}).
    rewrite (cbind_returned _ _ _ tt c1) by done.
    change (mjoin (pkt :: pkts)) with (pkt ++ mjoin pkts) in Hpend.
    rewrite <- app_assoc in Hpend.
    destruct (recv_event_next pkt (card_event h) (mjoin pkts ++ rest) c1)
      as (c2 & Hr & Hp2 & Ho2 & Hc2 & Hs2); [done..|].
    rewrite decide_False by done.
    rewrite (cbind_returned _ _ _ _ _ Hr). unfold card_event at 1.
    change (RESULT_NOT_OVER =? RESULT_NOT_OVER) with true. cbv iota beta zeta.
    rewrite client_hand_value. replace (h.1, h.2) with h by by destruct h.
    destruct (_ >? 21) eqn:Ht.
    + (* bust *)
      apply Z.gtb_lt in Ht.
      assert (hits = []) as ->.
      { destruct hits as [|h' hits]; [done|]. exfalso.
        specialize (Hbefore 1%nat ltac:(cbn; lia)). cbn [take] in Hbefore.
        apply Z.lt_nge in Ht. apply Ht. exact Hbefore. }
      assert (bust = true) as ->.
      { apply Hbust. split; [done|]. apply Z.lt_gt. exact Ht. }
      exists c2. split; [done|]. cbn [app] in Hdec.
      rewrite Hs2, Ho2, Hc2. destruct pkts; [|done]. done.
    + (* not bust: the next decision *)
      rewrite Z.gtb_ltb, Z.ltb_ge in Ht.
      destruct (IH fuel (hand ++ [h]) hits bust pkts rest tail l c2)
        as (c' & H & Hd' & Hp' & Ho' & Hc'); try done.
      * cbn in Hfuel. lia.
      * intros k Hk. rewrite <- app_assoc. cbn [app].
        apply (Hbefore (S k)). cbn. lia.
      * rewrite <- app_assoc. cbn [app]. rewrite Hbust. split.
        -- intros [_ Hgt]. split; [|done]. intros ->.
           apply Z.gt_lt, Z.lt_nge in Hgt. apply Hgt. exact Ht.
        -- intros [_ Hgt]. done.
      * exists c'. rewrite <- app_assoc in H. split; [done|].
        split; [done|]. split; [done|]. rewrite Ho', Ho2, Hc', Hc2.
        cbn. by rewrite <- app_assoc.
  - (* stand *)
    destruct hits as [|h hits]; [|done].
    destruct bust; [exfalso; by apply Hbust|].
    cbn [replicate app length] in Hdec. injection Hdec as Hdec.
    destruct pkts; [|done]. cbn in Hpend.
    set (c1 := {| c_net := {| w_sock := {| sk_in := sk_in (w_sock (c_net c));
                                          sk_out := sk_out (w_sock (c_net c)) ++ [stand_packet];
                                          sk_closed := sk_closed (w_sock (c_net c)) |};
                             w_rng := w_rng (c_net c) |};
                  c_stdin := lines |}).
    rewrite (cbind_returned _ _ _ tt c1) by done.
    rewrite decide_True by done. exists c1. rewrite app_nil_r. done.
Qed.

Lemma length_join_packets (pkts : list bytes) :
  Forall (fun p => length p = 9%nat) pkts ->
  length (mjoin pkts) = (9 * length pkts)%nat.
Proof.
  induction 1 as [|p pkts Hp _ IH]; [done|].
  change (mjoin (p :: pkts)) with (p ++ mjoin pkts).
  rewrite length_app, Hp, IH. cbn [length]. lia.
Qed.

Lemma client_dealer_stream_follows (cards : list card) :
  forall fuel hand pkts rest res (bust : bool) t c,
  (length cards < fuel)%nat ->
  pending (c_net c) = mjoin pkts ++ rest ->
  Forall (fun p => length p = 9%nat) pkts ->
  unpack_server_payload <$> pkts
  = Ok <$> ((card_event <$> cards) ++ [(res, 0, 0)]) ->
  res = RESULT_TIE ∨ res = RESULT_LOSS ∨ res = RESULT_WIN ->
  exists c',
    client.dealer_stream fuel hand bust t c
    = (Returned (hand ++ cards, res,
                 if bust && (res =? RESULT_LOSS) then t else score t res),
       c')
    ∧ pending (c_net c') = rest
    ∧ sk_out (w_sock (c_net c')) = sk_out (w_sock (c_net c))
    ∧ sk_closed (w_sock (c_net c')) = sk_closed (w_sock (c_net c))
    ∧ c_stdin c' = c_stdin c.
Proof.
  induction cards as [|card cards IH];
    intros fuel hand pkts rest res bust t c Hfuel Hpend Hlen Hpkts Hres;
    (destruct fuel as [|fuel]; [cbn in Hfuel; lia|]);
    (destruct pkts as [|pkt pkts]; [done|]);
    cbn [fmap list_fmap app] in Hpkts; injection Hpkts as Hu Hpkts;
    apply Forall_cons in Hlen as [Hl Hlen];
    change (mjoin (pkt :: pkts)) with (pkt ++ mjoin pkts) in Hpend;
    rewrite <- app_assoc in Hpend;
    destruct (recv_event_next _ _ _ _ Hpend Hl Hu)
      as (c1 & Hr & Hp1 & Ho1 & Hc1 & Hs1);
    cbn [client.dealer_stream]; rewrite (cbind_returned _ _ _ _ _ Hr).
  - (* the result *)
    destruct pkts; [|done]. exists c1. rewrite app_nil_r.
    split; [|done]. cbv iota beta.
    destruct Hres as [-> | [-> | ->]]; destruct bust, t; cbv -[Z.add];
      rewrite ?Z.add_0_r; reflexivity.
  - (* a card of the dealer *)
    unfold card_event at 1. cbv iota beta.
    rewrite bool_decide_eq_false_2.
    2:{ unfold RESULT_NOT_OVER, RESULT_WIN, RESULT_LOSS, RESULT_TIE.
        intros H. repeat (apply elem_of_cons in H as [H|H]; [done|]).
        by apply elem_of_nil in H. }
    replace (card.1, card.2) with card by by destruct card.
    destruct (IH fuel (hand ++ [card]) pkts rest res bust t c1)
      as (c' & H & Hp' & Ho' & Hc' & Hs'); try done.
    { cbn in Hfuel. lia. }
    exists c'. rewrite <- app_assoc in H. split; [exact H|].
    rewrite Ho', Hc', Hs'. done.
Qed.

Lemma round_script_shape w w' re p1 p2 d1 d2 hits draws :
  round_shape w w' re p1 p2 d1 d2 hits draws ->
  round_script re
  = replicate (length hits) (lit "hit")
      ++ (if re_player_bust re then [] else [lit "stand"]).
Proof.
  intros Hs. unfold round_script. rewrite (rs_player _ _ _ _ _ _ _ _ _ Hs).
  rewrite length_app. cbn [length].
  by replace (2 + length hits - 2)%nat with (length hits) by lia.
Qed.

Lemma fmap_decision_packet_script n (bust : bool) :
  decision_packet
    <$> (replicate n (lit "hit") ++ (if bust then [] else [lit "stand"]))
  = replicate n hit_packet ++ (if bust then [] else [stand_packet]).
Proof.
  rewrite fmap_app, fmap_replicate. by destruct bust.
Qed.

(** The client on the events of a round of the server: it ends the round
    with the hands, the flag and the result of the server. *)
Lemma client_play_round_follows w w' re p1 p2 d1 d2 hits draws pkts rest tail
    t c :
  round_shape w w' re p1 p2 d1 d2 hits draws ->
  sk_out (w_sock w') = sk_out (w_sock w) ++ pkts ->
  Forall (fun p => length p = 9%nat) pkts ->
  pending (c_net c) = mjoin pkts ++ rest ->
  decisions (c_stdin c) = round_script re ++ tail ->
  exists c',
    client.play_round t c = (Returned (view_of re, score t (re_result re)), c')
    ∧ pending (c_net c') = rest
    ∧ decisions (c_stdin c') = tail
    ∧ sk_out (w_sock (c_net c'))
      = sk_out (w_sock (c_net c)) ++ (decision_packet <$> round_script re)
    ∧ sk_closed (w_sock (c_net c')) = sk_closed (w_sock (c_net c)).
Proof.
  intros Hs Hout Hlen Hpend Hdec.
  pose proof (round_script_shape _ _ _ _ _ _ _ _ _ Hs) as Hscript.
  destruct Hs as [Hph Hdh _ (pkts' & Hout' & Hev) Hbust Hbefore _ _ _ Hres].
  rewrite Hout in Hout'. apply app_inv_head in Hout' as <-.
  rewrite Hscript in Hdec |- *. rewrite fmap_decision_packet_script.
  rewrite <- app_assoc in Hdec.
  (* the packets of the round, one by one *)
  cbn [fmap list_fmap app] in Hev.
  destruct pkts as [|k1 pkts]; [done|]. injection Hev as Hu1 Hev.
  destruct pkts as [|k2 pkts]; [done|]. injection Hev as Hu2 Hev.
  destruct pkts as [|k3 pkts]; [done|]. injection Hev as Hu3 Hev.
  rewrite !fmap_app, <- !app_assoc in Hev.
  apply fmap_app_inv in Hev as (ph & pd & Hph' & Hpd & ->).
  apply Forall_cons in Hlen as [Hl1 Hlen].
  apply Forall_cons in Hlen as [Hl2 Hlen].
  apply Forall_cons in Hlen as [Hl3 Hlen].
  apply Forall_app in Hlen as [Hlh Hld].
  change (mjoin (k1 :: k2 :: k3 :: ph ++ pd))
    with (k1 ++ k2 ++ k3 ++ mjoin (ph ++ pd)) in Hpend.
  rewrite join_app, <- !app_assoc in Hpend.
  destruct (recv_event_next _ _ _ _ Hpend Hl1 Hu1)
    as (c1 & Hr1 & Hp1 & Ho1 & Hc1 & Hs1).
  destruct (recv_event_next _ _ _ _ Hp1 Hl2 Hu2)
    as (c2 & Hr2 & Hp2 & Ho2 & Hc2 & Hs2).
  destruct (recv_event_next _ _ _ _ Hp2 Hl3 Hu3)
    as (c3 & Hr3 & Hp3 & Ho3 & Hc3 & Hs3).
  unfold client.play_round.
  rewrite (cbind_returned _ _ _ _ _ Hr1). unfold card_event at 1.
  cbv iota beta.
  rewrite (cbind_returned _ _ _ _ _ Hr2). unfold card_event at 1.
  cbv iota beta zeta.
  rewrite (cbind_returned _ _ _ _ _ Hr3). unfold card_event at 1.
  cbv iota beta zeta.
  rewrite (cbind_returned _ _ _ c3 c3) by done.
  replace (p1.1, p1.2) with p1 by by destruct p1.
  replace (p2.1, p2.2) with p2 by by destruct p2.
  replace (d1.1, d1.2) with d1 by by destruct d1.
  (* the player turn *)
  assert (Hdec3 : decisions (c_stdin c3)
                  = replicate (length hits) (lit "hit")
                      ++ (if re_player_bust re then [] else [lit "stand"])
                      ++ tail)
    by (by rewrite Hs3, Hs2, Hs1).
  rewrite Hph in Hbust. symmetry in Hph'.
  destruct (client_player_turn_follows (c_stdin c3) (S (length (c_stdin c3)))
              [p1; p2] hits (re_player_bust re) ph (mjoin pd ++ rest) tail
              (client.losses t) c3 eq_refl (Nat.lt_succ_diag_r _) Hdec3 Hp3
              Hlh Hph' Hbefore Hbust)
    as (c4 & Hr4 & Hd4 & Hp4 & Ho4 & Hc4).
  rewrite (cbind_returned _ _ _ _ _ Hr4). cbv iota beta zeta.
  rewrite (cbind_returned _ _ _ c4 c4) by done.
  (* the dealer stream *)
  assert (Hres' : re_result re = RESULT_TIE ∨ re_result re = RESULT_LOSS
                  ∨ re_result re = RESULT_WIN).
  { rewrite Hres. apply decide_result_range. }
  symmetry in Hpd. rewrite <- fmap_app in Hpd.
  assert (Hfuel : (length (d2 :: draws)
                   < S (length (mjoin (sk_in (w_sock (c_net c4))))))%nat).
  { pose proof (stream_length (sk_in (w_sock (c_net c4)))) as Hsl.
    fold (pending (c_net c4)) in Hsl. rewrite Hp4, length_app in Hsl.
    rewrite (length_join_packets pd Hld) in Hsl.
    apply (f_equal length) in Hpd.
    rewrite !length_fmap, length_app, !length_fmap in Hpd.
    cbn [length] in Hpd |- *. lia. }
  destruct (client_dealer_stream_follows (d2 :: draws)
              (S (length (mjoin (sk_in (w_sock (c_net c4))))))
              [d1] pd rest (re_result re) (re_player_bust re)
              {| client.wins := client.wins t;
                 client.losses := if re_player_bust re
                                  then client.losses t + 1
                                  else client.losses t;
                 client.ties := client.ties t |} c4 Hfuel Hp4 Hld Hpd Hres')
    as (c5 & Hr5 & Hp5 & Ho5 & Hc5 & Hs5).
  rewrite (cbind_returned _ _ _ _ _ Hr5). cbv iota beta zeta.
  exists c5. split.
  - unfold mret, C_ret. f_equal. f_equal. f_equal.
    + unfold view_of. rewrite Hph, Hdh. reflexivity.
    + destruct (re_player_bust re) eqn:Eb.
      * assert (re_result re = RESULT_LOSS) as ->
          by (rewrite Hres; unfold decide_result; by rewrite ?Eb).
        destruct t; cbv -[Z.add]. by rewrite !Z.add_0_r.
      * by destruct t.
  - rewrite Hp5, Hs5, Hd4, Ho5, Ho4, Hc5, Hc4, Ho3, Ho2, Ho1, Hc3, Hc2, Hc1.
    done.
Qed.

Lemma join_round_script re :
  mjoin (decision_packet <$> round_script re)
  = mjoin (replicate (length (re_player_hand re) - 2) hit_packet)
      ++ (if re_player_bust re then [] else stand_packet).
Proof.
  unfold round_script. rewrite fmap_decision_packet_script, join_app.
  destruct (re_player_bust re); [done|].
  change (mjoin [stand_packet]) with (stand_packet ++ []).
  by rewrite app_nil_r.
Qed.

Lemma client_round_follows_server_aux
    (w w' : world) (re : round_end) (pkts : list bytes)
    (c : console) (t : client.tally) (rest : bytes) (tail : list pystr) :
  play_round w = (Ok re, w') ->
  sk_out (w_sock w') = sk_out (w_sock w) ++ pkts ->
  pending (c_net c) = mjoin pkts ++ rest ->
  decisions (c_stdin c) = round_script re ++ tail ->
  exists c',
    client.play_round t c = (Returned (view_of re, score t (re_result re)), c')
    ∧ pending (c_net c') = rest
    ∧ decisions (c_stdin c') = tail
    ∧ sk_out (w_sock (c_net c'))
      = sk_out (w_sock (c_net c)) ++ (decision_packet <$> round_script re)
    ∧ sk_closed (w_sock (c_net c')) = sk_closed (w_sock (c_net c))
    ∧ pending w = mjoin (decision_packet <$> round_script re) ++ pending w'.
Proof.
  intros Hrun Hout Hpend Hdec.
  pose proof (play_round_spec _ _ _ Hrun)
    as (p1 & p2 & d1 & d2 & hits & draws & Hshape).
  pose proof (play_round_sends _ _ _ Hrun) as (pkts' & Hout' & Hlen).
  rewrite Hout in Hout'. apply app_inv_head in Hout' as <-.
  destruct (client_play_round_follows _ _ _ _ _ _ _ _ _ _ _ _ t c
              Hshape Hout Hlen Hpend Hdec)
    as (c' & H1 & H2 & H3 & H4 & H5).
  exists c'. repeat (split; [done|]).
  rewrite join_round_script, <- app_assoc.
  by apply play_round_trace.
Qed.

Lemma play_rounds_sends n : forall w played w',
  play_rounds n w = (Ok played, w') -> sends_events w w'.
Proof.
  induction n as [|n IH]; intros w played w' H; cbn [play_rounds] in H.
  - apply mret_inv in H as [_ ->]. by apply sends_events_refl.
  - bind_ok_in H re w1 E1. bind_ok_in H rs w2 E2.
    apply mret_inv in H as [_ ->].
    eapply sends_events_trans; [by eapply play_round_sends|by eapply IH].
Qed.

Lemma tally_after_nil t : tally_after t [] = t.
Proof.
  destruct t. unfold tally_after, count_result. cbn.
  by rewrite !Z.add_0_r.
Qed.

Lemma tally_after_cons t re played :
  tally_after t (re :: played) = tally_after (score t (re_result re)) played.
Proof.
  unfold tally_after, score, count_result. cbn [client.wins client.losses client.ties].
  f_equal.
  - unfold filter. cbn [list_filter]. case_decide as E.
    + rewrite E. cbn [length]. change (RESULT_WIN =? RESULT_WIN) with true.
      unfold filter. lia.
    + apply Z.eqb_neq in E. rewrite E. unfold filter. lia.
  - unfold filter. cbn [list_filter]. case_decide as E.
    + rewrite E. cbn [length]. change (RESULT_LOSS =? RESULT_LOSS) with true.
      unfold filter. lia.
    + apply Z.eqb_neq in E. rewrite E. unfold filter. lia.
  - unfold filter. cbn [list_filter]. case_decide as E.
    + rewrite E. cbn [length]. change (RESULT_TIE =? RESULT_TIE) with true.
      unfold filter. lia.
    + apply Z.eqb_neq in E. rewrite E. unfold filter. lia.
Qed.

(** The rounds of the client on the events of the rounds of the
    server. *)
Lemma client_play_rounds_follow n : forall w played w' pkts c t rest tail,
  play_rounds n w = (Ok played, w') ->
  sk_out (w_sock w') = sk_out (w_sock w) ++ pkts ->
  pending (c_net c) = mjoin pkts ++ rest ->
  decisions (c_stdin c) = session_script played ++ tail ->
  exists c',
    client.play_rounds n t c
    = (Returned (view_of <$> played, tally_after t played), c')
    ∧ pending (c_net c') = rest
    ∧ decisions (c_stdin c') = tail
    ∧ sk_out (w_sock (c_net c'))
      = sk_out (w_sock (c_net c))
          ++ (decision_packet <$> session_script played)
    ∧ sk_closed (w_sock (c_net c')) = sk_closed (w_sock (c_net c))
    ∧ pending w
      = mjoin (decision_packet <$> session_script played) ++ pending w'.
Proof.
  induction n as [|n IH]; intros w played w' pkts c t rest tail H Hout Hpend
    Hdec; cbn [play_rounds] in H.
  - apply mret_inv in H as [[= ->] ->].
    rewrite <- (app_nil_r (sk_out _)) in Hout at 1.
    apply app_inv_head in Hout as <-.
    exists c. cbn [client.play_rounds]. rewrite tally_after_nil.
    unfold session_script. cbn. by rewrite app_nil_r.
  - bind_ok_in H re w1 E1. bind_ok_in H rs w2 E2.
    apply mret_inv in H as [[= ->] ->].
    destruct (play_round_sends _ _ _ E1) as (pk1 & Ho1 & _).
    destruct (play_rounds_sends _ _ _ _ E2) as (pk2 & Ho2 & _).
    assert (pkts = pk1 ++ pk2) as ->.
    { rewrite Ho2, Ho1, <- app_assoc in Hout. by apply app_inv_head in Hout. }
    unfold session_script in *.
    change (mjoin (round_script <$> re :: rs))
      with (round_script re ++ mjoin (round_script <$> rs)) in *.
    rewrite join_app, <- app_assoc in Hpend. rewrite <- app_assoc in Hdec.
    destruct (client_round_follows_server_aux _ _ _ _ c t _ _ E1 Ho1 Hpend Hdec)
      as (c1 & Hr1 & Hp1 & Hd1 & Hs1 & Hc1 & Hw1).
    destruct (IH _ _ _ _ c1 (score t (re_result re)) _ _ E2 Ho2 Hp1 Hd1)
      as (c2 & Hr2 & Hp2 & Hd2 & Hs2 & Hc2 & Hw2).
    exists c2. cbn [client.play_rounds].
    rewrite (cbind_returned _ _ _ _ _ Hr1). cbv iota beta.
    rewrite (cbind_returned _ _ _ _ _ Hr2). cbv iota beta.
    rewrite tally_after_cons. split; [done|].
    rewrite Hp2, Hd2, Hs2, Hs1, Hc2, Hc1, Hw1, Hw2.
    rewrite !fmap_app, !join_app, <- !app_assoc. done.
Qed.

Lemma play_rounds_reads n : forall w played w',
  play_rounds n w = (Ok played, w') ->
  pending w = mjoin (decision_packet <$> session_script played) ++ pending w'.
Proof.
  induction n as [|n IH]; intros w played w' H; cbn [play_rounds] in H.
  - by apply mret_inv in H as [[= ->] ->].
  - bind_ok_in H re w1 E1. bind_ok_in H rs w2 E2.
    apply mret_inv in H as [[= ->] ->].
    unfold session_script.
    change (mjoin (round_script <$> re :: rs))
      with (round_script re ++ mjoin (round_script <$> rs)).
    rewrite fmap_app, join_app, <- app_assoc, join_round_script, <- app_assoc.
    fold (session_script rs). rewrite <- (IH _ _ _ E2).
    by apply play_round_trace.
Qed.

Lemma decisions_valid lines :
  Forall (fun d => d ∈ valid_decisions) (decisions lines).
Proof.
  apply Forall_forall. intros d Hd. unfold decisions in Hd.
  by apply list_elem_of_filter in Hd as [Hd _].
Qed.

Lemma valid_decision_cases d :
  d ∈ valid_decisions -> d = lit "hit" ∨ d = lit "stand".
Proof.
  unfold valid_decisions. intros Hv.
  apply elem_of_cons in Hv as [Hv|Hv]; [by left|].
  apply elem_of_cons in Hv as [Hv|Hv]; [by right|].
  by apply elem_of_nil in Hv.
Qed.

Lemma decision_packet_inj d d' :
  d ∈ valid_decisions -> d' ∈ valid_decisions ->
  decision_packet d = decision_packet d' -> d = d'.
Proof.
  intros [->| ->]%valid_decision_cases [->| ->]%valid_decision_cases;
    done.
Qed.

Lemma length_decision_packet d :
  d ∈ valid_decisions -> length (decision_packet d) = 10%nat.
Proof. by intros [->| ->]%valid_decision_cases. Qed.

Lemma round_script_valid re :
  Forall (fun d => d ∈ valid_decisions) (round_script re).
Proof.
  unfold round_script. apply Forall_app. split.
  - apply Forall_replicate. unfold valid_decisions. apply elem_of_cons. by left.
  - destruct (re_player_bust re); [done|]. apply Forall_singleton.
    unfold valid_decisions. apply elem_of_cons. right.
    apply elem_of_cons. by left.
Qed.

Lemma session_script_valid played :
  Forall (fun d => d ∈ valid_decisions) (session_script played).
Proof.
  unfold session_script. induction played as [|re played IH]; [done|].
  change (mjoin (round_script <$> re :: played))
    with (round_script re ++ mjoin (round_script <$> played)).
  apply Forall_app. split; [apply round_script_valid|done].
Qed.

(** A stream of Client Decisions is read in one way only. *)
Lemma script_is_prefix script : forall ds P,
  Forall (fun d => d ∈ valid_decisions) ds ->
  Forall (fun d => d ∈ valid_decisions) script ->
  mjoin (decision_packet <$> ds) = mjoin (decision_packet <$> script) ++ P ->
  exists tail, ds = script ++ tail ∧ P = mjoin (decision_packet <$> tail).
Proof.
  induction script as [|s script IH]; intros ds P Hds Hscript H.
  - exists ds. by split.
  - apply Forall_cons in Hscript as [Hs Hscript].
    change (mjoin (decision_packet <$> s :: script))
      with (decision_packet s ++ mjoin (decision_packet <$> script)) in H.
    pose proof (length_decision_packet _ Hs) as Hls.
    destruct ds as [|d ds].
    { apply (f_equal length) in H. rewrite !length_app, Hls in H.
      cbn in H. lia. }
    apply Forall_cons in Hds as [Hd Hds].
    change (mjoin (decision_packet <$> d :: ds))
      with (decision_packet d ++ mjoin (decision_packet <$> ds)) in H.
    rewrite <- app_assoc in H.
    apply app_inj_1 in H as [Hdp H];
      [|by rewrite Hls, (length_decision_packet _ Hd)].
    apply decision_packet_inj in Hdp as ->; [|done..].
    destruct (IH _ _ Hds Hscript H) as (tail & -> & ->). by exists tail.
Qed.

Lemma client_name_request n :
  0 <= n <= 255 ->
  exists pkt,
    pack_request n client.CLIENT_NAME = Ok pkt
    ∧ length pkt = 38%nat
    ∧ unpack_request pkt = Ok (n, client.CLIENT_NAME).
Proof.
  intros Hn.
  exists (request_bytes n (encode_team_name client.CLIENT_NAME)).
  split; [apply pack_request_layout; lia|]. split.
  - unfold request_bytes. rewrite !length_app, !length_be_encode.
    by rewrite length_encode_team_name.
  - rewrite <- (app_nil_r (request_bytes n (encode_team_name client.CLIENT_NAME))).
    rewrite unpack_request_bytes by (done || apply length_encode_team_name).
    repeat f_equal; vm_compute; reflexivity.
Qed.

Lemma client_session_follows (w w' : world) (played : list round_end)
    (n : Z) (c : console) (pkts : list bytes) (rest : bytes) :
  handle_client w = (Ok played, w') ->
  0 <= n <= 255 ->
  pending w
  = packed (pack_request n client.CLIENT_NAME)
      ++ mjoin (decision_packet <$> decisions (c_stdin c)) ->
  sk_out (w_sock w') = sk_out (w_sock w) ++ pkts ->
  pending (c_net c) = mjoin pkts ++ rest ->
  exists c',
    client.session n c
    = (Returned (view_of <$> played,
                 tally_after {| client.wins := 0; client.losses := 0;
                                client.ties := 0 |} played), c')
    ∧ length played = Z.to_nat n
    ∧ sk_closed (w_sock (c_net c')) = true
    ∧ pending (c_net c') = rest
    ∧ decisions (c_stdin c)
      = session_script played ++ decisions (c_stdin c')
    ∧ sk_out (w_sock (c_net c'))
      = sk_out (w_sock (c_net c))
          ++ packed (pack_request n client.CLIENT_NAME)
          :: (decision_packet <$> session_script played)
    ∧ pending w' = mjoin (decision_packet <$> decisions (c_stdin c')).
Proof.
  intros Hrun Hn Hin Hout Hpend.
  destruct (client_name_request n Hn) as (req & Hpack & Hlreq & Hunpack).
  rewrite Hpack in Hin |- *. cbn [packed] in Hin |- *.
  (* the server: the request, then the rounds *)
  unfold handle_client, try_finally in Hrun.
  destruct ((recv_exact REQUEST_SIZE ≫= _) w) as [r0 w0] eqn:E.
  injection Hrun as -> <-. cbn [w_sock sk_out] in Hout.
  bind_ok_in E data w1 E1.
  pose proof (recv_exact_cases _ _ _ _ E1) as [Hout1 _].
  apply recv_exact_ok_inv in E1 as [Hpend1 Hlen1].
  rewrite Hin in Hpend1.
  apply app_inj_1 in Hpend1 as [<- Hpend1]; [|by rewrite Hlen1].
  bind_ok_in E x w2 E2. apply lift_inv in E2 as [E2 ->].
  rewrite Hunpack in E2. injection E2 as ->. cbv iota beta in E.
  symmetry in Hpend1.
  (* the decisions typed are those the server has read *)
  pose proof (play_rounds_spec _ _ _ _ E) as Hcount.
  rewrite <- Hout1 in Hout.
  set (c0 := {| c_net := {| w_sock := {| sk_in := sk_in (w_sock (c_net c));
                                        sk_out := sk_out (w_sock (c_net c)) ++ [req];
                                        sk_closed := sk_closed (w_sock (c_net c)) |};
                           w_rng := w_rng (c_net c) |};
                c_stdin := c_stdin c |}).
  pose proof (play_rounds_reads _ _ _ _ E) as Hreads.
  rewrite Hpend1 in Hreads.
  apply script_is_prefix in Hreads as (tail & Hscript & Hrest);
    [|apply decisions_valid|apply session_script_valid].
  (* the client: the request, the rounds and the close *)
  destruct (client_play_rounds_follow _ _ _ _ _ c0
              {| client.wins := 0; client.losses := 0; client.ties := 0 |}
              rest tail E Hout Hpend Hscript)
    as (c1 & Hr1 & Hp1 & Hd1 & Hs1 & Hc1 & _).
  exists {| c_net := {| w_sock := {| sk_in := sk_in (w_sock (c_net c1));
                                    sk_out := sk_out (w_sock (c_net c1));
                                    sk_closed := true |};
                       w_rng := w_rng (c_net c1) |};
            c_stdin := c_stdin c1 |}.
  unfold client.session.
  rewrite (cbind_returned _ _ c tt c0)
    by (unfold on_net; by rewrite (bind_ok _ _ _ req (c_net c)) by (by unfold lift; rewrite Hpack)).
  rewrite (cbind_returned _ _ _ _ _ Hr1).
  split; [done|]. split; [done|]. split; [done|]. split; [exact Hp1|].
  cbn [c_stdin c_net w_sock sk_out]. rewrite Hd1, Hs1.
  split; [done|]. split; [|exact Hrest].
  unfold c0. cbn [c_net w_sock sk_out]. by rewrite <- app_assoc.
Qed.

Lemma play_rounds_results n : forall w played w',
  play_rounds n w = (Ok played, w') ->
  Forall (fun re => re_result re = RESULT_TIE ∨ re_result re = RESULT_LOSS
                    ∨ re_result re = RESULT_WIN) played.
Proof.
  induction n as [|n IH]; intros w played w' H; cbn [play_rounds] in H.
  - by apply mret_inv in H as [[= ->] ->].
  - bind_ok_in H re w1 E1. bind_ok_in H rs w2 E2.
    apply mret_inv in H as [[= ->] ->]. apply Forall_cons. split.
    + apply play_round_spec in E1 as (p1 & p2 & d1 & d2 & hits & draws & Hs).
      rewrite (rs_result _ _ _ _ _ _ _ _ _ Hs). apply decide_result_range.
    + by eapply IH.
Qed.

Lemma tally_after_total t played :
  Forall (fun re => re_result re = RESULT_TIE ∨ re_result re = RESULT_LOSS
                    ∨ re_result re = RESULT_WIN) played ->
  client.wins (tally_after t played) + client.losses (tally_after t played)
    + client.ties (tally_after t played)
  = client.wins t + client.losses t + client.ties t
      + Z.of_nat (length played).
Proof.
  intros H. revert t. induction H as [|re played Hre _ IH]; intros t.
  - rewrite tally_after_nil. cbn [length]. lia.
  - rewrite tally_after_cons, IH. cbn [length].
    destruct Hre as [-> | [-> | ->]]; cbn; lia.
Qed.

(** X16. The client plays the round the server plays.  Take a round the
    server has played to its end.  If the client receives the packets
    this round has sent, and the user types the decisions on which the
    server has acted (with any lines in between that are no decision),
    then the round of the client ends too, with the same two hands, the
    same bust flag and the same result, and exactly one of its counters
    goes up by one, the one of this result; the client has taken exactly
    these packets and these lines, and the packets it has sent are
    exactly the bytes the server has read in the round. *)
Theorem client_round_follows_server
    (w w' : world) (re : round_end) (pkts : list bytes)
    (c : console) (t : client.tally) (rest : bytes) (tail : list pystr) :
  play_round w = (Ok re, w') ->
  sk_out (w_sock w') = sk_out (w_sock w) ++ pkts ->
  pending (c_net c) = mjoin pkts ++ rest ->
  decisions (c_stdin c) = round_script re ++ tail ->
  exists c',
    client.play_round t c = (Returned (view_of re, score t (re_result re)), c')
    ∧ pending (c_net c') = rest
    ∧ decisions (c_stdin c') = tail
    ∧ sk_out (w_sock (c_net c'))
      = sk_out (w_sock (c_net c)) ++ (decision_packet <$> round_script re)
    ∧ sk_closed (w_sock (c_net c')) = sk_closed (w_sock (c_net c))
    ∧ pending w = mjoin (decision_packet <$> round_script re) ++ pending w'.
Proof. apply client_round_follows_server_aux. Qed.

Lemma client_round_follows_server_witness :
  let w := sample_world [hit_packet; stand_packet] in
  let c := sample_console (sk_out (w_sock (play_round w).2))
             [lit "Hit"; lit "no"; lit " stand"] in
  exists c',
    client.play_round no_rounds c
    = (Returned (view_of sample_round,
                 {| client.wins := 1; client.losses := 0;
                    client.ties := 0 |}), c')
    ∧ pending (c_net c') = []
    ∧ c_stdin c' = [].
Proof.
  intros w c.
  assert (H1 : play_round w = (Ok sample_round, (play_round w).2))
    by (vm_compute; reflexivity).
  assert (H2 : sk_out (w_sock (play_round w).2)
               = sk_out (w_sock w) ++ sk_out (w_sock (play_round w).2))
    by reflexivity.
  assert (H3 : pending (c_net c)
               = mjoin (sk_out (w_sock (play_round w).2)) ++ [])
    by (vm_compute; reflexivity).
  assert (H4 : decisions (c_stdin c) = round_script sample_round ++ [])
    by (vm_compute; reflexivity).
  destruct (client_round_follows_server w _ sample_round _ c no_rounds [] []
              H1 H2 H3 H4) as (c' & Hrun & Hp & _).
  exists c'. split; [exact Hrun|]. split; [exact Hp|].
  assert (Hc : c' = (client.play_round no_rounds c).2) by (by rewrite Hrun).
  rewrite Hc. vm_compute. reflexivity.
Defined.


Lemma recv_event_ok c :
  client_ok c (client.recv_event c)
  ∧ forall ev c', client.recv_event c = (Returned ev, c') ->
      c_stdin c' = c_stdin c
      ∧ (length (pending (c_net c')) < length (pending (c_net c)))%nat.
Proof.
  unfold client.recv_event, on_net, client.SERVER_PAYLOAD_SIZE.
  destruct (recv_exact_spec 9 (c_net c)) as (w' & (Ho & Hc & _) & H).
  case_decide as Hn.
  - destruct H as [H Hp]. rewrite (bind_ok _ _ _ _ _ H). unfold lift.
    destruct (unpack_server_payload_value_or_error (take 9 (pending (c_net c))))
      as [[v ->]|[msg ->]].
    + split; [done|]. intros ev c' [= <- <-]. split; [done|].
      cbn [c_net]. rewrite Hp, length_drop.
      lia.
    + split; [|done]. split; [done|]. right. by exists msg.
  - rewrite (bind_raise _ _ _ _ _ H). split; [|done]. split; [done|].
    left. by eexists.
Qed.






Lemma valid_card_in_pack c : valid_card c -> c ∈ all_cards.
Proof.
  destruct c as [rank suit]. intros H. apply elem_of_all_cards. exact H.
Qed.

Lemma format_card_inj c1 c2 :
  valid_card c1 -> valid_card c2 ->
  client.format_card c1 = client.format_card c2 -> c1 = c2.
Proof.
  intros H1%valid_card_in_pack H2%valid_card_in_pack.
  assert (Hall : Forall (fun c1 : card =>
                   Forall (fun c2 : card =>
                     client.format_card c1 = client.format_card c2 -> c1 = c2)
                     all_cards) all_cards)
    by (apply (bool_decide_unpack _); vm_compute; reflexivity).
  rewrite Forall_forall in Hall. specialize (Hall c1 H1).
  rewrite Forall_forall in Hall. exact (Hall c2 H2).
Qed.

Lemma format_card_no_comma c :
  valid_card c -> (44 ∉ client.format_card c) ∧ client.format_card c <> [].
Proof.
  intros H%valid_card_in_pack.
  assert (Hall : Forall (fun c : card =>
                   (44 ∉ client.format_card c) ∧ client.format_card c <> [])
                   all_cards)
    by (apply (bool_decide_unpack _); vm_compute; reflexivity).
  rewrite Forall_forall in Hall. exact (Hall c H).
Qed.

Lemma comma_split (x : pystr) : forall y tx ty,
  44 ∉ x -> 44 ∉ y ->
  (tx = [] ∨ exists r, tx = 44 :: r) ->
  (ty = [] ∨ exists r, ty = 44 :: r) ->
  x ++ tx = y ++ ty -> x = y ∧ tx = ty.
Proof.
  induction x as [|a x IH]; intros y tx ty Hx Hy Htx Hty H.
  - destruct y as [|b y]; [done|]. cbn in H. exfalso.
    destruct Htx as [->|[r ->]]; [done|]. injection H as <- _.
    apply Hy. by left.
  - destruct y as [|b y].
    + cbn in H. exfalso. destruct Hty as [->|[r ->]]; [done|].
      injection H as -> _. apply Hx. by left.
    + injection H as -> H.
      destruct (IH y tx ty) as [-> ->]; try done.
      * intros Hin. apply Hx. by right.
      * intros Hin. apply Hy. by right.
Qed.

Lemma format_hand_cons c hand :
  client.format_hand (c :: hand)
  = client.format_card c
      ++ match hand with
         | [] => []
         | _ => lit ", " ++ client.format_hand hand
         end.
Proof.
  unfold client.format_hand.
  destruct hand as [|c' hand]; cbn [fmap list_fmap str_join];
    [by rewrite app_nil_r|done].
Qed.

Lemma format_hand_inj (h1 : list card) : forall h2,
  Forall valid_card h1 -> Forall valid_card h2 ->
  client.format_hand h1 = client.format_hand h2 -> h1 = h2.
Proof.
  intros h2 H1. revert h2. induction H1 as [|c1 h1 Hc1 Hv1 IH]; intros h2 H2 H.
  - destruct H2 as [|c2 h2 Hc2 _]; [done|]. exfalso.
    rewrite format_hand_cons in H. change (client.format_hand []) with (@nil Z) in H.
    symmetry in H. apply app_eq_nil in H as [H _].
    by apply (format_card_no_comma c2).
  - destruct H2 as [|c2 h2 Hc2 Hv2].
    { exfalso. rewrite format_hand_cons in H.
      change (client.format_hand []) with (@nil Z) in H.
      apply app_eq_nil in H as [H _]. by apply (format_card_no_comma c1). }
    rewrite !format_hand_cons in H.
    apply comma_split in H as [Hc Ht].
    + apply format_card_inj in Hc as ->; [|done..]. f_equal.
      destruct h1 as [|c1' h1], h2 as [|c2' h2]; try done.
      apply app_inv_head in Ht. by apply IH.
    + by apply format_card_no_comma.
    + by apply format_card_no_comma.
    + destruct h1; [by left|right]. by eexists.
    + destruct h2; [by left|right]. by eexists.
Qed.

(** X19. What the client prints for a hand tells the hand: two different
    hands of cards of the pack, be it by one card or by the order of the
    cards, are displayed differently by [format_hand]; in particular
    [format_card] gives the 52 cards 52 different names, and a hand is
    never displayed as the empty string unless it is empty. *)
Theorem format_hand_injective (h1 h2 : list card) :
  Forall valid_card h1 -> Forall valid_card h2 ->
  h1 <> h2 ->
  client.format_hand h1 <> client.format_hand h2.
Proof. intros H1 H2 Hne H. by apply Hne, format_hand_inj. Qed.

Lemma format_hand_injective_witness :
  client.format_hand [(1, 3); (10, 0)] <> client.format_hand [(10, 0); (1, 3)].
Proof.
  apply format_hand_injective.
  - repeat (apply Forall_cons; split; [unfold valid_card; cbn; lia|]).
    apply Forall_nil_2.
  - repeat (apply Forall_cons; split; [unfold valid_card; cbn; lia|]).
    apply Forall_nil_2.
  - discriminate.
Defined.






















(** ** The result of a round and the dealer turn *)








(** ** What the client reads of its input *)

Lemma decisions_app l1 l2 :
  decisions (l1 ++ l2) = decisions l1 ++ decisions l2.
Proof. unfold decisions. by rewrite fmap_app, filter_app. Qed.

Lemma has_read_nil c c' : c_stdin c' = c_stdin c -> has_read c c' [].
Proof. intros H. split; [by rewrite H|done]. Qed.

Lemma has_read_trans c1 c2 c3 l1 l2 :
  has_read c1 c2 l1 -> has_read c2 c3 l2 -> has_read c1 c3 (l1 ++ l2).
Proof.
  intros [H1 V1] [H2 V2]. split; [by rewrite H1, H2, app_assoc|].
  intros l Hl. destruct l2 as [|x l2 _] using rev_ind.
  - rewrite app_nil_r in Hl. by apply V1.
  - rewrite app_assoc, last_snoc in Hl. apply V2. by rewrite last_snoc.
Qed.

Lemma client_player_turn_reads fuel : forall hand l c r c',
  client.player_turn fuel hand l c = (Returned r, c') ->
  exists lines, has_read c c' lines ∧ lines <> [].
Proof.
  induction fuel as [|fuel IH]; intros hand l c r c' H; [done|].
  cbn [client.player_turn] in H.
  apply cbind_inv in H as (line & c1 & Hin & H).
  unfold input in Hin. destruct (c_stdin c) as [|line' lines] eqn:E; [done|].
  injection Hin as -> <-. cbv zeta in H. fold (typed_decision line) in H.
  change [lit "hit"; lit "stand"] with valid_decisions in H.
  assert (Hskip : forall c2 lines',
            c_stdin c2 = lines ->
            has_read c2 c' lines' -> lines' <> [] ->
            exists lines0, has_read c c' lines0 ∧ lines0 <> []).
  { intros c2 lines' Hc2 [Hr Hv] Hne. exists (line :: lines').
    split; [|done]. split.
    - rewrite E. cbn [app]. f_equal. by rewrite <- Hc2.
    - intros l0 Hl. apply Hv. destruct lines'; [done|]. exact Hl. }
  assert (Hstop : forall c2,
            typed_decision line ∈ valid_decisions ->
            c_stdin c2 = lines -> c' = c2 ->
            exists lines0, has_read c c' lines0 ∧ lines0 <> []).
  { intros c2 Hv Hc2 ->. exists [line]. split; [|done]. split.
    - by rewrite E, Hc2.
    - by intros l0 [= <-]. }
  case_bool_decide as Hv; cbn [negb] in H.
  2:{ apply IH in H as (lines' & Hr & Hne).
      refine (Hskip _ lines' _ Hr Hne). reflexivity. }
  apply cbind_inv in H as ([] & c2 & Hsend & H).
  apply on_net_inv in Hsend as [_ Hs2]. cbn [c_stdin] in Hs2.
  case_decide as Hd.
  { injection H as _ <-. by apply (Hstop c2). }
  apply cbind_inv in H as ([[result rank] suit] & c3 & Hrecv & H).
  apply (proj2 (recv_event_ok c2)) in Hrecv as [Hs3 _].
  destruct (result =? RESULT_NOT_OVER); cbv zeta in H.
  - destruct (_ >? 21).
    + injection H as _ <-. apply (Hstop c3); [done| |done]. by rewrite Hs3.
    + apply IH in H as (lines' & Hr & Hne).
      refine (Hskip c3 lines' _ Hr Hne). by rewrite Hs3.
  - apply IH in H as (lines' & Hr & Hne).
    refine (Hskip c3 lines' _ Hr Hne). by rewrite Hs3.
Qed.

Lemma client_dealer_stream_reads fuel : forall hand bust t c r c',
  client.dealer_stream fuel hand bust t c = (Returned r, c') ->
  c_stdin c' = c_stdin c.
Proof.
  induction fuel as [|fuel IH]; intros hand bust t c r c' H; [done|].
  cbn [client.dealer_stream] in H.
  apply cbind_inv in H as ([[result rank] suit] & c1 & Hrecv & H).
  apply (proj2 (recv_event_ok c)) in Hrecv as [Hs1 _].
  case_bool_decide.
  - injection H as _ <-. exact Hs1.
  - apply IH in H. by rewrite H.
Qed.

Lemma client_play_round_reads t c r c' :
  client.play_round t c = (Returned r, c') ->
  exists lines, has_read c c' lines ∧ lines <> [].
Proof.
  unfold client.play_round. intros H.
  apply cbind_inv in H as ([[? ?] ?] & c1 & Hr1 & H).
  apply (proj2 (recv_event_ok c)) in Hr1 as [Hs1 _].
  apply cbind_inv in H as ([[? ?] ?] & c2 & Hr2 & H).
  apply (proj2 (recv_event_ok c1)) in Hr2 as [Hs2 _]. cbv zeta in H.
  apply cbind_inv in H as ([[? ?] ?] & c3 & Hr3 & H).
  apply (proj2 (recv_event_ok c2)) in Hr3 as [Hs3 _]. cbv zeta in H.
  apply cbind_inv in H as (? & ? & [= <- <-] & H).
  apply cbind_inv in H as ([[? ?] ?] & c4 & Hp & H).
  apply client_player_turn_reads in Hp as (lines & [Hr Hv] & Hne).
  cbv zeta in H.
  apply cbind_inv in H as (? & ? & [= <- <-] & H).
  apply cbind_inv in H as ([[? ?] ?] & c5 & Hd & H).
  apply client_dealer_stream_reads in Hd. injection H as _ <-.
  exists lines. split; [|done]. split; [|done].
  by rewrite Hd, <- Hr, Hs3, Hs2, Hs1.
Qed.

Lemma client_play_rounds_reads n : forall t c r c',
  client.play_rounds n t c = (Returned r, c') ->
  exists lines, has_read c c' lines.
Proof.
  induction n as [|n IH]; intros t c r c' H; cbn [client.play_rounds] in H.
  - injection H as _ <-. exists []. by apply has_read_nil.
  - apply cbind_inv in H as ([v t1] & c1 & H1 & H).
    apply cbind_inv in H as ([vs t2] & c2 & H2 & H). injection H as _ <-.
    apply client_play_round_reads in H1 as (l1 & Hr1 & _).
    apply IH in H2 as (l2 & Hr2).
    exists (l1 ++ l2). by eapply has_read_trans.
Qed.

Lemma client_session_reads n c r c' :
  client.session n c = (Returned r, c') ->
  exists lines, has_read c c' lines.
Proof.
  unfold client.session. intros H.
  apply cbind_inv in H as ([] & c0 & H0 & H).
  apply on_net_inv in H0 as [_ Hs0].
  apply cbind_inv in H as (r1 & c1 & H1 & H).
  apply cbind_inv in H as ([] & c2 & H2 & H).
  apply on_net_inv in H2 as [_ Hs2]. injection H as _ <-.
  apply client_play_rounds_reads in H1 as (lines & [Hr Hv]).
  exists lines. split; [|done]. by rewrite Hs2, <- Hr, Hs0.
Qed.

(** X17. The client plays the session the server plays.  Take a session
    of the server that ends normally, on a stream made of the Request of
    the client for [n] rounds and of the decisions the user types, one
    packet each.  If the client receives what this session has sent, the
    session of the client ends normally too: it shows the rounds of the
    server, [n] of them, each with the same hands, bust flag and result;
    its counters are the numbers of rounds the server has ended with a
    win, a loss and a tie, and add up to [n]; it closes its socket; it
    has sent the Request and then one packet for each decision on which
    the server has acted.  Of its input it has read the lines [lines],
    the first of the lines typed, and left the others unread: the
    decisions among the lines read are exactly those on which the server
    has acted, and the last line read, if any, is the line of the last
    of them, so that no line is read after it, be it a decision or
    not. *)
Theorem client_session_follows_server
    (w w' : world) (played : list round_end)
    (n : Z) (c : console) (pkts : list bytes) (rest : bytes) :
  handle_client w = (Ok played, w') ->
  0 <= n <= 255 ->
  pending w
  = packed (pack_request n client.CLIENT_NAME)
      ++ mjoin (decision_packet <$> decisions (c_stdin c)) ->
  sk_out (w_sock w') = sk_out (w_sock w) ++ pkts ->
  pending (c_net c) = mjoin pkts ++ rest ->
  exists c' t lines,
    client.session n c = (Returned (view_of <$> played, t), c')
    ∧ length played = Z.to_nat n
    ∧ t = tally_after no_rounds played
    ∧ client.wins t + client.losses t + client.ties t = n
    ∧ sk_closed (w_sock (c_net c')) = true
    ∧ pending (c_net c') = rest
    ∧ c_stdin c = lines ++ c_stdin c'
    ∧ decisions lines = session_script played
    ∧ (forall l, last lines = Some l -> typed_decision l ∈ valid_decisions)
    ∧ decisions (c_stdin c)
      = session_script played ++ decisions (c_stdin c')
    ∧ sk_out (w_sock (c_net c'))
      = sk_out (w_sock (c_net c))
          ++ packed (pack_request n client.CLIENT_NAME)
          :: (decision_packet <$> session_script played)
    ∧ pending w' = mjoin (decision_packet <$> decisions (c_stdin c')).
Proof.
  intros Hrun Hn Hin Hout Hpend.
  destruct (client_session_follows _ _ _ _ _ _ _ Hrun Hn Hin Hout Hpend)
    as (c' & Hc & Hlen & Hclosed & Hrest & Hdec & Hsent & Hleft).
  destruct (client_session_reads _ _ _ _ Hc) as (lines & Hr & Hv).
  exists c', (tally_after no_rounds played), lines.
  split; [exact Hc|]. split; [exact Hlen|]. split; [done|].
  split.
  { rewrite tally_after_total, Hlen; [cbn; lia|].
    unfold handle_client, try_finally in Hrun.
    destruct ((recv_exact REQUEST_SIZE ≫= _) w) as [r0 w0] eqn:E.
    injection Hrun as -> <-.
    bind_ok_in E data w1 E1. bind_ok_in E x w2 E2.
    destruct x as [rounds name].
    by apply play_rounds_results in E. }
  split; [done|]. split; [done|]. split; [exact Hr|].
  split; [|done].
  rewrite Hr, decisions_app in Hdec. by apply app_inv_tail in Hdec.
Qed.

Lemma client_session_follows_server_witness :
  let c := sample_console (sk_out (w_sock sample_session.2)) sample_lines in
  exists played c',
    sample_session.1 = Ok played
    ∧ client.session 2 c
      = (Returned (view_of <$> played,
                   {| client.wins := 2; client.losses := 0;
                      client.ties := 0 |}), c')
    ∧ length played = 2%nat
    ∧ sk_closed (w_sock (c_net c')) = true
    ∧ exists lines,
        sample_lines = lines ++ c_stdin c'
        ∧ decisions lines = [lit "hit"; lit "stand"; lit "stand"].
Proof.
  intros c.
  set (played := match sample_session.1 with Ok p => p | _ => [] end).
  assert (H1 : handle_client
                 (sample_world
                    [packed (pack_request 2 client.CLIENT_NAME);
                     mjoin (decision_packet <$> decisions sample_lines)])
               = (Ok played, sample_session.2))
    by (vm_compute; reflexivity).
  assert (H2 : pending
                 (sample_world
                    [packed (pack_request 2 client.CLIENT_NAME);
                     mjoin (decision_packet <$> decisions sample_lines)])
               = packed (pack_request 2 client.CLIENT_NAME)
                   ++ mjoin (decision_packet <$> decisions (c_stdin c)))
    by (vm_compute; reflexivity).
  assert (H3 : sk_out (w_sock sample_session.2)
               = sk_out (w_sock
                           (sample_world
                              [packed (pack_request 2 client.CLIENT_NAME);
                               mjoin (decision_packet
                                        <$> decisions sample_lines)]))
                   ++ sk_out (w_sock sample_session.2))
    by reflexivity.
  assert (H4 : pending (c_net c) = mjoin (sk_out (w_sock sample_session.2)) ++ [])
    by (vm_compute; reflexivity).
  destruct (client_session_follows_server _ _ played 2 c _ []
              H1 ltac:(lia) H2 H3 H4)
    as (c' & t & lines & Hrun & Hlen & Ht & _ & Hclosed & _ & Hlines
        & Hdec & _).
  exists played, c'. split; [vm_compute; reflexivity|].
  split; [rewrite Hrun, Ht; vm_compute; reflexivity|].
  split; [exact Hlen|]. split; [exact Hclosed|].
  exists lines. split; [exact Hlines|]. rewrite Hdec.
  vm_compute. reflexivity.
Defined.
